(** * WCAG agent skills: a shallow embedding of the command-line tools

    The repository is a set of independent Node.js scripts (contrast ratio,
    colour-blindness simulation, touch-target size, motion, focus order,
    font-size conversion, skill metadata build).  Each script is embedded
    below in a module of its own, function by function, under the names the
    source uses; the properties of the specification follow the definitions.

    Conventions of the embedding.
    - A JavaScript number is a value of [number F]: [NaN], the two
      infinities, or a finite value of the carrier [F]; zero is unsigned.
      The carrier is [Qc] wherever the script only adds, multiplies, divides
      and compares: every sum, product, quotient and decimal literal is then
      rounded to binary64 ([binary64]: to the nearest value of 53 significant
      bits, a tie going to the even one, with the subnormal range below
      2^-1022 and overflow to an infinity from 2^1024), and the definitions
      compute.  An integer ([of_Z]: the integer constants of the source and
      what [parseInt] reads) is kept as it is, and [Math.round] is exact.
      The carrier is [R] for the contrast calculator, whose luminance
      formula raises to the power 2.4; the arithmetic of the reals is not
      rounded.
    - A JavaScript string is a [string] of 8-bit characters; the white space
      of [trim] and [parseInt] is the ASCII part of the ECMAScript set.
    - [process.exit], uncaught exceptions and normal termination are the
      constructors of [outcome].
    - [JSON.parse] and [parseFloat] are parameters of the scripts that call
      them; the parsed document is read through the properties a script
      looks at, each holding a value of the type section 3 of the
      specification gives it.
    - A template literal is a [message]: the pieces of text and the numbers
      spliced between them.  How results are laid out on standard output is
      not modelled; [main] returns the values it prints. *)

From Stdlib Require Import ZArith QArith Qcanon Qround Qabs Qpower Reals Lqa Lra Lia.
From Stdlib Require Import String Ascii List Bool.
From Stdlib Require Import DecimalString HexadecimalString.
From stdpp Require Import base option list gmap strings sorting.

(* ================================================================== *)
(** * JavaScript numbers *)
(* ================================================================== *)

Module Num.

Inductive number (F : Type) : Type :=
  | NaN
  | PInf
  | NInf
  | Fin (x : F).
Arguments NaN {F}.
Arguments PInf {F}.
Arguments NInf {F}.
Arguments Fin {F} x.

(** ** Rounding to binary64 *)

(** The exponent of the power of two at or below a positive [x]. *)
Definition ilog2 (x : Q) : Z :=
  let k := (Z.log2 (Qnum x) - Z.log2 (Zpos (Qden x)))%Z in
  if Qle_bool (2 ^ k) x then k else (k - 1)%Z.

(** The nearest integer, a tie going to the even one. *)
Definition rne (x : Q) : Z :=
  let f := Qfloor x in
  match Qcompare (x - inject_Z f) (1 # 2) with
  | Lt => f
  | Gt => (f + 1)%Z
  | Eq => if Z.even f then f else (f + 1)%Z
  end.

(** The exponent of the last place of the binary64 values around [x]:
    53 significant bits, and never below the subnormal spacing 2^-1074. *)
Definition quantum (x : Q) : Z := Z.max (ilog2 (Qabs x) - 52) (-1074).

Definition round64 (x : Q) : Q :=
  (inject_Z (rne (x / 2 ^ quantum x)) * 2 ^ quantum x)%Q.

(** The binary64 value of the exact result [x]: an infinity when the
    rounded magnitude reaches 2^1024.  The finite value is kept in lowest
    terms. *)
Definition binary64 (x : Q) : number Qc :=
  let y := round64 x in
  if Qle_bool (2 ^ 1024) (Qabs y) then (if Qle_bool 0 y then PInf else NInf)
  else Fin (Q2Qc (Qred y)).

(** [near e x a]: [a] is [x] up to the relative error [e]. *)
Definition near (e x a : Q) : Prop := (Qabs (a - x) <= e * Qabs x)%Q.

(** [magnitude k x]: the size of [x] lies between 2^-k and 2^k. *)
Definition magnitude (k : Z) (x : Q) : Prop :=
  (2 ^ (- k) <= Qabs x)%Q ∧ (Qabs x <= 2 ^ k)%Q.


(** The finite part of the number line: what the scripts need of it.
    [s_number] is the number an exact result becomes. *)
Class Scalar (F : Type) := {
  of_Q : Q → F;
  s_add : F → F → F;
  s_mul : F → F → F;
  s_div : F → F → F;
  s_leb : F → F → bool;
  s_eqb : F → F → bool;
  s_floor : F → Z;
  s_number : F → number F
}.

#[export] Instance Qc_scalar : Scalar Qc := {|
  of_Q := Q2Qc;
  s_add := Qcplus;
  s_mul := Qcmult;
  s_div := Qcdiv;
  s_leb := λ x y, Qle_bool x y;
  s_eqb := λ x y, Qeq_bool x y;
  s_floor := λ x, Qfloor x;
  s_number := λ x, binary64 x
|}.

#[export] Instance R_scalar : Scalar R := {|
  of_Q := Q2R;
  s_add := Rplus;
  s_mul := Rmult;
  s_div := Rdiv;
  s_leb := λ x y, if Rle_dec x y then true else false;
  s_eqb := λ x y, if Req_dec_T x y then true else false;
  s_floor := Zfloor;
  s_number := Fin
|}.

Section Ops.
Context {F : Type} `{Scalar F}.

Definition zero : F := of_Q 0.
Definition s_ltb (x y : F) : bool := s_leb x y && negb (s_eqb x y).

(** A decimal literal of the source. *)
Definition lit (q : Q) : number F := s_number (of_Q q).
(** An integer, as it is. *)
Definition of_Z (z : Z) : number F := Fin (of_Q (inject_Z z)).

Definition isNaN (x : number F) : bool :=
  match x with NaN => true | _ => false end.

(** ToBoolean on numbers: 0 and NaN are falsy. *)
Definition truthy (x : number F) : bool :=
  match x with
  | NaN => false
  | Fin a => negb (s_eqb a zero)
  | _ => true
  end.

Definition add (x y : number F) : number F :=
  match x, y with
  | NaN, _ | _, NaN => NaN
  | PInf, NInf | NInf, PInf => NaN
  | PInf, _ | _, PInf => PInf
  | NInf, _ | _, NInf => NInf
  | Fin a, Fin b => s_number (s_add a b)
  end.

(** Sign of a finite value: [None] for zero, [Some true] for positive. *)
Definition sign (a : F) : option bool :=
  if s_eqb a zero then None else Some (s_leb zero a).

Definition inf (positive : bool) : number F :=
  if positive then PInf else NInf.

Definition mul (x y : number F) : number F :=
  match x, y with
  | NaN, _ | _, NaN => NaN
  | Fin a, Fin b => s_number (s_mul a b)
  | PInf, PInf | NInf, NInf => PInf
  | PInf, NInf | NInf, PInf => NInf
  | PInf, Fin a | Fin a, PInf =>
      match sign a with None => NaN | Some p => inf p end
  | NInf, Fin a | Fin a, NInf =>
      match sign a with None => NaN | Some p => inf (negb p) end
  end.

Definition div (x y : number F) : number F :=
  match x, y with
  | NaN, _ | _, NaN => NaN
  | Fin a, Fin b =>
      match sign b with
      | Some _ => s_number (s_div a b)
      | None => match sign a with None => NaN | Some p => inf p end
      end
  | Fin _, _ => Fin zero
  | PInf, Fin b => inf (s_leb zero b)
  | NInf, Fin b => inf (negb (s_leb zero b))
  | _, _ => NaN
  end.

(** [x <= y]; every comparison with [NaN] is false. *)
Definition le (x y : number F) : bool :=
  match x, y with
  | NaN, _ | _, NaN => false
  | NInf, _ | _, PInf => true
  | PInf, _ | _, NInf => false
  | Fin a, Fin b => s_leb a b
  end.

Definition lt (x y : number F) : bool :=
  match x, y with
  | NaN, _ | _, NaN => false
  | PInf, _ | _, NInf => false
  | NInf, _ | _, PInf => true
  | Fin a, Fin b => s_ltb a b
  end.

Definition ge (x y : number F) : bool := le y x.
Definition gt (x y : number F) : bool := lt y x.

(** [x === y] on numbers. *)
Definition strict_eq (x y : number F) : bool :=
  match x, y with
  | PInf, PInf | NInf, NInf => true
  | Fin a, Fin b => s_eqb a b
  | _, _ => false
  end.

Definition Math_max (x y : number F) : number F :=
  match x, y with
  | NaN, _ | _, NaN => NaN
  | _, _ => if le x y then y else x
  end.

Definition Math_min (x y : number F) : number F :=
  match x, y with
  | NaN, _ | _, NaN => NaN
  | _, _ => if le x y then x else y
  end.

(** [Math.round]: the nearest integer, a tie going up; the result is
    exact. *)
Definition Math_round (x : number F) : number F :=
  match x with
  | Fin a => of_Z (s_floor (s_add a (of_Q 0.5)))
  | _ => x
  end.
End Ops.

Arguments lit {F _} q%_Q.
Arguments of_Z {F _} z%_Z.

Declare Scope js_scope.
Delimit Scope js_scope with js.
Infix "+" := add : js_scope.
Infix "*" := mul : js_scope.
Infix "/" := div : js_scope.
Infix "<=?" := le : js_scope.
Infix "<?" := lt : js_scope.
Infix ">=?" := ge : js_scope.
Infix ">?" := gt : js_scope.
Infix "===" := strict_eq (at level 70) : js_scope.

End Num.
Export Num.

(* ================================================================== *)
(** * JavaScript strings, [parseInt] and the command line *)
(* ================================================================== *)

Module Str.
Open Scope string_scope.

Definition code (c : ascii) : Z := Z.of_nat (nat_of_ascii c).

(** White space and line terminators (the ASCII ones). *)
Definition is_white (c : ascii) : bool :=
  ((9 <=? code c) && (code c <=? 13) || (code c =? 32))%Z.

Definition lower (c : ascii) : ascii :=
  if ((65 <=? code c) && (code c <=? 90))%Z
  then ascii_of_nat (nat_of_ascii c + 32) else c.

Fixpoint toLowerCase (s : string) : string :=
  match s with
  | EmptyString => EmptyString
  | String c s' => String (lower c) (toLowerCase s')
  end.

Fixpoint trimStart (s : string) : string :=
  match s with
  | String c s' => if is_white c then trimStart s' else s
  | EmptyString => EmptyString
  end.

Fixpoint rev (s : string) : string :=
  match s with
  | EmptyString => EmptyString
  | String c s' => rev s' ++ String c EmptyString
  end.

Definition trimEnd (s : string) : string := rev (trimStart (rev s)).
Definition trim (s : string) : string := trimEnd (trimStart s).

Fixpoint startsWith (p s : string) : bool :=
  match p, s with
  | EmptyString, _ => true
  | String a p', String b s' => if ascii_dec a b then startsWith p' s' else false
  | String _ _, EmptyString => false
  end.

Definition endsWith (suffix s : string) : bool :=
  startsWith (rev suffix) (rev s).

Fixpoint includes (sub s : string) : bool :=
  startsWith sub s ||
  match s with
  | EmptyString => false
  | String _ s' => includes sub s'
  end.

(** [s.slice(start, end)]; a negative index counts from the end. *)
Definition slice_index (len i : Z) : Z :=
  if (i <? 0)%Z then Z.max (len + i) 0 else Z.min i len.

Definition slice (s : string) (start : Z) (stop : option Z) : string :=
  let len := Z.of_nat (String.length s) in
  let from := slice_index len start in
  let to := match stop with None => len | Some e => slice_index len e end in
  substring (Z.to_nat from) (Z.to_nat (to - from)) s.

(** [s[i]] as a string; empty when [i] is out of range. *)
Definition at_index (s : string) (i : nat) : string := substring i 1 s.

(** [s.split(c)] for a one-character separator. *)
Fixpoint split (c : ascii) (s : string) : list string :=
  match s with
  | EmptyString => [EmptyString]
  | String a s' =>
      if ascii_dec a c then EmptyString :: split c s'
      else match split c s' with
           | h :: t => String a h :: t
           | [] => [String a EmptyString]
           end
  end.

Definition nonempty (s : string) : bool :=
  match s with EmptyString => false | _ => true end.

(** ** parseInt *)

Definition digit_value (c : ascii) : option Z :=
  let n := code c in
  if ((48 <=? n) && (n <=? 57))%Z then Some (n - 48)%Z
  else if ((97 <=? n) && (n <=? 122))%Z then Some (n - 87)%Z
  else if ((65 <=? n) && (n <=? 90))%Z then Some (n - 55)%Z
  else None.

(** The value of the longest prefix of radix-[r] digits; [None] when that
    prefix is empty. *)
Fixpoint digits (r : Z) (s : string) (acc : option Z) : option Z :=
  match s with
  | String c s' =>
      match digit_value c with
      | Some d =>
          if (d <? r)%Z then digits r s' (Some (default 0 acc * r + d))%Z
          else acc
      | None => acc
      end
  | EmptyString => acc
  end.

Definition strip_sign (s : string) : bool * string :=
  match s with
  | String "-" s' => (true, s')
  | String "+" s' => (false, s')
  | _ => (false, s)
  end.

Definition strip_hex_prefix (s : string) : option string :=
  match s with
  | String "0" (String "x" s') | String "0" (String "X" s') => Some s'
  | _ => None
  end.

(** [parseInt(s, radix)] as an integer, [None] standing for [NaN]; radix 0
    is the omitted argument. *)
Definition parseInt_Z (s : string) (radix : Z) : option Z :=
  let '(negative, s1) := strip_sign (trimStart s) in
  if (negb (radix =? 0) && ((radix <? 2) || (36 <? radix)))%Z then None
  else
    let '(r, s2) :=
      if ((radix =? 0) || (radix =? 16))%Z then
        match strip_hex_prefix s1 with
        | Some s' => (16%Z, s')
        | None => ((if (radix =? 0)%Z then 10 else radix)%Z, s1)
        end
      else (radix, s1) in
    match digits r s2 None with
    | Some n => Some (if negative then - n else n)%Z
    | None => None
    end.

Definition parseInt {F} `{Scalar F} (s : string) (radix : Z) : number F :=
  match parseInt_Z s radix with
  | Some n => of_Z n
  | None => NaN
  end.

(** ** parseArgs (the same function opens every script) *)

(** The value stored under an option: the next argument, or [true]. *)
Inductive flag : Type :=
  | FlagTrue
  | FlagValue (s : string).

(** ToString of a flag, as [parseInt] and the string methods see it. *)
Definition flag_string (f : flag) : string :=
  match f with FlagTrue => "true" | FlagValue s => s end.

Definition flag_truthy (f : flag) : bool :=
  match f with FlagTrue => true | FlagValue s => nonempty s end.

Fixpoint parseArgs_loop (args : list string) (options : gmap string flag)
  : gmap string flag :=
  match args with
  | [] => options
  | arg :: rest =>
      if startsWith "--" arg then
        let key := slice arg 2 None in
        match rest with
        | value :: rest' =>
            if nonempty value && negb (startsWith "--" value)
            then parseArgs_loop rest' (<[key := FlagValue value]> options)
            else parseArgs_loop rest (<[key := FlagTrue]> options)
        | [] => <[key := FlagTrue]> options
        end
      else parseArgs_loop rest options
  end.

Definition parseArgs (argv : list string) : gmap string flag :=
  parseArgs_loop argv ∅.

(** [options.key] when it is truthy. *)
Definition opt (options : gmap string flag) (key : string) : option flag :=
  match options !! key with
  | Some f => if flag_truthy f then Some f else None
  | None => None
  end.

(** [a || b] on option values of the command line. *)
Definition or_flag (a b : option flag) : option flag :=
  match a with
  | Some f => if flag_truthy f then Some f else b
  | None => b
  end.

End Str.

(** The message a script writes to standard error before it leaves. *)
Inductive diagnostic : Type :=
  | Usage
  | InvalidJson
  | HslUnsupported
  | InvalidType
  | ErrorMessage (s : string).

(** How a script, or one of its functions, ends: with a value, with
    [process.exit(code)] after a message on standard error, or with an
    exception nobody catches (Node then prints the stack and exits with
    code 1). *)
Inductive outcome (A : Type) : Type :=
  | Done (result : A)
  | Exit (code : Z) (stderr : diagnostic)
  | Uncaught (error : string).
Arguments Done {A} result.
Arguments Exit {A} code stderr.
Arguments Uncaught {A} error.

#[global] Instance outcome_ret : MRet outcome := λ A x, Done x.
#[global] Instance outcome_bind : MBind outcome := λ A B k m,
  match m with
  | Done x => k x
  | Exit c d => Exit c d
  | Uncaught e => Uncaught e
  end.

(** A template literal: text with numbers spliced in. *)
Inductive fragment : Type :=
  | Text (s : string)
  | Value (n : number Qc).
Definition message : Type := list fragment.

#[global] Instance number_eq_dec : EqDecision (number Qc).
Proof. solve_decision. Defined.

#[global] Instance fragment_eq_dec : EqDecision fragment.
Proof. solve_decision. Defined.

(** The elements of [new Set(l)] in insertion order: the first occurrence
    of every value stays ([NaN] equals itself there). *)
Fixpoint Set_of {A} `{EqDecision A} (l : list A) : list A :=
  match l with
  | [] => []
  | x :: l' => x :: filter (λ y, y ≠ x) (Set_of l')
  end.

(* ================================================================== *)
(** * Touch target size checker (src/unnamed/part_000) *)
(* ================================================================== *)

Module TouchTarget.
Import Str.
Open Scope string_scope.
Open Scope list_scope.

Definition WCAG_MINIMUM_SIZE : number Qc := of_Z 44.
Definition RECOMMENDED_SPACING : number Qc := of_Z 8.

(** The value of [JSON.parse(options.json)], read through the four
    properties the script looks at; numeric properties hold numbers. *)
Record json_input : Type := {
  j_width : option (number Qc);
  j_height : option (number Qc);
  j_spacing : option (number Qc);
  j_element : option string
}.

Definition no_properties : json_input :=
  {| j_width := None; j_height := None; j_spacing := None; j_element := None |}.

Record dimensions : Type := {
  width : number Qc;
  height : number Qc;
  spacing : option (number Qc);
  element : string
}.

(** [a || b] where [a] is an optional number. *)
Definition or_number (a b : option (number Qc)) : option (number Qc) :=
  match a with
  | Some n => if truthy n then Some n else b
  | None => b
  end.

(** [!v] for a value that is [null] or a number. *)
Definition falsy (v : option (number Qc)) : bool :=
  match v with
  | None => true
  | Some n => negb (truthy n)
  end.

Definition isNaN_value (v : option (number Qc)) : bool :=
  match v with
  | None => false
  | Some n => isNaN n
  end.

(** [options.spacing] after the JSON step: a number of the document or the
    command-line value. *)
Inductive spacing_value : Type :=
  | SpacingNumber (n : number Qc)
  | SpacingFlag (f : flag).

(** [parseInt] of a number goes through its decimal form, which truncates
    it (exactly so between 1e-6 and 1e21 in magnitude). *)
Definition parseInt_number (n : number Qc) : number Qc :=
  match n with
  | Fin a => if Qle_bool 0 a then of_Z (Qfloor a) else of_Z (Qceiling a)
  | _ => NaN
  end.

Definition parseInt_spacing (v : spacing_value) : number Qc :=
  match v with
  | SpacingNumber n => parseInt_number n
  | SpacingFlag f => parseInt (flag_string f) 0
  end.

Definition spacing_truthy (v : spacing_value) : bool :=
  match v with
  | SpacingNumber n => truthy n
  | SpacingFlag f => flag_truthy f
  end.

Section Script.
(** [JSON.parse]; [None] when it throws or returns [null], whose first
    property access throws inside the same [try]. *)
Variable JSON_parse : string → option json_input.

Definition parse_json (f : flag) : option json_input :=
  match f with
  | FlagTrue => Some no_properties
  | FlagValue s => JSON_parse s
  end.

(** The first half of [parseDimensions]: [width], [height],
    [options.spacing] and [options.element] as they stand when the guard
    of line 67 is reached. *)
Definition read_dimensions (options : gmap string flag)
  : outcome (option (number Qc) * option (number Qc)
             * option spacing_value * option flag) :=
  let width : option (number Qc) := None in
  let height : option (number Qc) := None in
  let width :=
    match opt options "width" with
    | Some f => Some (parseInt (flag_string f) 0)
    | None => width
    end in
  let height :=
    match opt options "height" with
    | Some f => Some (parseInt (flag_string f) 0)
    | None => height
    end in
  let after_dimensions :=
    match opt options "dimensions" with
    | Some FlagTrue => Uncaught "TypeError"
    | Some (FlagValue d) =>
        if includes "x" d then
          let parts := split "x" d in
          Done (Some (parseInt (nth 0 parts "undefined") 0),
                   Some (parseInt (nth 1 parts "undefined") 0))
        else Done (width, height)
    | None => Done (width, height)
    end in
  match after_dimensions with
  | Done (width, height) =>
      let spacing0 := SpacingFlag <$> options !! "spacing" in
      let element0 := options !! "element" in
      match opt options "json" with
      | Some f =>
          match parse_json f with
          | Some jsonInput =>
              Done
                (or_number (j_width jsonInput) width,
                 or_number (j_height jsonInput) height,
                 match j_spacing jsonInput with
                 | Some n => if truthy n then Some (SpacingNumber n)
                             else spacing0
                 | None => spacing0
                 end,
                 match j_element jsonInput with
                 | Some e => if nonempty e then Some (FlagValue e)
                             else element0
                 | None => element0
                 end)
          | None => Exit 1 InvalidJson
          end
      | None => Done (width, height, spacing0, element0)
      end
  | Exit c d => Exit c d
  | Uncaught e => Uncaught e
  end.

Definition guard (width height : option (number Qc)) : bool :=
  falsy width || falsy height || isNaN_value width || isNaN_value height.

Definition parseDimensions (options : gmap string flag) : outcome dimensions :=
  match read_dimensions options with
  | Done (width, height, spacing, element) =>
      if guard width height then Exit 1 Usage
      else
        Done
          {| width := default NaN width;
             height := default NaN height;
             spacing :=
               match spacing with
               | Some v => if spacing_truthy v then Some (parseInt_spacing v)
                           else None
               | None => None
               end;
             element :=
               match element with
               | Some f => if flag_truthy f then flag_string f
                           else "interactive element"
               | None => "interactive element"
               end |}
  | Exit c d => Exit c d
  | Uncaught e => Uncaught e
  end.
End Script.

Record size_check : Type := {
  size_compliant : bool;
  minimumWidth : number Qc;
  minimumHeight : number Qc;
  actualWidth : number Qc;
  actualHeight : number Qc
}.

Definition checkSize (width height : number Qc) : size_check :=
  let meetsMinimum :=
    (width >=? WCAG_MINIMUM_SIZE)%js && (height >=? WCAG_MINIMUM_SIZE)%js in
  {| size_compliant := meetsMinimum;
     minimumWidth := WCAG_MINIMUM_SIZE;
     minimumHeight := WCAG_MINIMUM_SIZE;
     actualWidth := width;
     actualHeight := height |}.

(** [compliant] is [null] (here [None]) when the spacing is unknown. *)
Record spacing_check : Type := {
  spacing_compliant : option bool;
  recommended : number Qc;
  actual : option (number Qc)
}.

Definition checkSpacing (spacing : option (number Qc)) : spacing_check :=
  match spacing with
  | None =>
      {| spacing_compliant := None;
         recommended := RECOMMENDED_SPACING;
         actual := None |}
  | Some spacing =>
      let meetsRecommended := (spacing >=? RECOMMENDED_SPACING)%js in
      {| spacing_compliant := Some meetsRecommended;
         recommended := RECOMMENDED_SPACING;
         actual := Some spacing |}
  end.

Definition generateRecommendations (sizeCheck : size_check)
    (spacingCheck : spacing_check) : list message :=
  let recommendations : list message := [] in
  let recommendations :=
    if negb (size_compliant sizeCheck) then
      let recommendations :=
        if (actualWidth sizeCheck <? WCAG_MINIMUM_SIZE)%js
        then recommendations ++
             [[Text "Increase width to at least "; Value WCAG_MINIMUM_SIZE;
               Text "px (currently "; Value (actualWidth sizeCheck);
               Text "px)"]]
        else recommendations in
      if (actualHeight sizeCheck <? WCAG_MINIMUM_SIZE)%js
      then recommendations ++
           [[Text "Increase height to at least "; Value WCAG_MINIMUM_SIZE;
             Text "px (currently "; Value (actualHeight sizeCheck);
             Text "px)"]]
      else recommendations
    else recommendations in
  match spacing_compliant spacingCheck with
  | Some false =>
      recommendations ++
      [[Text "Ensure at least "; Value RECOMMENDED_SPACING;
        Text "px spacing between adjacent interactive elements (currently ";
        Value (default NaN (actual spacingCheck)); Text "px)"]]
  | None =>
      recommendations ++
      [[Text "Consider providing at least "; Value RECOMMENDED_SPACING;
        Text "px spacing between adjacent interactive elements"]]
  | Some true => recommendations
  end.

Record result : Type := {
  r_element : string;
  r_dimensions : number Qc * number Qc;
  r_minimumRequired : number Qc * number Qc;
  compliance_size : bool;
  compliance_spacing : option bool;
  r_recommendations : option (list message)
}.

Definition formatResult (sizeCheck : size_check) (spacingCheck : spacing_check)
    (recommendations : list message) (element : string) : result :=
  {| r_element := element;
     r_dimensions := (actualWidth sizeCheck, actualHeight sizeCheck);
     r_minimumRequired := (WCAG_MINIMUM_SIZE, WCAG_MINIMUM_SIZE);
     compliance_size := size_compliant sizeCheck;
     compliance_spacing := spacing_compliant spacingCheck;
     r_recommendations :=
       if (0 <? length recommendations)%nat then Some recommendations
       else None |}.

(** What [main] prints: the JSON document, or the report in words, which
    shows the same checks. *)
Inductive output : Type :=
  | JsonDocument (r : result)
  | Report (sizeCheck : size_check) (spacingCheck : spacing_check)
           (recommendations : list message) (element : string).

Definition main (JSON_parse : string → option json_input)
    (argv : list string) : outcome output :=
  let options := parseArgs argv in
  match parseDimensions JSON_parse options with
  | Done d =>
      let sizeCheck := checkSize (width d) (height d) in
      let spacingCheck := checkSpacing (spacing d) in
      let recommendations := generateRecommendations sizeCheck spacingCheck in
      if bool_decide (is_Some (opt options "json"))
      then Done (JsonDocument
                      (formatResult sizeCheck spacingCheck recommendations
                         (element d)))
      else Done (Report sizeCheck spacingCheck recommendations (element d))
  | Exit c d => Exit c d
  | Uncaught e => Uncaught e
  end.

(** The two compliance fields, whichever way they are printed. *)
Definition reported_size (out : output) : bool :=
  match out with
  | JsonDocument r => compliance_size r
  | Report sizeCheck _ _ _ => size_compliant sizeCheck
  end.

Definition reported_spacing (out : output) : option bool :=
  match out with
  | JsonDocument r => compliance_spacing r
  | Report _ spacingCheck _ _ => spacing_compliant spacingCheck
  end.

(** [x] is a number and is at least [minimum]. *)
Definition meets (x : number Qc) (minimum : Z) : Prop :=
  match x with
  | Fin q => (inject_Z minimum <= q)%Q
  | PInf => True
  | _ => False
  end.

(** A width or height the script cannot use: missing, not a number, or
    zero. *)
Definition unusable (v : option (number Qc)) : Prop :=
  v = None ∨ v = Some NaN ∨ v = Some (of_Z 0).

End TouchTarget.

(* ================================================================== *)
(** * Colour-blindness simulator (src/unnamed/part_001) *)
(* ================================================================== *)

Module ColorBlindness.
Import Str.
Open Scope string_scope.
Open Scope list_scope.

Definition matrix : Type := list (list Q).

Definition protanopia_matrix : matrix :=
  [[0.567; 0.433; 0.000];
   [0.558; 0.442; 0.000];
   [0.000; 0.242; 0.758]]%Q.

Definition deuteranopia_matrix : matrix :=
  [[0.625; 0.375; 0.000];
   [0.700; 0.300; 0.000];
   [0.000; 0.300; 0.700]]%Q.

Definition tritanopia_matrix : matrix :=
  [[0.950; 0.050; 0.000];
   [0.000; 0.433; 0.567];
   [0.000; 0.475; 0.525]]%Q.

(** What [TRANSFORMATION_MATRICES[key]] evaluates to: one of the three
    matrices, a member inherited from [Object.prototype], or [undefined]. *)
Inductive property : Type :=
  | Matrix (m : matrix)
  | Inherited
  | Undefined.

Definition object_prototype_keys : list string :=
  ["constructor"; "hasOwnProperty"; "isPrototypeOf"; "propertyIsEnumerable";
   "toLocaleString"; "toString"; "valueOf"; "__proto__";
   "__defineGetter__"; "__defineSetter__"; "__lookupGetter__";
   "__lookupSetter__"].

Definition TRANSFORMATION_MATRICES (key : string) : property :=
  if String.eqb key "protanopia" then Matrix protanopia_matrix
  else if String.eqb key "deuteranopia" then Matrix deuteranopia_matrix
  else if String.eqb key "tritanopia" then Matrix tritanopia_matrix
  else if existsb (String.eqb key) object_prototype_keys then Inherited
  else Undefined.

Record rgb : Type := { r : number Qc; g : number Qc; b : number Qc }.

(** [parseColor] on a string that is not empty. *)
Definition parseColor_string (color : string) : option rgb :=
  let color := toLowerCase (trim color) in
  let hex_result :=
    if startsWith "#" color then
      let hex := slice color 1 None in
      if (String.length hex =? 3)%nat then
        Some {| r := parseInt (at_index hex 0 ++ at_index hex 0)%string 16;
                g := parseInt (at_index hex 1 ++ at_index hex 1)%string 16;
                b := parseInt (at_index hex 2 ++ at_index hex 2)%string 16 |}
      else if (String.length hex =? 6)%nat then
        Some {| r := parseInt (slice hex 0 (Some 2%Z)) 16;
                g := parseInt (slice hex 2 (Some 4%Z)) 16;
                b := parseInt (slice hex 4 (Some 6%Z)) 16 |}
      else None
    else None in
  match hex_result with
  | Some c => Some c
  | None =>
      if startsWith "rgb(" color && endsWith ")" color then
        let values :=
          map (λ v, parseInt (trim v) 0)
              (split "," (slice color 4 (Some (-1)%Z))) in
        match values with
        | [v0; v1; v2] => Some {| r := v0; g := v1; b := v2 |}
        | _ => None
        end
      else None
  end.

(** [parseColor(color)]: [undefined] and the empty string give [null];
    the boolean [true] of a flag without a value has no [trim] method. *)
Definition parseColor (color : option flag) : outcome (option rgb) :=
  match color with
  | None => Done None
  | Some FlagTrue => Uncaught "TypeError"
  | Some (FlagValue s) =>
      if nonempty s then Done (parseColor_string s) else Done None
  end.

Definition rgbToLms (r g b : number Qc)
  : number Qc * number Qc * number Qc :=
  let rNorm := (r / of_Z 255)%js in
  let gNorm := (g / of_Z 255)%js in
  let bNorm := (b / of_Z 255)%js in
  let L := (lit 17.8824 * rNorm + lit 43.5161 * gNorm + lit 4.11935 * bNorm)%js in
  let M := (lit 3.45565 * rNorm + lit 27.1554 * gNorm + lit 3.86714 * bNorm)%js in
  let S := (lit 0.0299566 * rNorm + lit 0.184309 * gNorm + lit 1.46709 * bNorm)%js in
  (L, M, S).

(** The first three statements of [lmsToRgb]: the channels before they
    are clamped. *)
Definition unclamped (L M S : number Qc)
  : number Qc * number Qc * number Qc :=
  let r := (lit 0.0809444479 * L + lit (-0.130504409) * M + lit 0.116721066 * S)%js in
  let g := (lit (-0.0102485335) * L + lit 0.0540193266 * M + lit (-0.113614708) * S)%js in
  let b := (lit (-0.000365296938) * L + lit (-0.00412161469) * M + lit 0.693511405 * S)%js in
  (r, g, b).

Definition lmsToRgb (L M S : number Qc) : rgb :=
  let '(r, g, b) := unclamped L M S in
  let r := Math_max (of_Z 0) (Math_min (of_Z 1) r) in
  let g := Math_max (of_Z 0) (Math_min (of_Z 1) g) in
  let b := Math_max (of_Z 0) (Math_min (of_Z 1) b) in
  {| r := Math_round (r * of_Z 255)%js;
     g := Math_round (g * of_Z 255)%js;
     b := Math_round (b * of_Z 255)%js |}.

(** [matrix[i][j]] of one of the three tables. *)
Definition entry (m : matrix) (i j : nat) : number Qc :=
  lit (nth j (nth i m []) 0%Q).

(** The error a [throw] raises, or the value returned. *)
Definition simulateColorBlindness (color : rgb) (type : string)
  : string + rgb :=
  match TRANSFORMATION_MATRICES type with
  | Undefined => inl ("Unknown color blindness type: " ++ type)%string
  | Inherited => inl "TypeError"
  | Matrix matrix =>
      let lms := rgbToLms (r color) (g color) (b color) in
      let L := fst (fst lms) in
      let M := snd (fst lms) in
      let S := snd lms in
      let newL := (entry matrix 0 0 * L + entry matrix 0 1 * M + entry matrix 0 2 * S)%js in
      let newM := (entry matrix 1 0 * L + entry matrix 1 1 * M + entry matrix 1 2 * S)%js in
      let newS := (entry matrix 2 0 * L + entry matrix 2 1 * M + entry matrix 2 2 * S)%js in
      inr (lmsToRgb newL newM newS)
  end.

Definition getDescription (type : string) : string :=
  if String.eqb type "protanopia"
  then "Red-blind (missing red cones) - affects ~2% of males"
  else if String.eqb type "deuteranopia"
  then "Green-blind (missing green cones) - affects ~6% of males"
  else if String.eqb type "tritanopia"
  then "Blue-blind (missing blue cones) - affects ~0.003% of population"
  else "Unknown color blindness type".

(** [JSON.parse(options.json)] read through [color] and [type]. *)
Record json_input : Type := {
  j_color : option string;
  j_type : option string
}.

(** The computed result [main] prints, as JSON or in words. *)
Record result : Type := {
  original : rgb;
  simulated : rgb;
  r_type : string;
  description : string
}.

Definition main (JSON_parse : string → option json_input)
    (argv : list string) : outcome result :=
  let options := parseArgs argv in
  let after_json :=
    match opt options "json" with
    | Some FlagTrue => Done (None, None)
    | Some (FlagValue s) =>
        match JSON_parse s with
        | Some jsonInput =>
            Done (FlagValue <$> j_color jsonInput,
                     FlagValue <$> j_type jsonInput)
        | None => Exit 1 InvalidJson
        end
    | None => Done (options !! "color", options !! "type")
    end in
  match after_json with
  | Done (options_color, options_type) =>
      match parseColor options_color with
      | Done None => Exit 1 Usage
      | Done (Some color) =>
          match options_type with
          | None => Exit 1 InvalidType
          | Some type =>
              if negb (flag_truthy type) then Exit 1 InvalidType
              else
                match TRANSFORMATION_MATRICES (flag_string type) with
                | Undefined => Exit 1 InvalidType
                | _ =>
                    match simulateColorBlindness color (flag_string type) with
                    | inr simulatedColor =>
                        Done {| original := color;
                                   simulated := simulatedColor;
                                   r_type := flag_string type;
                                   description :=
                                     getDescription (flag_string type) |}
                    | inl error => Exit 1 (ErrorMessage error)
                    end
                end
          end
      | Exit c d => Exit c d
      | Uncaught e => Uncaught e
      end
  | Exit c d => Exit c d
  | Uncaught e => Uncaught e
  end.

Definition known_types : list string :=
  ["protanopia"; "deuteranopia"; "tritanopia"].

(** A value clamped to [0,1]. *)
Definition clamp (x : Q) : Q :=
  if Qle_bool x 0 then 0%Q else if Qle_bool 1 x then 1%Q else x.

(** [channel x z]: the integer [z], between 0 and 255, is [x] clamped to
    [0,1], scaled by 255 and rounded to the nearest integer; 2^-44 bounds
    the rounding of the product. *)
Definition channel (x : Qc) (z : Z) : Prop :=
  (0 <= z <= 255)%Z
  ∧ (Qabs (inject_Z z - 255 * clamp x) <= (1 # 2) + 2 ^ (-44))%Q.

End ColorBlindness.

(* ================================================================== *)
(** * Contrast ratio calculator (src/unnamed/part_002) *)
(* ================================================================== *)

Module Contrast.
Import Str.
Open Scope string_scope.
Open Scope list_scope.

Record rgb : Type := { r : number R; g : number R; b : number R }.

(** [parseColor] on a string that is not empty; [Exit] is the
    [process.exit(1)] of the HSL branch. *)
Definition parseColor_string (color : string) : outcome (option rgb) :=
  let color := toLowerCase (trim color) in
  let hex_result :=
    if startsWith "#" color then
      let hex := slice color 1 None in
      if (String.length hex =? 3)%nat then
        Some {| r := parseInt (at_index hex 0 ++ at_index hex 0)%string 16;
                g := parseInt (at_index hex 1 ++ at_index hex 1)%string 16;
                b := parseInt (at_index hex 2 ++ at_index hex 2)%string 16 |}
      else if (String.length hex =? 6)%nat then
        Some {| r := parseInt (slice hex 0 (Some 2%Z)) 16;
                g := parseInt (slice hex 2 (Some 4%Z)) 16;
                b := parseInt (slice hex 4 (Some 6%Z)) 16 |}
      else None
    else None in
  match hex_result with
  | Some c => Done (Some c)
  | None =>
      let rgb_result :=
        if startsWith "rgb(" color && endsWith ")" color then
          let values :=
            map (λ v, parseInt (trim v) 0)
                (split "," (slice color 4 (Some (-1)%Z))) in
          match values with
          | [v0; v1; v2] => Some {| r := v0; g := v1; b := v2 |}
          | _ => None
          end
        else None in
      match rgb_result with
      | Some c => Done (Some c)
      | None =>
          if startsWith "hsl(" color && endsWith ")" color
          then Exit 1 HslUnsupported
          else Done None
      end
  end.

Definition parseColor (color : option flag) : outcome (option rgb) :=
  match color with
  | None => Done None
  | Some FlagTrue => Uncaught "TypeError"
  | Some (FlagValue s) =>
      if nonempty s then parseColor_string s else Done None
  end.

(** [Math.pow(x, y)] for an exponent that is positive and not an integer,
    as 2.4 is. *)
Definition Math_pow (x : number R) (y : R) : number R :=
  match x with
  | NaN => NaN
  | PInf | NInf => PInf
  | Fin a =>
      if Rlt_dec 0 a then Fin (Rpower a y)
      else if Req_dec_T a 0 then Fin 0%R
      else NaN
  end.

Definition toLinear (value : number R) : number R :=
  let v := (value / of_Z 255)%js in
  if (v <=? lit 0.03928)%js then (v / lit 12.92)%js
  else Math_pow ((v + lit 0.055) / lit 1.055)%js 2.4.

Definition getRelativeLuminance (color : rgb) : number R :=
  let rLinear := toLinear (r color) in
  let gLinear := toLinear (g color) in
  let bLinear := toLinear (b color) in
  (lit 0.2126 * rLinear + lit 0.7152 * gLinear + lit 0.0722 * bLinear)%js.

Definition getContrastRatio (color1 color2 : rgb) : number R :=
  let lum1 := getRelativeLuminance color1 in
  let lum2 := getRelativeLuminance color2 in
  let lighter := Math_max lum1 lum2 in
  let darker := Math_min lum1 lum2 in
  ((lighter + lit 0.05) / (darker + lit 0.05))%js.

Record levels : Type := { normal : bool; large : bool }.

(** The object [checkCompliance] returns: two booleans for non-text
    contrast, two pairs of booleans for text. *)
Inductive compliance : Type :=
  | NonText (AA AAA : bool)
  | ForText (AA AAA : levels).

Definition checkCompliance (ratio : number R) (type : string) : compliance :=
  let roundedRatio := (Math_round (ratio * of_Z 100) / of_Z 100)%js in
  if String.eqb type "non-text" then
    NonText (roundedRatio >=? lit 3.0)%js (roundedRatio >=? lit 3.0)%js
  else
    ForText
      {| normal := (roundedRatio >=? lit 4.5)%js;
         large := (roundedRatio >=? lit 3.0)%js |}
      {| normal := (roundedRatio >=? lit 7.0)%js;
         large := (roundedRatio >=? lit 4.5)%js |}.

(** [JSON.parse(options.json)] read through its three properties. *)
Record json_input : Type := {
  j_foreground : option string;
  j_background : option string;
  j_type : option string
}.

(** The computed result [main] prints, as JSON or in words. *)
Record result : Type := {
  contrastRatio : number R;
  r_compliance : compliance;
  foreground : rgb;
  background : rgb
}.

Definition main (JSON_parse : string → option json_input)
    (argv : list string) : outcome result :=
  let options := parseArgs argv in
  let after_json :=
    match opt options "json" with
    | Some FlagTrue => Done (None, None, Some (FlagValue "text"))
    | Some (FlagValue s) =>
        match JSON_parse s with
        | Some jsonInput =>
            Done (FlagValue <$> j_foreground jsonInput,
                     FlagValue <$> j_background jsonInput,
                     or_flag (FlagValue <$> j_type jsonInput)
                             (Some (FlagValue "text")))
        | None => Exit 1 InvalidJson
        end
    | None =>
        Done (options !! "foreground", options !! "background",
                 options !! "type")
    end in
  match after_json with
  | Done (options_foreground, options_background, options_type) =>
      match parseColor (or_flag options_foreground (options !! "fg")) with
      | Done fgColor =>
          match parseColor (or_flag options_background (options !! "bg")) with
          | Done bgColor =>
              match fgColor, bgColor with
              | Some fgColor, Some bgColor =>
                  let type :=
                    flag_string
                      (default (FlagValue "text")
                         (or_flag options_type (Some (FlagValue "text")))) in
                  let ratio := getContrastRatio fgColor bgColor in
                  let compliance := checkCompliance ratio type in
                  Done
                    {| contrastRatio :=
                         (Math_round (ratio * of_Z 100) / of_Z 100)%js;
                       r_compliance := compliance;
                       foreground := fgColor;
                       background := bgColor |}
              | _, _ => Exit 1 Usage
              end
          | Exit c d => Exit c d
          | Uncaught e => Uncaught e
          end
      | Exit c d => Exit c d
      | Uncaught e => Uncaught e
      end
  | Exit c d => Exit c d
  | Uncaught e => Uncaught e
  end.

(** The colour with the integer channels [r], [g] and [b]. *)
Definition color (r g b : Z) : rgb :=
  {| r := of_Z r; g := of_Z g; b := of_Z b |}.

Definition black : rgb := color 0 0 0.
Definition white : rgb := color 255 255 255.

(** The colours of the data model: integer channels from 0 to 255. *)
Definition valid (c : rgb) : Prop :=
  ∃ r g b : Z,
    c = color r g b
    ∧ (0 <= r <= 255)%Z ∧ (0 <= g <= 255)%Z ∧ (0 <= b <= 255)%Z.

(** The linear value of a channel [v] between 0 and 1, and the relative
    luminance of integer channels, as real numbers. *)
Definition linear (v : R) : R :=
  if Rle_dec v 0.03928 then (v / 12.92)%R
  else Rpower ((v + 0.055) / 1.055) 2.4.

Definition luminance (r g b : Z) : R :=
  (0.2126 * linear (IZR r / 255) + 0.7152 * linear (IZR g / 255)
   + 0.0722 * linear (IZR b / 255))%R.

End Contrast.

(* ================================================================== *)
(** * Skill metadata build (src/unnamed/part_003) *)
(* ================================================================== *)

Module Build.
Import Str.
Open Scope string_scope.
Open Scope list_scope.

Record skill : Type := {
  name : string;
  description : string;
  directory : string;
  path : string
}.

Record entry : Type := {
  e_description : string;
  e_directory : string;
  category : string
}.

Definition toolSuffixes : list string :=
  ["-focus"; "-test"; "-size"; "-contrast"; "-blindness"; "-target-size"].

(** The [if] chain of the reducer, which fills [category]. *)
Definition category_of (name : string) : string :=
  let isTool := existsb (λ suffix, endsWith suffix name) toolSuffixes in
  if isTool then "tools"
  else if includes "-deep" name then "deep"
  else if startsWith "wcag-" name then "router"
  else "other".

(** One step of [skills.reduce]: [acc[skill.name] = {...}].  Assigning an
    object to [__proto__] replaces the prototype and adds no property. *)
Definition reducer (acc : gmap string entry) (skill : skill)
  : gmap string entry :=
  let category := category_of (name skill) in
  if String.eqb (name skill) "__proto__" then acc
  else <[name skill :=
           {| e_description := description skill;
              e_directory := directory skill;
              category := category |}]> acc.

Record config : Type := {
  version : string;
  lastUpdated : string;
  repository : string;
  totalSkills : nat;
  skills : gmap string entry
}.

(** The object written to config/skills.json; [now] is the time stamp. *)
Definition generateSkillsConfig (now : string) (skills : list skill) : config :=
  {| version := "1.0.0";
     lastUpdated := now;
     repository := "agent-skills-wcag";
     totalSkills := length skills;
     skills := foldl reducer ∅ skills |}.

(** A name ends in one of the tool suffixes. *)
Definition is_tool (name : string) : bool :=
  existsb (λ suffix, endsWith suffix name) toolSuffixes.

(** Every entry of the map carries the category of its own key. *)
Definition categorized (acc : gmap string entry) : Prop :=
  ∀ name e, acc !! name = Some e → category e = category_of name.

(** A skill whose name has no tool suffix, no "-deep" and no "wcag-"
    prefix. *)
Definition aria_basics : skill :=
  {| name := "aria-basics"; description := "ARIA roles and states";
     directory := "aria-basics"; path := "skills/aria-basics/SKILL.md" |}.

End Build.

(* ================================================================== *)
(** * Focus order validator
      (src/skills/wcag-audit-operable-keyboard-focus/scripts/validate.js) *)
(* ================================================================== *)

Module FocusOrder.
Import Str.
Open Scope string_scope.
Open Scope list_scope.

(** [JSON.parse(options.json)] read through the properties the script
    uses; the arrays hold strings and numbers. *)
Record json_input : Type := {
  j_elements : option (list string);
  j_tabOrder : option (list (number Qc));
  j_tab_order : option (list (number Qc));
  j_expectedOrder : option (list (number Qc));
  j_expected_order : option (list (number Qc))
}.

Definition no_properties : json_input :=
  {| j_elements := None; j_tabOrder := None; j_tab_order := None;
     j_expectedOrder := None; j_expected_order := None |}.

Record input : Type := {
  elements : list string;
  tabOrder : list (number Qc);
  expectedOrder : option (list (number Qc))
}.

(** [a || b] on arrays: an array, even empty, is truthy. *)
Definition or_array {A} (a : option A) (b : A) : A := default b a.

(** [f.split(',')]; the boolean [true] has no such method. *)
Definition split_flag (f : flag) : outcome (list string) :=
  match f with
  | FlagTrue => Uncaught "TypeError"
  | FlagValue s => Done (split "," s)
  end.

Definition parseInput (JSON_parse : string → option json_input)
    (options : gmap string flag) : outcome input :=
  elements ←
    match opt options "elements" with
    | Some f => parts ← split_flag f; mret (map trim parts)
    | None => mret []
    end;
  tabOrder ←
    match or_flag (opt options "tabOrder") (opt options "tab-order") with
    | Some tabOrderStr =>
        parts ← split_flag tabOrderStr;
        mret (map (λ t, parseInt (trim t) 0) parts)
    | None => mret []
    end;
  expectedOrder ←
    match opt options "expected" with
    | Some f =>
        parts ← split_flag f;
        mret (Some (map (λ e, parseInt (trim e) 0) parts))
    | None => mret None
    end;
  '(elements, tabOrder, expectedOrder) ←
    match opt options "json" with
    | Some f =>
        match (match f with
               | FlagTrue => Some no_properties
               | FlagValue s => JSON_parse s
               end) with
        | Some jsonInput =>
            mret (or_array (j_elements jsonInput) elements,
                  or_array (j_tabOrder jsonInput)
                    (or_array (j_tab_order jsonInput) tabOrder),
                  match j_expectedOrder jsonInput with
                  | Some e => Some e
                  | None =>
                      match j_expected_order jsonInput with
                      | Some e => Some e
                      | None => expectedOrder
                      end
                  end)
        | None => Exit 1 InvalidJson
        end
    | None => mret (elements, tabOrder, expectedOrder)
    end;
  if (length elements =? 0)%nat || (length tabOrder =? 0)%nat
  then Exit 1 Usage
  else mret {| elements := elements; tabOrder := tabOrder;
               expectedOrder := expectedOrder |}.

(** Categorize element types for logical analysis. *)
Definition getElementType (element : string) : string :=
  let el := toLowerCase element in
  if includes "header" el || includes "h1" el || includes "logo" el then "header"
  else if includes "nav" el || includes "menu" el || includes "navigation" el then "nav"
  else if includes "main" el || includes "content" el || includes "article" el then "main"
  else if includes "button" el || includes "btn" el || includes "submit" el then "button"
  else if includes "input" el || includes "form" el || includes "field" el then "input"
  else if includes "footer" el || includes "bottom" el then "footer"
  else if includes "link" el || includes "a href" el then "link"
  else "other".

(** [l.indexOf(x)], [None] standing for -1. *)
Fixpoint indexOf (l : list string) (x : string) : option nat :=
  match l with
  | [] => None
  | y :: l' => if String.eqb y x then Some 0%nat else S <$> indexOf l' x
  end.

(** [l[i]] as a number compared with [<] and [>]: [undefined] behaves
    as [NaN] there. *)
Definition at_number (l : list (number Qc)) (i : nat) : number Qc :=
  default NaN (l !! i).

(** What [JSON.stringify] writes for a number: [null] unless finite. *)
Definition JSON_number (n : number Qc) : option Qc :=
  match n with Fin q => Some q | _ => None end.

Definition duplicate_issue : message :=
  [Text "Duplicate tab indices detected - may cause focus traps"].

Record validation : Type := {
  logical : bool;
  complete : bool;
  issues : list message;
  recommendations : list message
}.

Definition validateLogicalOrder (elements : list string)
    (tabOrder : list (number Qc)) (expectedOrder : option (list (number Qc)))
  : validation :=
  let issues : list message := [] in
  let recommendations : list message := [] in
  let '(issues, recommendations) :=
    match expectedOrder with
    | Some expectedOrder =>
        let tabOrderMatches :=
          bool_decide (map JSON_number tabOrder = map JSON_number expectedOrder) in
        if negb tabOrderMatches
        then (issues ++ [[Text "Tab order does not match expected logical sequence"]],
              recommendations ++ [[Text "Adjust tab order to match expected reading sequence"]])
        else (issues, recommendations)
    | None => (issues, recommendations)
    end in
  let elementTypes := map (λ el, getElementType (toLowerCase el)) elements in
  let headerIndex := indexOf elementTypes "header" in
  let mainIndex := indexOf elementTypes "main" in
  let '(issues, recommendations) :=
    match headerIndex, mainIndex with
    | Some h, Some m =>
        if (at_number tabOrder h >? at_number tabOrder m)%js
        then (issues ++ [[Text "Header appears after main content in tab order"]],
              recommendations ++ [[Text "Move header/navigation before main content"]])
        else (issues, recommendations)
    | _, _ => (issues, recommendations)
    end in
  let footerIndex := indexOf elementTypes "footer" in
  let '(issues, recommendations) :=
    match footerIndex, mainIndex with
    | Some f, Some m =>
        if (at_number tabOrder f <? at_number tabOrder m)%js
        then (issues ++ [[Text "Footer appears before main content in tab order"]],
              recommendations ++ [[Text "Move main content before footer"]])
        else (issues, recommendations)
    | _, _ => (issues, recommendations)
    end in
  let uniqueIndices := Set_of tabOrder in
  let '(issues, recommendations) :=
    if negb (length uniqueIndices =? length tabOrder)%nat
    then (issues ++ [duplicate_issue],
          recommendations ++ [[Text "Ensure each interactive element has a unique tab index"]])
    else (issues, recommendations) in
  let navigationElements :=
    length (filter (λ type, type = "nav") elementTypes) in
  let recommendations :=
    if (1 <? navigationElements)%nat
    then recommendations ++ [[Text "Consider providing skip links for multiple navigation sections"]]
    else recommendations in
  {| logical := (length issues =? 0)%nat;
     complete := (length elements =? length tabOrder)%nat;
     issues := issues;
     recommendations := recommendations |}.

(** [[...l].sort((a, b) => a - b)] for a list of numbers none of which is
    [NaN]: insertion into ascending order. *)
Fixpoint insert_sorted (x : number Qc) (l : list (number Qc)) : list (number Qc) :=
  match l with
  | [] => [x]
  | y :: l' => if (x <=? y)%js then x :: l else y :: insert_sorted x l'
  end.

Definition sort (l : list (number Qc)) : list (number Qc) :=
  foldr insert_sorted [] l.

(** [sortedOrder.some((val, index) => index > 0 && val !== prev + 1)]. *)
Fixpoint has_gaps (sortedOrder : list (number Qc)) : bool :=
  match sortedOrder with
  | prev :: (val :: _) as rest =>
      negb (val === prev + of_Z 1)%js || has_gaps rest
  | _ => false
  end.

Definition checkCompleteness (elements : list string) (tabOrder : list (number Qc))
  : list message * list message :=
  let issues : list message := [] in
  let recommendations : list message := [] in
  let '(issues, recommendations) :=
    if negb (length elements =? length tabOrder)%nat
    then (issues ++ [[Text "Tab order length (";
                      Value (of_Z (Z.of_nat (length tabOrder)));
                      Text ") doesn't match element count (";
                      Value (of_Z (Z.of_nat (length elements)));
                      Text ")"]],
          recommendations ++ [[Text "Ensure all interactive elements are included in tab order"]])
    else (issues, recommendations) in
  let sortedOrder := sort tabOrder in
  let hasGaps := has_gaps sortedOrder in
  let recommendations :=
    if hasGaps
    then recommendations ++ [[Text "Consider using sequential tab indices for better predictability"]]
    else recommendations in
  (issues, recommendations).

(** The validation [main] prints, as JSON or in words. *)
Definition main (JSON_parse : string → option json_input)
    (argv : list string) : outcome validation :=
  let options := parseArgs argv in
  match parseInput JSON_parse options with
  | Done i =>
      let logicalValidation :=
        validateLogicalOrder (elements i) (tabOrder i) (expectedOrder i) in
      let completenessCheck := checkCompleteness (elements i) (tabOrder i) in
      Done
        {| logical := logical logicalValidation;
           complete := complete logicalValidation
                       && (length (fst completenessCheck) =? 0)%nat;
           issues := issues logicalValidation ++ fst completenessCheck;
           recommendations :=
             recommendations logicalValidation ++ snd completenessCheck |}
  | Exit c d => Exit c d
  | Uncaught e => Uncaught e
  end.

End FocusOrder.

(* ================================================================== *)
(** * Font size converter
      (src/skills/wcag-audit-perceivable-text-size/scripts/convert.js) *)
(* ================================================================== *)

Module FontSize.
Import Str.
Open Scope string_scope.
Open Scope list_scope.

Definition WCAG_MINIMUM_BODY_TEXT : number Qc := of_Z 14.
Definition WCAG_MINIMUM_HEADINGS : number Qc := of_Z 18.
Definition DEFAULT_BASE_FONT : number Qc := of_Z 16.
Definition PT_TO_PX_RATIO : number Qc := lit 1.333.

Record font_size : Type := { value : number Qc; unit : string }.

Definition is_digit (c : ascii) : bool :=
  ((48 <=? code c) && (code c <=? 57))%Z.

(** The longest prefix of decimal digits, and what follows it. *)
Fixpoint span_digits (s : string) : string * string :=
  match s with
  | String c s' =>
      if is_digit c
      then let '(d, rest) := span_digits s' in (String c d, rest)
      else (EmptyString, s)
  | EmptyString => (EmptyString, EmptyString)
  end.

(** [parseFloat] of the text the first group matched: digits, then
    perhaps a point and more digits; the decimal is rounded to binary64. *)
Definition decimal_value (whole fraction : string) : number Qc :=
  let n := default 0%Z (digits 10 whole None) in
  let f := default 0%Z (digits 10 fraction None) in
  binary64 (inject_Z n + (f # Pos.pow 10 (Pos.of_nat (String.length fraction))))%Q.

(** [input.match(/^(\d+(?:\.\d+)?)\s*(px|pt|em|rem)?$/i)] followed by the
    reading of the two groups. *)
Definition parseFontSize_string (input : string) : option font_size :=
  let '(whole, rest) := span_digits input in
  if negb (nonempty whole) then None
  else
    let '(fraction, rest) :=
      match rest with
      | String "." rest' =>
          let '(fraction, rest'') := span_digits rest' in
          if nonempty fraction then (fraction, rest'') else (EmptyString, rest)
      | _ => (EmptyString, rest)
      end in
    let value :=
      if nonempty fraction then decimal_value whole fraction
      else binary64 (inject_Z (default 0%Z (digits 10 whole None))) in
    let rest := toLowerCase (trimStart rest) in
    if negb (nonempty rest) then Some {| value := value; unit := "px" |}
    else if existsb (String.eqb rest) ["px"; "pt"; "em"; "rem"]
    then Some {| value := value; unit := rest |}
    else None.

(** [parseFontSize(input)]; the boolean [true] has no [match] method. *)
Definition parseFontSize (input : option flag) : outcome (option font_size) :=
  match input with
  | None => Done None
  | Some FlagTrue => Uncaught "TypeError"
  | Some (FlagValue s) =>
      if nonempty s then Done (parseFontSize_string s) else Done None
  end.

(** Convert font size to pixels (base unit). *)
Definition toPixels (value : number Qc) (unit : string)
    (baseFontSize : number Qc) : number Qc :=
  if String.eqb unit "px" then value
  else if String.eqb unit "pt" then (value * PT_TO_PX_RATIO)%js
  else if String.eqb unit "em" || String.eqb unit "rem"
  then (value * baseFontSize)%js
  else value.

(** Convert from pixels to target unit. *)
Definition fromPixels (pxValue : number Qc) (targetUnit : string)
    (baseFontSize : number Qc) : number Qc :=
  if String.eqb targetUnit "px" then pxValue
  else if String.eqb targetUnit "pt" then (pxValue / PT_TO_PX_RATIO)%js
  else if String.eqb targetUnit "em" || String.eqb targetUnit "rem"
  then (pxValue / baseFontSize)%js
  else pxValue.

(** The number and the unit [formatValue] joins. *)
Definition formatValue (value : number Qc) (unit : string) : message :=
  let rounded :=
    if String.eqb unit "px" then Math_round value
    else (Math_round (value * of_Z 1000) / of_Z 1000)%js in
  [Value rounded; Text unit].

Record accessibility : Type := {
  meetsMinimum : bool;
  minimumRequired : number Qc;
  a_recommendations : list message
}.

Definition checkAccessibility (pxValue : number Qc) (context : string)
  : accessibility :=
  let minimum :=
    if String.eqb context "heading" then WCAG_MINIMUM_HEADINGS
    else WCAG_MINIMUM_BODY_TEXT in
  let meetsMinimum := (pxValue >=? minimum)%js in
  let recommendations : list message :=
    if negb meetsMinimum then
      let recommendedPx := minimum in
      [[Text "Increase to at least "; Value recommendedPx; Text "px ("]
         ++ formatValue (fromPixels recommendedPx "pt" DEFAULT_BASE_FONT) "pt"
         ++ [Text ") for ";
             Text (if String.eqb context "heading" then "headings"
                   else "readable body text")]]
    else [] in
  {| meetsMinimum := meetsMinimum;
     minimumRequired := minimum;
     a_recommendations := recommendations |}.

(** [JSON.parse(options.json)] read through its four properties. *)
Record json_input : Type := {
  j_from : option string;
  j_to : option string;
  j_baseFontSize : option (number Qc);
  j_context : option string
}.

Definition no_properties : json_input :=
  {| j_from := None; j_to := None; j_baseFontSize := None; j_context := None |}.

Record parsed_input : Type := {
  input : font_size;
  targetUnit : string;
  baseFontSize : number Qc;
  context : string;
  accessibilityCheck : bool
}.

(** [f.toLowerCase()]; the boolean [true] has no such method. *)
Definition lower_flag (f : flag) : outcome string :=
  match f with
  | FlagTrue => Uncaught "TypeError"
  | FlagValue s => Done (toLowerCase s)
  end.

Definition truthy_string (s : option string) : option string :=
  match s with
  | Some s => if nonempty s then Some s else None
  | None => None
  end.

Definition parseInput (JSON_parse : string → option json_input)
    (options : gmap string flag) : outcome parsed_input :=
  input ←
    match opt options "from" with
    | Some f => parseFontSize (Some f)
    | None =>
        match opt options "value" with
        | Some f => parseFontSize (Some f)
        | None => mret None
        end
    end;
  targetUnit ←
    match opt options "to" with
    | Some f => lower_flag f
    | None => mret "px"
    end;
  baseFontSize ←
    match or_flag (opt options "baseFont") (opt options "base-font") with
    | Some f =>
        baseInput ← parseFontSize (Some f);
        match baseInput with
        | Some baseInput =>
            mret (toPixels (value baseInput) (unit baseInput) DEFAULT_BASE_FONT)
        | None => mret DEFAULT_BASE_FONT
        end
    | None => mret DEFAULT_BASE_FONT
    end;
  context ←
    match opt options "context" with
    | Some f => lower_flag f
    | None => mret "body"
    end;
  '(input, targetUnit, baseFontSize, context) ←
    match opt options "json" with
    | Some f =>
        match (match f with
               | FlagTrue => Some no_properties
               | FlagValue s => JSON_parse s
               end) with
        | Some jsonInput =>
            mret (match truthy_string (j_from jsonInput) with
                  | Some s => parseFontSize_string s
                  | None => input
                  end,
                  match truthy_string (j_to jsonInput) with
                  | Some s => toLowerCase s
                  | None => targetUnit
                  end,
                  match j_baseFontSize jsonInput with
                  | Some n => if truthy n then n else baseFontSize
                  | None => baseFontSize
                  end,
                  match truthy_string (j_context jsonInput) with
                  | Some s => toLowerCase s
                  | None => context
                  end)
        | None => Exit 1 InvalidJson
        end
    | None => mret (input, targetUnit, baseFontSize, context)
    end;
  match input with
  | None => Exit 1 Usage
  | Some input =>
      mret {| input := input;
              targetUnit := targetUnit;
              baseFontSize := baseFontSize;
              context := context;
              accessibilityCheck :=
                bool_decide (is_Some (or_flag (opt options "accessibilityCheck")
                                              (opt options "accessibility-check"))) |}
  end.

Record conversion : Type := {
  inputValue : number Qc;
  inputUnit : string;
  outputValue : number Qc;
  outputUnit : string;
  pxValue : number Qc;
  c_baseFontSize : number Qc
}.

Definition performConversion (input : font_size) (targetUnit : string)
    (baseFontSize : number Qc) : conversion :=
  let pxValue := toPixels (value input) (unit input) baseFontSize in
  let convertedValue := fromPixels pxValue targetUnit baseFontSize in
  {| inputValue := value input;
     inputUnit := unit input;
     outputValue := convertedValue;
     outputUnit := targetUnit;
     pxValue := pxValue;
     c_baseFontSize := baseFontSize |}.

(** The conversion and the optional check [main] prints. *)
Definition main (JSON_parse : string → option json_input)
    (argv : list string) : outcome (conversion * option accessibility) :=
  let options := parseArgs argv in
  i ← parseInput JSON_parse options;
  let conversion := performConversion (input i) (targetUnit i) (baseFontSize i) in
  let accessibility :=
    if accessibilityCheck i
    then Some (checkAccessibility (pxValue conversion) (context i))
    else None in
  mret (conversion, accessibility).

Definition units : list string := ["px"; "pt"; "em"; "rem"].

(** The pixels one [unit] stands for: the number [toPixels] multiplies by
    and [fromPixels] divides by, and 1 where they return their argument. *)
Definition factor (unit : string) (baseFontSize : number Qc) : number Qc :=
  if String.eqb unit "pt" then PT_TO_PX_RATIO
  else if String.eqb unit "em" || String.eqb unit "rem" then baseFontSize
  else of_Z 1.

(** Converting [v] from unit [u] to unit [t] and the result back to [u],
    both with the base font size [base]. *)
Definition round_trip (v : number Qc) (u t : string) (base : number Qc)
  : number Qc :=
  let there := performConversion {| value := v; unit := u |} t base in
  let back :=
    performConversion {| value := outputValue there; unit := t |} u base in
  outputValue back.

End FontSize.

(* ================================================================== *)
(** * Motion tester
      (src/skills/wcag-audit-perceivable-text-size/scripts/convert.js,
      second script of the file) *)
(* ================================================================== *)

Module Motion.
Import Str.
Open Scope string_scope.
Open Scope list_scope.

Definition MAX_AUTO_DURATION : number Qc := of_Z 5.
Definition MAX_FLASHES_PER_SECOND : number Qc := of_Z 3.

(** [JSON.parse(options.json)] read through its five properties. *)
Record json_input : Type := {
  j_duration : option (number Qc);
  j_type : option string;
  j_flashes : option (number Qc);
  j_userPrefersReducedMotion : option bool;
  j_reducedMotion : option bool
}.

Definition no_properties : json_input :=
  {| j_duration := None; j_type := None; j_flashes := None;
     j_userPrefersReducedMotion := None; j_reducedMotion := None |}.

Record animation : Type := {
  duration : number Qc;
  type : string;
  flashes : number Qc;
  reducedMotion : bool
}.

Definition or_number (a : option (number Qc)) (b : number Qc) : number Qc :=
  match a with
  | Some n => if truthy n then n else b
  | None => b
  end.

Definition is_true_string (f : option flag) : bool :=
  match f with
  | Some (FlagValue s) => String.eqb s "true"
  | _ => false
  end.

Section Script.
(** The built-in [parseFloat] and [JSON.parse]. *)
Variable parseFloat : string → number Qc.
Variable JSON_parse : string → option json_input.

Definition parseInput (options : gmap string flag) : outcome animation :=
  let duration : number Qc := of_Z 0 in
  let type := "unknown" in
  let flashes : number Qc := of_Z 0 in
  let reducedMotion := false in
  let duration :=
    match opt options "duration" with
    | Some f => parseFloat (flag_string f)
    | None => duration
    end in
  type ←
    match opt options "type" with
    | Some FlagTrue => Uncaught "TypeError"
    | Some (FlagValue s) => mret (toLowerCase s)
    | None => mret type
    end;
  let flashes :=
    match opt options "flashes" with
    | Some f => parseInt (flag_string f) 0
    | None => flashes
    end in
  let reducedMotion :=
    if bool_decide (is_Some (or_flag (opt options "reducedMotion")
                                     (opt options "reduced-motion")))
    then is_true_string (options !! "reducedMotion")
         || is_true_string (options !! "reduced-motion")
    else reducedMotion in
  match opt options "json" with
  | Some f =>
      match (match f with
             | FlagTrue => Some no_properties
             | FlagValue s => JSON_parse s
             end) with
      | Some jsonInput =>
          mret {| duration := or_number (j_duration jsonInput) duration;
                  type := match j_type jsonInput with
                          | Some s => if nonempty s then s else type
                          | None => type
                          end;
                  flashes := or_number (j_flashes jsonInput) flashes;
                  reducedMotion :=
                    default false (j_userPrefersReducedMotion jsonInput)
                    || default false (j_reducedMotion jsonInput)
                    || reducedMotion |}
      | None => Exit 1 InvalidJson
      end
  | None =>
      mret {| duration := duration; type := type; flashes := flashes;
              reducedMotion := reducedMotion |}
  end.
End Script.

Record test_result : Type := {
  compliant : bool;
  issues : list message;
  recommendations : list message
}.

(** Test reduced motion compliance. *)
Definition testReducedMotion (duration : number Qc) (type : string)
    (reducedMotion : bool) : test_result :=
  let issues : list message := [] in
  let recommendations : list message := [] in
  let '(issues, recommendations) :=
    if reducedMotion
    then (issues ++ [[Text "User prefers reduced motion - animation should be disabled or minimized"]],
          recommendations ++ [[Text "Disable or significantly reduce animation when user prefers reduced motion"]])
    else (issues, recommendations) in
  let '(issues, recommendations) :=
    if (duration >? MAX_AUTO_DURATION)%js then
      let autoTypes := ["carousel"; "slideshow"; "auto-advance"; "ticker"; "marquee"] in
      if existsb (λ t, includes t type) autoTypes
      then (issues ++ [[Text "Auto-playing "; Text type; Text " duration (";
                        Value duration; Text "s) exceeds ";
                        Value MAX_AUTO_DURATION; Text "s limit"]],
            recommendations ++ [[Text "Provide pause/stop controls or reduce duration to under 5 seconds"]])
      else (issues, recommendations)
    else (issues, recommendations) in
  let highRiskTypes := ["parallax"; "scroll-triggered"; "3d-transform"] in
  let recommendations :=
    if existsb (λ t, includes t type) highRiskTypes
    then recommendations ++ [[Text "Consider providing option to disable or reduce motion intensity"]]
    else recommendations in
  {| compliant := (length issues =? 0)%nat;
     issues := issues;
     recommendations := recommendations |}.

(** Test flashing compliance. *)
Definition testFlashing (flashes : number Qc) : test_result :=
  let compliant := (flashes <=? MAX_FLASHES_PER_SECOND)%js in
  let issues : list message := [] in
  let recommendations : list message := [] in
  let '(issues, recommendations) :=
    if negb compliant
    then (issues ++ [[Text "Flashing frequency ("; Value flashes;
                      Text " flashes/s) exceeds ";
                      Value MAX_FLASHES_PER_SECOND; Text " flashes/s limit"]],
          recommendations
            ++ [[Text "Reduce flashing to maximum 3 flashes per second"]]
            ++ [[Text "Consider non-flashing alternatives for important information"]]
            ++ [[Text "Test with users sensitive to flashing content"]])
    else (issues, recommendations) in
  {| compliant := compliant;
     issues := issues;
     recommendations := recommendations |}.

(** Test duration compliance. *)
Definition testDuration (duration : number Qc) (type : string) : test_result :=
  let compliant := (duration <=? MAX_AUTO_DURATION)%js in
  let issues : list message := [] in
  let recommendations : list message := [] in
  let '(issues, recommendations) :=
    if negb compliant
    then (issues ++ [[Text "Animation duration ("; Value duration;
                      Text "s) exceeds "; Value MAX_AUTO_DURATION;
                      Text "s recommended limit"]],
          recommendations
            ++ [[Text "Consider shorter duration or provide user controls"]]
            ++ [[Text "Break long animations into smaller segments with pauses"]])
    else (issues, recommendations) in
  {| compliant := compliant;
     issues := issues;
     recommendations := recommendations |}.

Record compliance : Type := {
  c_reducedMotion : bool;
  c_flashing : bool;
  c_duration : bool
}.

Record assessment : Type := {
  a_compliance : compliance;
  a_issues : list message;
  a_recommendations : list message
}.

(** Generate overall assessment. *)
Definition assessAnimation (duration : number Qc) (type : string)
    (flashes : number Qc) (reducedMotion : bool) : assessment :=
  let reducedMotionTest := testReducedMotion duration type reducedMotion in
  let flashingTest := testFlashing flashes in
  let durationTest := testDuration duration type in
  let allIssues :=
    issues reducedMotionTest ++ issues flashingTest ++ issues durationTest in
  let allRecommendations :=
    recommendations reducedMotionTest ++ recommendations flashingTest
      ++ recommendations durationTest in
  let uniqueRecommendations := Set_of allRecommendations in
  {| a_compliance :=
       {| c_reducedMotion := negb reducedMotion || compliant reducedMotionTest;
          c_flashing := compliant flashingTest;
          c_duration := compliant durationTest |};
     a_issues := allIssues;
     a_recommendations := uniqueRecommendations |}.

(** The animation and its assessment, which [main] prints as JSON or in
    words. *)
Definition main (parseFloat : string → number Qc)
    (JSON_parse : string → option json_input)
    (argv : list string) : outcome (animation * assessment) :=
  let options := parseArgs argv in
  a ← parseInput parseFloat JSON_parse options;
  if (duration a === of_Z 0)%js && negb (bool_decide (is_Some (opt options "json")))
  then Exit 1 Usage
  else mret (a, assessAnimation (duration a) (type a) (flashes a) (reducedMotion a)).

(** [x] is a number and is more than [limit]. *)
Definition exceeds (x : number Qc) (limit : Z) : Prop :=
  match x with
  | Fin q => (inject_Z limit < q)%Q
  | PInf => True
  | _ => False
  end.

End Motion.

(* ================================================================== *)
(** * Skill file validator
      (src/skills/wcag-audit-perceivable-text-size/scripts/convert.js,
      third script of the file) *)
(* ================================================================== *)

Module Validate.
Import Str.
Open Scope string_scope.
Open Scope list_scope.

(** A value of the front matter as gray-matter hands it over: missing, a
    string, or something else (a number, a boolean, [null], a list, a
    map), of which the script only asks whether it is truthy. *)
Inductive yaml : Type :=
  | Absent
  | YString (s : string)
  | YOther (truthy : bool).

Definition yaml_truthy (v : yaml) : bool :=
  match v with
  | Absent => false
  | YString s => nonempty s
  | YOther truthy => truthy
  end.

(** [matter(content)]: the two fields of [data] the scripts read, and
    the body. *)
Record front_matter : Type := {
  data_name : yaml;
  data_description : yaml;
  content : string
}.

(** The messages, named after what they say. *)
Inductive error : Type :=
  | MissingName
  | NameNotString
  | NamePattern
  | MissingDescription
  | DescriptionNotString
  | DescriptionLength
  | ParseFailure (message : string).

Inductive warning : Type :=
  | NoContentBody
  | NoWhenToUse.

(** The class [[a-z0-9-]]. *)
Definition name_char (c : ascii) : bool :=
  let n := code c in
  ((97 <=? n) && (n <=? 122) || (48 <=? n) && (n <=? 57) || (n =? 45))%Z.

Fixpoint all_chars (p : ascii → bool) (s : string) : bool :=
  match s with
  | EmptyString => true
  | String c s' => p c && all_chars p s'
  end.

(** [/^[a-z0-9-]{1,64}$/.test(s)]. *)
Definition name_pattern (s : string) : bool :=
  (1 <=? String.length s)%nat && (String.length s <=? 64)%nat
  && all_chars name_char s.

Record report : Type := {
  errors : list error;
  warnings : list warning
}.

(** [validateSkillFile]: the file read and parsed ([inl] holds the
    message of the exception [readFileSync] or [matter] throws), then the
    checks. *)
Definition validateSkillFile (file : string + front_matter) : report :=
  let errors : list error := [] in
  let warnings : list warning := [] in
  match file with
  | inl message =>
      {| errors := errors ++ [ParseFailure message]; warnings := warnings |}
  | inr parsed =>
      let errors :=
        if negb (yaml_truthy (data_name parsed)) then errors ++ [MissingName]
        else
          match data_name parsed with
          | YString name =>
              if negb (name_pattern name) then errors ++ [NamePattern]
              else errors
          | _ => errors ++ [NameNotString]
          end in
      let errors :=
        if negb (yaml_truthy (data_description parsed))
        then errors ++ [MissingDescription]
        else
          match data_description parsed with
          | YString description =>
              if (String.length description <? 1)%nat
                 || (1024 <? String.length description)%nat
              then errors ++ [DescriptionLength]
              else errors
          | _ => errors ++ [DescriptionNotString]
          end in
      let warnings :=
        if negb (nonempty (trim (content parsed)))
        then warnings ++ [NoContentBody]
        else warnings in
      let warnings :=
        if negb (includes "## When to Use" (content parsed))
           && negb (includes "### When to Use" (content parsed))
        then warnings ++ [NoWhenToUse]
        else warnings in
      {| errors := errors; warnings := warnings |}
  end.

(** How [validateAllSkills] ends. *)
Inductive verdict : Type :=
  | NoSkillFiles
  | Failed
  | PassedWithWarnings
  | Passed.

(** The argument of [process.exit]. *)
Definition exit_code (v : verdict) : Z :=
  match v with
  | NoSkillFiles | Failed => 1
  | PassedWithWarnings | Passed => 0
  end.

Record summary : Type := {
  checked : nat;
  totalErrors : nat;
  totalWarnings : nat;
  outcome_of : verdict
}.

(** [validateAllSkills] on the files [glob.sync] found. *)
Definition validateAllSkills (skillFiles : list (string + front_matter))
  : summary :=
  if (length skillFiles =? 0)%nat
  then {| checked := 0; totalErrors := 0; totalWarnings := 0;
          outcome_of := NoSkillFiles |}
  else
    let '(totalErrors, totalWarnings) :=
      foldl (λ '(totalErrors, totalWarnings) skillFile,
               let r := validateSkillFile skillFile in
               ((totalErrors + length (errors r))%nat,
                (totalWarnings + length (warnings r))%nat))
            (0%nat, 0%nat) skillFiles in
    {| checked := length skillFiles;
       totalErrors := totalErrors;
       totalWarnings := totalWarnings;
       outcome_of :=
         if (0 <? totalErrors)%nat then Failed
         else if (0 <? totalWarnings)%nat then PassedWithWarnings
         else Passed |}.

End Validate.

(* ================================================================== *)
(** * Skill metadata build: what is read and what is listed
      (src/unnamed/part_003) *)
(* ================================================================== *)

Module Metadata.
Import Str Validate.
Open Scope string_scope.
Open Scope list_scope.

(** A SKILL.md file [glob.sync] found: the name of its directory, its
    path, and what reading and parsing it gives ([inl] when that
    throws). *)
Record skill_file : Type := {
  file_directory : string;
  file_path : string;
  file_parsed : string + front_matter
}.

(** An element of the array [skills]; the name and the description are
    whatever the front matter holds. *)
Record metadata : Type := {
  m_name : yaml;
  m_description : yaml;
  m_directory : string;
  m_path : string
}.

(** The array [skills] of [getAllSkillsMetadata] when its [forEach]
    ends, before it is sorted by name. *)
Definition collected (skillFiles : list skill_file) : list metadata :=
  foldl (λ skills skillFile,
           match file_parsed skillFile with
           | inr parsed =>
               if yaml_truthy (data_name parsed)
                  && yaml_truthy (data_description parsed)
               then skills ++ [{| m_name := data_name parsed;
                                  m_description := data_description parsed;
                                  m_directory := file_directory skillFile;
                                  m_path := file_path skillFile |}]
               else skills
           | inl _ => skills
           end)
        [] skillFiles.

(** The three lists under Skill Categories in [generateAgentsMd]. *)
Definition router_section (skills : list Build.skill) : list Build.skill :=
  filter (λ s, startsWith "wcag-" (Build.name s) = true) skills.

Definition deep_section (skills : list Build.skill) : list Build.skill :=
  filter (λ s, includes "-deep" (Build.name s) = true) skills.

Definition tools_section (skills : list Build.skill) : list Build.skill :=
  filter (λ s,
            let toolSuffixes :=
              ["-focus"; "-test"; "-size"; "-contrast"; "-blindness"; "-target-size"] in
            existsb (λ suffix, endsWith suffix (Build.name s)) toolSuffixes = true)
         skills.

End Metadata.

(* ================================================================== *)
(** * Colour-blindness simulator: how a colour is printed
      (src/unnamed/part_001, [colorToHex] and [colorToRgbString]) *)
(* ================================================================== *)

Module ColorOutput.
Import Str ColorBlindness.
Open Scope string_scope.

Definition upper (c : ascii) : ascii :=
  if ((97 <=? code c) && (code c <=? 122))%Z
  then ascii_of_nat (nat_of_ascii c - 32) else c.

Fixpoint toUpperCase (s : string) : string :=
  match s with
  | EmptyString => EmptyString
  | String c s' => String (upper c) (toUpperCase s')
  end.

(** [s.padStart(2, '0')]. *)
Definition padStart2 (s : string) : string :=
  match String.length s with
  | 0%nat => "00"
  | 1%nat => "0" ++ s
  | _ => s
  end.

(** [n.toString(16)] and [String(n)] for a number that is not finite or
    is an integer (below 10^21 in magnitude for the decimal form, which
    is written with an exponent from there on); the digits of a fraction
    are not modelled. *)
Definition Number_toString (radix : Z) (n : number Qc) : option string :=
  match n with
  | NaN => Some "NaN"
  | PInf => Some "Infinity"
  | NInf => Some "-Infinity"
  | Fin q =>
      if (Qden q =? 1)%positive then
        if (radix =? 16)%Z
        then Some (HexadecimalString.NilZero.string_of_int
                     (Z.to_hex_int (Qnum q)))
        else if (Z.abs (Qnum q) <? 10 ^ 21)%Z
        then Some (DecimalString.NilZero.string_of_int (Z.to_int (Qnum q)))
        else None
      else None
  end.

Definition colorToHex (color : rgb) : option string :=
  r ← padStart2 <$> Number_toString 16 (r color);
  g ← padStart2 <$> Number_toString 16 (g color);
  b ← padStart2 <$> Number_toString 16 (b color);
  Some (toUpperCase ("#" ++ r ++ g ++ b)).

Definition colorToRgbString (color : rgb) : option string :=
  r ← Number_toString 10 (r color);
  g ← Number_toString 10 (g color);
  b ← Number_toString 10 (b color);
  Some ("rgb(" ++ r ++ ", " ++ g ++ ", " ++ b ++ ")").

(** The colour with the integer channels [r], [g] and [b]. *)
Definition color (r g b : Z) : rgb :=
  {| r := of_Z r; g := of_Z g; b := of_Z b |}.

End ColorOutput.

(* ================================================================== *)
(** * Skill metadata build: the README (src/unnamed/part_003,
      [updateReadme]) *)
(* ================================================================== *)

Module Readme.
Import Str.
Open Scope string_scope.
Open Scope list_scope.

(** The line feed. *)
Definition LF : ascii := "010"%char.
Definition nl : string := String LF "".

(** The first occurrence of [p] in [s]: what is before it and what is
    after it. *)
Fixpoint find_first (p s : string) : option (string * string) :=
  if startsWith p s
  then Some ("", substring (String.length p) (String.length s - String.length p) s)
  else
    match s with
    | EmptyString => None
    | String c s' =>
        match find_first p s' with
        | Some (before, after) => Some (String c before, after)
        | None => None
        end
    end.

(** What [[\s\S]*?(?=p|$)] matches at the start of [s], and what is left:
    the shortest prefix after which [s] goes on with [p] or ends. *)
Fixpoint lazy_until (p s : string) : string * string :=
  if startsWith p s then ("", s)
  else
    match s with
    | EmptyString => ("", "")
    | String c s' => let '(matched, rest) := lazy_until p s' in (String c matched, rest)
    end.

(** The replacement text of [String.prototype.replace] for a pattern
    without groups: [$$], [$&], [$`] and [$'] are expanded, every other
    character stands for itself. *)
Fixpoint GetSubstitution (matched before after replacement : string) : string :=
  match replacement with
  | String "$" (String "$" r) =>
      String "$" (GetSubstitution matched before after r)
  | String "$" (String "&" r) =>
      (matched ++ GetSubstitution matched before after r)%string
  | String "$" (String "`" r) =>
      (before ++ GetSubstitution matched before after r)%string
  | String "$" (String "'" r) =>
      (after ++ GetSubstitution matched before after r)%string
  | String c r => String c (GetSubstitution matched before after r)
  | EmptyString => EmptyString
  end.

(** [content.replace(/## Installation[\s\S]*?(?=## |$)/, replacement)]. *)
Definition replace_installation (content replacement : string) : string :=
  match find_first "## Installation" content with
  | Some (before, rest) =>
      let '(middle, after) := lazy_until "## " rest in
      (before
       ++ GetSubstitution ("## Installation" ++ middle) before after replacement
       ++ after)%string
  | None => content
  end.

(** The two halves of the template [installSection]: the installation
    commands, which do not depend on the skills, and the list of the
    skills. *)
Definition installation_part : string :=
  ("## Installation" ++ nl ++ nl
   ++ "```sh" ++ nl
   ++ "npx add-skill <repository-url>" ++ nl
   ++ "```" ++ nl ++ nl
   ++ "Or install specific skills:" ++ nl ++ nl
   ++ "```sh" ++ nl
   ++ "npx add-skill <repository-url> --skill wcag-audit-perceivable-color --skill wcag-audit-understandable-forms" ++ nl
   ++ "```" ++ nl ++ nl)%string.

Definition skill_line (skill : Build.skill) : string :=
  ("- **" ++ Build.name skill ++ "**: " ++ Build.description skill)%string.

Definition available_part (skills : list Build.skill) : string :=
  ("## Available Skills" ++ nl ++ nl
   ++ "This repository contains "
   ++ DecimalString.NilZero.string_of_uint (Nat.to_uint (length skills))
   ++ " WCAG accessibility skills:" ++ nl ++ nl
   ++ String.concat nl (map skill_line skills) ++ nl ++ nl)%string.

Definition installSection (skills : list Build.skill) : string :=
  (installation_part ++ available_part skills)%string.

(** [lines.findIndex(line => line.trim() === '')]. *)
Fixpoint findIndex_blank (lines : list string) : option nat :=
  match lines with
  | [] => None
  | line :: lines' =>
      if negb (nonempty (trim line)) then Some 0%nat
      else S <$> findIndex_blank lines'
  end.

(** The content [updateReadme] writes for the content it read. *)
Definition updateReadme (skills : list Build.skill) (readmeContent : string)
  : string :=
  let installSection := installSection skills in
  if includes "## Installation" readmeContent
  then replace_installation readmeContent installSection
  else
    let lines := split LF readmeContent in
    let insertIndex :=
      match findIndex_blank lines with
      | Some i => S i
      | None => 0%nat
      end in
    let lines := take insertIndex lines ++ [trim installSection] ++ drop insertIndex lines in
    String.concat nl lines.

End Readme.

(* ================================================================== *)
(** * Properties *)
(* ================================================================== *)

(** ** Comparisons of rational numbers *)

Section RationalNumbers.
Implicit Types a b : Qc.

Lemma le_Fin a b : (Fin a <=? Fin b)%js = true ↔ (a <= b)%Q.
Proof. apply Qle_bool_iff. Qed.

Lemma ge_Fin a b : (Fin a >=? Fin b)%js = true ↔ (b <= a)%Q.
Proof. apply Qle_bool_iff. Qed.

Lemma lt_Fin a b : (Fin a <? Fin b)%js = true ↔ (a < b)%Q.
Proof.
  cbn. unfold s_ltb. cbn.
  rewrite andb_true_iff, negb_true_iff, Qle_bool_iff.
  rewrite <- not_true_iff_false, Qeq_bool_iff.
  split.
  - intros [Hle Hne]. apply Qle_lteq in Hle as [Hlt | Heq]; tauto.
  - intros Hlt. split; [now apply Qlt_le_weak | ].
    intros Heq. rewrite Heq in Hlt. now apply Qlt_irrefl in Hlt.
Qed.

Lemma gt_Fin a b : (Fin a >? Fin b)%js = true ↔ (b < a)%Q.
Proof. apply lt_Fin. Qed.

Lemma truthy_Fin a : truthy (Fin a) = false ↔ a = Q2Qc 0.
Proof.
  cbn. rewrite negb_false_iff, Qeq_bool_iff. split.
  - intros Heq. now apply Qc_is_canon.
  - now intros ->.
Qed.

Lemma this_of_Z (z : Z) : (this (Q2Qc (inject_Z z)) == inject_Z z)%Q.
Proof. apply Qred_correct. Qed.

Lemma ge_of_Z a (z : Z) : (Fin a >=? of_Z z)%js = true ↔ (inject_Z z <= a)%Q.
Proof. unfold of_Z. rewrite ge_Fin. cbn. now rewrite Qred_correct. Qed.

Lemma le_of_Z a (z : Z) : (Fin a <=? of_Z z)%js = true ↔ (a <= inject_Z z)%Q.
Proof. unfold of_Z. rewrite le_Fin. cbn. now rewrite Qred_correct. Qed.

Lemma gt_of_Z a (z : Z) : (Fin a >? of_Z z)%js = true ↔ (inject_Z z < a)%Q.
Proof. unfold of_Z. rewrite gt_Fin. cbn. now rewrite Qred_correct. Qed.

Lemma lt_of_Z a (z : Z) : (Fin a <? of_Z z)%js = true ↔ (a < inject_Z z)%Q.
Proof. unfold of_Z. rewrite lt_Fin. cbn. now rewrite Qred_correct. Qed.

Lemma Qfloor_range (q : Q) (lo hi : Z) :
  (inject_Z lo <= q)%Q → (q < inject_Z hi + 1)%Q → (lo <= Qfloor q <= hi)%Z.
Proof.
  intros Hlo Hhi. split.
  - apply Qfloor_resp_le in Hlo. now rewrite Qfloor_Z in Hlo.
  - pose proof (Qfloor_le q) as Hfl.
    assert (H : (inject_Z (Qfloor q) < inject_Z (hi + 1))%Q).
    { rewrite inject_Z_plus. eapply Qle_lt_trans; [exact Hfl | exact Hhi]. }
    rewrite <- Zlt_Qlt in H. lia.
Qed.

Lemma mul_Fin (a b : R) : (Fin a * Fin b)%js = Fin (s_mul a b).
Proof. reflexivity. Qed.

Lemma add_Fin (a b : R) : (Fin a + Fin b)%js = Fin (s_add a b).
Proof. reflexivity. Qed.
End RationalNumbers.

(** ** Rounding to binary64 *)

Lemma abs_cases (x : Q) :
  ((0 <= x)%Q ∧ (Qabs x == x)%Q) ∨ ((x <= 0)%Q ∧ (Qabs x == - x)%Q).
Proof.
  destruct (Qlt_le_dec x 0%Q) as [H|H].
  - right. split; [now apply Qlt_le_weak | apply Qabs_neg; now apply Qlt_le_weak].
  - left. split; [exact H | now apply Qabs_pos].
Qed.

(** Case analysis on the absolute values of the goal. *)
Ltac absolute :=
  repeat match goal with
         | H : context [Qabs ?t] |- _ =>
             destruct (abs_cases t) as [[? ?]|[? ?]];
             generalize dependent (Qabs t); intros
         | |- context [Qabs ?t] =>
             destruct (abs_cases t) as [[? ?]|[? ?]];
             generalize dependent (Qabs t); intros
         end.

(** Closed inequalities between rational constants. *)
Ltac constants := vm_compute; discriminate.

(** Linear arithmetic over the values of canonical rationals. *)
Ltac values :=
  repeat match goal with
         | H : context [this ?c] |- _ =>
             is_var c; generalize dependent (this c); intros
         | |- context [this ?c] =>
             is_var c; generalize dependent (this c); intros
         end.

Section Binary64.
Local Open Scope Q_scope.

Lemma two_pos (k : Z) : 0 < 2 ^ k.
Proof. apply Qpower_0_lt. reflexivity. Qed.


Lemma two_succ (k : Z) : 2 ^ (k + 1) == 2 * 2 ^ k.
Proof. rewrite Qpower_plus by discriminate. change (2 ^ 1) with 2. ring. Qed.

Lemma two_Z (a : Z) : (0 <= a)%Z → inject_Z (2 ^ a) == 2 ^ a.
Proof. intros H. now rewrite Zpower_Qpower. Qed.

Lemma ilog2_le (x : Q) : 0 < x → 2 ^ ilog2 x <= x.
Proof.
  intros Hx. unfold ilog2.
  set (a := Z.log2 (Qnum x)). set (b := Z.log2 (Zpos (Qden x))).
  destruct (Qle_bool (2 ^ (a - b)) x) eqn:Htest.
  - now apply Qle_bool_iff.
  - destruct x as [n d]. cbn [Qnum Qden] in *.
    assert (Hn : (0 < n)%Z) by (unfold Qlt in Hx; cbn in Hx; lia).
    pose proof (Z.log2_spec n Hn) as [Hlo _]. fold a in Hlo.
    pose proof (Z.log2_spec (Zpos d) eq_refl) as [_ Hhi]. fold b in Hhi.
    pose proof (Z.log2_nonneg n) as Ha. fold a in Ha.
    pose proof (Z.log2_nonneg (Zpos d)) as Hb. fold b in Hb.
    replace (a - b - 1)%Z with (a + - (b + 1))%Z by lia.
    rewrite Qpower_plus, Qpower_opp by discriminate.
    rewrite <- (two_Z a), <- (two_Z (b + 1)) by lia.
    replace (Z.succ b) with (b + 1)%Z in Hhi by lia.
    set (A := (2 ^ a)%Z) in *. set (B := (2 ^ (b + 1))%Z) in *.
    assert (HB : (0 < B)%Z) by lia.
    apply Qle_shift_div_r; [rewrite <- (Zlt_Qlt 0); exact HB | ].
    unfold Qle, Qmult, inject_Z. cbn. nia.
Qed.

Lemma rne_half (x : Q) : Qabs (inject_Z (rne x) - x) <= 1 # 2.
Proof.
  unfold rne. pose proof (Qfloor_le x) as Hlo. pose proof (Qlt_floor x) as Hhi.
  rewrite inject_Z_plus in Hhi. change (inject_Z 1) with 1 in Hhi.
  set (f := Qfloor x) in *. clearbody f.
  apply Qabs_Qle_condition.
  destruct (Qcompare_spec (x - inject_Z f) (1 # 2)) as [Heq|Hlt|Hgt].
  - destruct (Z.even f); [ | rewrite inject_Z_plus; change (inject_Z 1) with 1];
      split; Lqa.lra.
  - split; Lqa.lra.
  - rewrite inject_Z_plus. change (inject_Z 1) with 1. split; Lqa.lra.
Qed.

Lemma rne_integer (z : Z) : rne (inject_Z z) = z.
Proof.
  unfold rne. rewrite Qfloor_Z.
  destruct (Qcompare_spec (inject_Z z - inject_Z z) (1 # 2)) as [H|H|H];
    try reflexivity; exfalso; Lqa.lra.
Qed.


Lemma rne_comp (x y : Q) : x == y → rne x = rne y.
Proof.
  intros H. unfold rne.
  assert (Hf : Qfloor x = Qfloor y) by now rewrite H.
  rewrite Hf.
  assert (Hc : Qcompare (x - inject_Z (Qfloor y)) (1 # 2) = Qcompare (y - inject_Z (Qfloor y)) (1 # 2))
    by now rewrite H.
  now rewrite Hc.
Qed.

(** The rounding error: half a unit in the last place. *)
Lemma round64_error (x : Q) :
  Qabs (round64 x - x) <= 2 ^ (quantum x - 1).
Proof.
  unfold round64. set (q := quantum x). clearbody q.
  pose proof (two_pos q) as Hq.
  assert (Hx : x == x / 2 ^ q * 2 ^ q) by (field; Lqa.lra).
  rewrite Hx at 2.
  setoid_replace (inject_Z (rne (x / 2 ^ q)) * 2 ^ q - x / 2 ^ q * 2 ^ q)
    with ((inject_Z (rne (x / 2 ^ q)) - x / 2 ^ q) * 2 ^ q) using relation Qeq by ring.
  rewrite Qabs_Qmult, (Qabs_pos (2 ^ q)) by Lqa.lra.
  replace (q - 1)%Z with (q + -1)%Z by lia.
  rewrite Qpower_plus by discriminate. change (2 ^ (-1)) with (1 # 2).
  pose proof (rne_half (x / 2 ^ q)) as Hr.
  rewrite (Qmult_comm (2 ^ q)).
  apply Qmult_le_compat_r; [exact Hr | Lqa.lra].
Qed.

Lemma round64_relative (x : Q) :
  2 ^ (-1022) <= Qabs x →
  Qabs (round64 x - x) <= 2 ^ (-53) * Qabs x.
Proof.
  intros Hx. eapply Qle_trans; [apply round64_error | ].
  assert (Hpos : 0 < Qabs x).
  { eapply Qlt_le_trans; [apply (two_pos (-1022)) | exact Hx]. }
  unfold quantum. destruct (Z.max_spec (ilog2 (Qabs x) - 52) (-1074)) as [[_ ->]|[_ ->]].
  - change (2 ^ (-1074 - 1)) with (2 ^ (-53) * 2 ^ (-1022)).
    apply Qmult_le_l; [apply two_pos | exact Hx].
  - replace (ilog2 (Qabs x) - 52 - 1)%Z with (-53 + ilog2 (Qabs x))%Z by lia.
    rewrite Qpower_plus by discriminate.
    apply Qmult_le_l; [apply two_pos | now apply ilog2_le].
Qed.

Lemma round64_zero (x : Q) : x == 0 → round64 x == 0.
Proof.
  intros Hx. unfold round64.
  rewrite (rne_comp (x / 2 ^ quantum x) (inject_Z 0)).
  - rewrite rne_integer. change (inject_Z 0) with 0. Lqa.lra.
  - unfold Qdiv. generalize (/ 2 ^ quantum x). intros c.
    rewrite Hx. change (inject_Z 0) with 0. ring.
Qed.

Lemma round64_absolute (x : Q) :
  Qabs (round64 x - x) <= 2 ^ (-53) * Qabs x + 2 ^ (-1075).
Proof.
  pose proof (Qabs_nonneg x) as Hx. pose proof (two_pos (-53)) as H53.
  pose proof (two_pos (-1075)) as H1075.
  assert (0 <= 2 ^ (-53) * Qabs x) as Hprod by (apply Qmult_le_0_compat; Lqa.lra).
  destruct (Qle_lt_or_eq _ _ Hx) as [Hpos|Hzero].
  - eapply Qle_trans; [apply round64_error | ].
    unfold quantum.
    destruct (Z.max_spec (ilog2 (Qabs x) - 52) (-1074)) as [[_ ->]|[_ ->]].
    + change (2 ^ (-1074 - 1)) with (2 ^ (-1075)). Lqa.lra.
    + replace (ilog2 (Qabs x) - 52 - 1)%Z with (-53 + ilog2 (Qabs x))%Z by lia.
      rewrite Qpower_plus by discriminate.
      assert (2 ^ (-53) * 2 ^ ilog2 (Qabs x) <= 2 ^ (-53) * Qabs x).
      { apply Qmult_le_l; [apply two_pos | now apply ilog2_le]. }
      Lqa.lra.
  - assert (x == 0) as H0.
    { revert Hzero. apply Qabs_case; intros; Lqa.lra. }
    rewrite (round64_zero x H0), H0. change (Qabs (0 - 0)) with 0.
    change (Qabs 0) with 0. Lqa.lra.
Qed.

Lemma two_le (j k : Z) : (j <= k)%Z → 2 ^ j <= 2 ^ k.
Proof.
  intros H. replace k with (j + (k - j))%Z by lia.
  rewrite Qpower_plus by discriminate.
  assert (1 <= 2 ^ (k - j)).
  { rewrite <- two_Z by lia. change 1 with (inject_Z 1). rewrite <- Zle_Qle.
    pose proof (Z.pow_pos_nonneg 2 (k - j)). lia. }
  pose proof (two_pos j). 
  setoid_replace (2 ^ j) with (2 ^ j * 1) using relation Qeq at 1 by ring.
  apply Qmult_le_l; assumption.
Qed.

Lemma two_le_inv (j k : Z) : 2 ^ j <= 2 ^ k → (j <= k)%Z.
Proof.
  intros H. destruct (Z.le_gt_cases j k) as [|Hlt]; [assumption | exfalso].
  assert (2 ^ (k + 1) <= 2 ^ j) as H1 by (apply two_le; lia).
  rewrite two_succ in H1. pose proof (two_pos k). Lqa.lra.
Qed.

Lemma round64_integer (z : Z) :
  (Z.abs z <= 2 ^ 53)%Z → round64 (inject_Z z) == inject_Z z.
Proof.
  intros Hz. destruct (Z.eq_dec z 0%Z) as [->|Hnz]; [reflexivity | ].
  assert (Hpos : 0 < Qabs (inject_Z z)).
  { change (Qabs (inject_Z z)) with (inject_Z (Z.abs z)).
    change 0 with (inject_Z 0). rewrite <- Zlt_Qlt. lia. }
  pose proof (ilog2_le _ Hpos) as He.
  assert (Hle : (ilog2 (Qabs (inject_Z z)) <= 53)%Z).
  { apply two_le_inv. eapply Qle_trans; [exact He | ].
    change (Qabs (inject_Z z)) with (inject_Z (Z.abs z)).
    rewrite <- (two_Z 53) by lia. now rewrite <- Zle_Qle. }
  destruct (Z.eq_dec (ilog2 (Qabs (inject_Z z))) 53%Z) as [He53|Hne].
  - assert (Z.abs z = 2 ^ 53)%Z as Habs.
    { apply Z.le_antisymm; [exact Hz | ].
      rewrite He53 in He. rewrite <- (two_Z 53) in He by lia.
      change (Qabs (inject_Z z)) with (inject_Z (Z.abs z)) in He.
      now rewrite <- Zle_Qle in He. }
    destruct (Z.abs_spec z) as [[_ Heq]|[_ Heq]]; rewrite Heq in Habs.
    + rewrite Habs. vm_compute. reflexivity.
    + replace z with (- 2 ^ 53)%Z by lia. vm_compute. reflexivity.
  - unfold round64. set (q := quantum (inject_Z z)).
    assert (Hq : (q <= 0)%Z) by (unfold q, quantum; lia).
    rewrite (rne_comp _ (inject_Z (z * 2 ^ (- q)))).
    + rewrite rne_integer, inject_Z_mult, two_Z by lia.
      rewrite <- Qmult_assoc, <- Qpower_plus by discriminate.
      replace (- q + q)%Z with 0%Z by lia. change (2 ^ 0) with 1. ring.
    + rewrite inject_Z_mult, two_Z by lia. unfold Qdiv.
      rewrite <- Qpower_opp. reflexivity.
Qed.


Lemma reduced (y : Q) : this (Q2Qc (Qred y)) == y.
Proof. cbn. now rewrite !Qred_correct. Qed.

Lemma binary64_finite (x : Q) :
  Qabs x <= 2 ^ 1023 → binary64 x = Fin (Q2Qc (Qred (round64 x))).
Proof.
  intros Hx. unfold binary64. cbv zeta.
  destruct (Qle_bool (2 ^ 1024) (Qabs (round64 x))) eqn:Hbig; [exfalso | reflexivity].
  apply Qle_bool_iff in Hbig. pose proof (round64_absolute x) as Herr.
  change 1024%Z with (1023 + 1)%Z in Hbig. rewrite two_succ in Hbig.
  assert (H53 : 2 ^ (-53) * Qabs x <= (1 # 2) * Qabs x).
  { apply Qmult_le_compat_r; [ | apply Qabs_nonneg]. apply (two_le (-53) (-1)). lia. }
  pose proof (two_le (-1075) (-2) ltac:(lia)) as Hs. change (2 ^ (-2)) with (1 # 4) in Hs.
  pose proof (two_le 0 1023 ltac:(lia)) as Hone. change (2 ^ 0) with 1 in Hone.
  set (A := 2 ^ 1023) in *. set (e := 2 ^ (-1075)) in *. set (u := 2 ^ (-53)) in *.
  set (y := round64 x) in *. clearbody A e u y.
  absolute; Lqa.lra.
Qed.

Lemma binary64_close (x y : Q) :
  x == y → Qabs y <= 2 ^ 1023 →
  ∃ c : Qc, binary64 x = Fin c
                 ∧ Qabs (c - y) <= 2 ^ (-53) * Qabs y + 2 ^ (-1075).
Proof.
  intros Hxy Hy. eexists. split.
  - apply binary64_finite. now rewrite Hxy.
  - rewrite reduced. pose proof (round64_absolute x) as H.
    set (c := round64 x) in *. clearbody c. now rewrite Hxy in H.
Qed.

Lemma binary64_near (x y : Q) :
  x == y → 2 ^ (-1022) <= Qabs y → Qabs y <= 2 ^ 1023 →
  ∃ c : Qc, binary64 x = Fin c ∧ Qabs (c - y) <= 2 ^ (-53) * Qabs y.
Proof.
  intros Hxy Hlo Hhi. eexists. split.
  - apply binary64_finite. now rewrite Hxy.
  - rewrite reduced. rewrite <- Hxy in Hlo. pose proof (round64_relative x Hlo) as H.
    set (c := round64 x) in *. clearbody c. now rewrite Hxy in H.
Qed.

Lemma binary64_integer (z : Z) :
  (Z.abs z <= 2 ^ 53)%Z → binary64 (inject_Z z) = Fin (Q2Qc (inject_Z z)).
Proof.
  intros Hz. rewrite binary64_finite.
  - f_equal. apply Qc_is_canon. rewrite reduced.
    change (this (Q2Qc (inject_Z z))) with (Qred (inject_Z z)).
    rewrite Qred_correct. now apply round64_integer.
  - change (Qabs (inject_Z z)) with (inject_Z (Z.abs z)).
    eapply Qle_trans; [ | apply (two_le 53 1023); lia].
    rewrite <- (two_Z 53) by lia. now rewrite <- Zle_Qle.
Qed.

Lemma binary64_zero (x : Q) : x == 0 → binary64 x = Fin (Q2Qc 0).
Proof.
  intros Hx. rewrite binary64_finite.
  - f_equal. apply Qc_is_canon. rewrite reduced.
    change (this (Q2Qc 0)) with 0. now apply round64_zero.
  - rewrite Hx. change (Qabs 0) with 0. apply Qlt_le_weak, two_pos.
Qed.


(** *** The rounded operations on finite numbers *)


Lemma this_mul (a b : Qc) : this (a * b)%Qc == a * b.
Proof. apply Qred_correct. Qed.

Lemma this_div (a b : Qc) : this (a / b)%Qc == a / b.
Proof.
  unfold Qcdiv, Qcinv. etransitivity; [apply Qred_correct | ].
  unfold Qdiv. apply Qmult_comp; [reflexivity | apply Qred_correct].
Qed.

Lemma nonzero_sign (c : Qc) : ¬ c == 0 → sign c = Some (s_leb zero c).
Proof.
  intros Hc. unfold sign.
  destruct (s_eqb c zero) eqn:Heq; [ | reflexivity].
  apply Qeq_bool_iff in Heq. destruct Hc. exact Heq.
Qed.

Lemma add_binary64 (a b : Qc) : (Fin a + Fin b)%js = binary64 (a + b)%Qc.
Proof. reflexivity. Qed.

Lemma mul_binary64 (a b : Qc) : (Fin a * Fin b)%js = binary64 (a * b)%Qc.
Proof. reflexivity. Qed.

Lemma div_binary64 (a b : Qc) :
  ¬ b == 0 → (Fin a / Fin b)%js = binary64 (a / b)%Qc.
Proof. intros Hb. cbn [div]. now rewrite (nonzero_sign b Hb). Qed.

Lemma Qred_inject_Z (z : Z) : Qred (inject_Z z) = inject_Z z.
Proof. apply Qred_identity. apply Z.gcd_1_r. Qed.

(** Exact results that are integers up to 2^53 are not rounded. *)
Lemma add_of_Z (y z : Z) :
  (Z.abs (y + z) <= 2 ^ 53)%Z → ((of_Z y : number Qc) + of_Z z)%js = of_Z (y + z).
Proof.
  intros H. unfold of_Z. rewrite add_binary64.
  assert (Heq : this (Q2Qc (inject_Z y) + Q2Qc (inject_Z z))%Qc = inject_Z (y + z)).
  { rewrite <- (Qred_inject_Z (y + z)).
    change (Qred (Q2Qc (inject_Z y) + Q2Qc (inject_Z z)) = Qred (inject_Z (y + z))).
    apply Qred_complete. cbn [this Q2Qc].
    rewrite !Qred_correct, inject_Z_plus. reflexivity. }
  cbn [of_Q Qc_scalar]. rewrite Heq. now apply binary64_integer.
Qed.

(** *** Relative error along a chain of operations *)

Lemma near_exact (x : Q) : near 0 x x.
Proof.
  unfold near. setoid_replace (x - x) with 0 using relation Qeq by ring.
  change (Qabs 0) with 0. Lqa.lra.
Qed.

Lemma near_eq (e x y a : Q) : x == y → near e x a → near e y a.
Proof. unfold near. now intros ->. Qed.

Lemma near_weaken (e e' x a : Q) : e <= e' → near e x a → near e' x a.
Proof.
  unfold near. intros He H. eapply Qle_trans; [exact H | ].
  apply Qmult_le_compat_r; [exact He | apply Qabs_nonneg].
Qed.

Lemma near_mul (e x a c : Q) : near e x a → near e (x * c) (a * c).
Proof.
  unfold near. intros H.
  setoid_replace (a * c - x * c) with ((a - x) * c) using relation Qeq by ring.
  rewrite !Qabs_Qmult, Qmult_assoc.
  apply Qmult_le_compat_r; [exact H | apply Qabs_nonneg].
Qed.

Lemma near_div (e x a c : Q) : near e x a → near e (x / c) (a / c).
Proof. apply near_mul. Qed.

Lemma magnitude_weaken (j k : Z) (x : Q) :
  (j <= k)%Z → magnitude j x → magnitude k x.
Proof.
  intros Hjk [Hlo Hhi]. split.
  - eapply Qle_trans; [apply (two_le (- k) (- j)); lia | exact Hlo].
  - eapply Qle_trans; [exact Hhi | now apply two_le].
Qed.

Lemma magnitude_eq (k : Z) (x y : Q) : x == y → magnitude k x → magnitude k y.
Proof. unfold magnitude. now intros ->. Qed.

Lemma magnitude_nonzero (k : Z) (x : Q) : magnitude k x → ¬ x == 0.
Proof.
  intros [Hlo _] Hx. rewrite Hx in Hlo. change (Qabs 0) with 0 in Hlo.
  pose proof (two_pos (- k)). Lqa.lra.
Qed.

Lemma mul_le_mul (p q a b : Q) :
  0 <= p → 0 <= q → p <= a → q <= b → p * q <= a * b.
Proof.
  intros Hp Hq Ha Hb. apply Qle_trans with (a * q).
  - apply Qmult_le_compat_r; assumption.
  - rewrite !(Qmult_comm a). apply Qmult_le_compat_r; [assumption | Lqa.lra].
Qed.

Lemma magnitude_mul (j k : Z) (x y : Q) :
  magnitude j x → magnitude k y → magnitude (j + k) (x * y).
Proof.
  intros [Hxl Hxh] [Hyl Hyh]. unfold magnitude. rewrite Qabs_Qmult.
  replace (- (j + k))%Z with (- j + - k)%Z by lia.
  rewrite !Qpower_plus by discriminate.
  pose proof (two_pos (- j)). pose proof (two_pos (- k)).
  pose proof (Qabs_nonneg x). pose proof (Qabs_nonneg y).
  split; apply mul_le_mul; Lqa.lra.
Qed.

Lemma magnitude_inv (k : Z) (x : Q) : magnitude k x → magnitude k (/ x).
Proof.
  intros [Hlo Hhi]. unfold magnitude. rewrite Qabs_Qinv.
  pose proof (two_pos (- k)) as Hk. pose proof (two_pos k) as Hk'.
  assert (Hx : 0 < Qabs x) by Lqa.lra.
  assert (Hinv : 2 ^ (- k) == / 2 ^ k) by apply Qpower_opp.
  assert (Hinv' : 2 ^ k == / 2 ^ (- k)).
  { rewrite Qpower_opp, Qinv_involutive. reflexivity. }
  split.
  - rewrite Hinv. apply Qle_shift_inv_l; [exact Hx | ].
    rewrite <- Hinv. 
    apply Qle_trans with (2 ^ (- k) * 2 ^ k).
    + rewrite !(Qmult_comm (2 ^ (- k))). apply Qmult_le_compat_r; Lqa.lra.
    + rewrite <- Qpower_plus by discriminate.
      replace (- k + k)%Z with 0%Z by lia. apply Qle_refl.
  - rewrite Hinv'. apply Qle_shift_inv_r; [exact Hx | ].
    rewrite <- Hinv'.
    apply Qle_trans with (2 ^ k * 2 ^ (- k)).
    + rewrite <- Qpower_plus by discriminate.
      replace (k + - k)%Z with 0%Z by lia. apply Qle_refl.
    + rewrite !(Qmult_comm (2 ^ k)). apply Qmult_le_compat_r; Lqa.lra.
Qed.

Lemma magnitude_div (j k : Z) (x y : Q) :
  magnitude j x → magnitude k y → magnitude (j + k) (x / y).
Proof. intros Hx Hy. apply magnitude_mul; [exact Hx | now apply magnitude_inv]. Qed.

(** One more rounding after a chain of relative error [e]. *)
Lemma near_round (e x y : Q) (c : Qc) :
  0 <= e → e <= 1 # 4 → near e x y →
  Qabs (c - y) <= 2 ^ (-53) * Qabs y →
  near (e + 2 ^ (-52)) x c.
Proof.
  unfold near. intros He0 He Hy Hc.
  change (-52)%Z with (-53 + 1)%Z. rewrite two_succ.
  pose proof (two_pos (-53)) as Hu.
  set (u := 2 ^ (-53)) in *. clearbody u.
  assert (Hex : e * Qabs x <= (1 # 4) * Qabs x).
  { apply Qmult_le_compat_r; [exact He | apply Qabs_nonneg]. }
  assert (Hyx : Qabs y <= (5 # 4) * Qabs x).
  { revert Hy Hex. generalize (e * Qabs x). intros t Hy Hex. absolute; Lqa.lra. }
  assert (Huy : u * Qabs y <= u * ((5 # 4) * Qabs x)).
  { apply Qmult_le_l; assumption. }
  generalize dependent (this c). intros c' Hc.
  absolute; Lqa.lra.
Qed.

(** The size of a value that is near one of known size. *)
Lemma near_size (e x y : Q) :
  e <= 1 # 4 → near e x y → magnitude 1021 x →
  2 ^ (-1022) <= Qabs y ∧ Qabs y <= 2 ^ 1023.
Proof.
  unfold near. intros He Hy [Hlo Hhi].
  assert (Hex : e * Qabs x <= (1 # 4) * Qabs x).
  { apply Qmult_le_compat_r; [exact He | apply Qabs_nonneg]. }
  assert (Hlo' : 2 * 2 ^ (-1022) <= Qabs x) by (rewrite <- two_succ; exact Hlo).
  clear Hlo. change 1023%Z with (1021 + 1 + 1)%Z. rewrite !two_succ.
  pose proof (two_pos (-1022)). pose proof (two_pos 1021).
  revert Hy Hex. generalize (e * Qabs x). intros t Hy Hex.
  generalize dependent (2 ^ (-1022)). generalize dependent (2 ^ 1021). intros.
  split; absolute; Lqa.lra.
Qed.

(** A product, and a quotient, of a value near [x]. *)
Lemma mul_near (e x : Q) (a c : Qc) :
  0 <= e → e <= 1 # 4 → near e x a → magnitude 1021 (x * c) →
  ∃ a' : Qc, (Fin a * Fin c)%js = Fin a' ∧ near (e + 2 ^ (-52)) (x * c) a'.
Proof.
  intros He0 He Ha Hm. rewrite mul_binary64.
  pose proof (near_mul e x a c Ha) as Hac.
  destruct (near_size _ _ _ He Hac Hm) as [Hlo Hhi].
  destruct (binary64_near (a * c)%Qc (a * c) (this_mul a c) Hlo Hhi) as (a' & -> & Hr).
  exists a'. split; [reflexivity | ].
  now apply (near_round e (x * c) (a * c)).
Qed.

Lemma div_near (e x : Q) (a c : Qc) :
  0 <= e → e <= 1 # 4 → near e x a → ¬ c == 0 → magnitude 1021 (x / c) →
  ∃ a' : Qc, (Fin a / Fin c)%js = Fin a' ∧ near (e + 2 ^ (-52)) (x / c) a'.
Proof.
  intros He0 He Ha Hc Hm. rewrite div_binary64 by exact Hc.
  pose proof (near_div e x a c Ha) as Hac.
  destruct (near_size _ _ _ He Hac Hm) as [Hlo Hhi].
  destruct (binary64_near (a / c)%Qc (a / c) (this_div a c) Hlo Hhi) as (a' & -> & Hr).
  exists a'. split; [reflexivity | ].
  now apply (near_round e (x / c) (a / c)).
Qed.

(** Zero times, or divided by, a finite number that is not zero. *)
Lemma mul_zero (c : Qc) : (Fin (Q2Qc 0) * Fin c)%js = Fin (Q2Qc 0).
Proof.
  rewrite mul_binary64. apply binary64_zero. rewrite this_mul.
  change (this (Q2Qc 0)) with 0. ring.
Qed.

Lemma div_zero (c : Qc) : ¬ c == 0 → (Fin (Q2Qc 0) / Fin c)%js = Fin (Q2Qc 0).
Proof.
  intros Hc. rewrite div_binary64 by exact Hc. apply binary64_zero.
  rewrite this_div. change (this (Q2Qc 0)) with 0. unfold Qdiv. ring.
Qed.

(** *** Finite results of bounded size *)








(** A product, and a quotient, that stay below 2^1023. *)
Lemma mul_close (a b : Qc) :
  Qabs (a * b) <= 2 ^ 1023 →
  ∃ c : Qc, (Fin a * Fin b)%js = Fin c
            ∧ Qabs (c - a * b) <= 2 ^ (-53) * Qabs (a * b) + 2 ^ (-1075).
Proof.
  intros H. rewrite mul_binary64.
  exact (binary64_close (a * b)%Qc (a * b) (this_mul a b) H).
Qed.

Lemma div_close (a b : Qc) :
  ¬ b == 0 → Qabs (a / b) <= 2 ^ 1023 →
  ∃ c : Qc, (Fin a / Fin b)%js = Fin c
            ∧ Qabs (c - a / b) <= 2 ^ (-53) * Qabs (a / b) + 2 ^ (-1075).
Proof.
  intros Hb H. rewrite div_binary64 by exact Hb.
  exact (binary64_close (a / b)%Qc (a / b) (this_div a b) H).
Qed.

(** [Math.round] is exact: the integer it returns is within a half. *)
Lemma Qfloor_half (a : Qc) :
  let n := Qfloor (a + Q2Qc 0.5)%Qc in
  a - 0.5 < inject_Z n ∧ inject_Z n <= a + 0.5.
Proof.
  cbn zeta.
  assert (Heq : this (a + Q2Qc 0.5)%Qc == a + 0.5).
  { cbn. rewrite Qred_correct. apply Qplus_comp; [reflexivity | apply Qred_correct]. }
  pose proof (Qfloor_le (a + Q2Qc 0.5)%Qc) as Hle.
  pose proof (Qlt_floor (a + Q2Qc 0.5)%Qc) as Hlt.
  rewrite inject_Z_plus in Hlt.
  set (x := this (a + Q2Qc 0.5)%Qc) in *. clearbody x.
  change (inject_Z 1) with 1%Q in Hlt. split; Lqa.lra.
Qed.

Lemma Math_round_Fin (a : Qc) :
  Math_round (Fin a) = of_Z (Qfloor (a + Q2Qc 0.5)%Qc).
Proof. reflexivity. Qed.
End Binary64.


(** ** Touch target size checker *)

Section TouchTargetProperties.
Import Str TouchTarget.

Lemma checkSize_compliant width height :
  size_compliant (checkSize width height) = true
  ↔ meets width 44 ∧ meets height 44.
Proof.
  unfold checkSize, WCAG_MINIMUM_SIZE; cbn [size_compliant].
  rewrite andb_true_iff.
  destruct width as [| | |w], height as [| | |h]; cbn [meets];
    rewrite ?ge_of_Z; try (cbn; intuition (try discriminate; auto); fail).
Qed.

Lemma guard_unusable width height :
  guard width height = true ↔ unusable width ∨ unusable height.
Proof.
  assert (Hf : ∀ v, falsy v || isNaN_value v = true ↔ unusable v).
  { intros [[| | |q]|]; unfold unusable; cbn -[of_Z truthy].
    - intuition.
    - intuition discriminate.
    - intuition discriminate.
    - rewrite orb_false_r, negb_true_iff, truthy_Fin. split.
      + intros ->. now right; right.
      + intros [H|[H|H]]; [discriminate.. | ]. now inversion H.
    - intuition. }
  unfold guard. rewrite <- !Hf, !orb_true_iff. tauto.
Qed.

(** [main] is [parseDimensions] followed by the two checks. *)
Lemma main_parseDimensions JSON_parse argv :
  main JSON_parse argv =
  d ← parseDimensions JSON_parse (parseArgs argv);
  let sizeCheck := checkSize (width d) (height d) in
  let spacingCheck := checkSpacing (spacing d) in
  let recommendations := generateRecommendations sizeCheck spacingCheck in
  mret (if bool_decide (is_Some (opt (parseArgs argv) "json"))
        then JsonDocument (formatResult sizeCheck spacingCheck
                             recommendations (element d))
        else Report sizeCheck spacingCheck recommendations (element d)).
Proof.
  unfold main. destruct (parseDimensions _ _); cbn; try reflexivity.
  now destruct (bool_decide _).
Qed.

(** C6: the size check is compliant exactly when the width and the
    height are both at least 44; [checkSpacing] of an absent spacing
    ([null]) answers [null] (unknown), neither [true] nor [false]; and
    whenever [parseDimensions] succeeds, [main] prints these two fields,
    in the JSON document and in the report alike. *)
Theorem C6_size_compliance_and_unknown_spacing :
  (∀ width height,
      size_compliant (checkSize width height) = true
      ↔ meets width 44 ∧ meets height 44)
  ∧ spacing_compliant (checkSpacing None) = None
  ∧ (∀ JSON_parse argv d,
        parseDimensions JSON_parse (parseArgs argv) = Done d →
        ∃ out, main JSON_parse argv = Done out
          ∧ reported_size out = size_compliant (checkSize (width d) (height d))
          ∧ reported_spacing out = spacing_compliant (checkSpacing (spacing d))).
Proof.
  split; [exact checkSize_compliant | split; [reflexivity | ]].
  intros JSON_parse argv d Hd.
  rewrite main_parseDimensions, Hd. cbn.
  destruct (bool_decide _); eexists; (split; [reflexivity | split; reflexivity]).
Qed.

Lemma C6_witness :
  ∃ out, main (λ _, None) ["--width"; "48"; "--height"; "40"]%string = Done out
    ∧ reported_size out = false ∧ reported_spacing out = None.
Proof.
  destruct C6_size_compliance_and_unknown_spacing as (_ & _ & H).
  destruct (H (λ _, None) ["--width"; "48"; "--height"; "40"]%string
              {| width := of_Z 48; height := of_Z 40; spacing := None;
                 element := "interactive element" |})
    as (out & Hmain & Hsize & Hspacing).
  - vm_compute. reflexivity.
  - exists out. split; [exact Hmain | split].
    + rewrite Hsize. vm_compute. reflexivity.
    + rewrite Hspacing. reflexivity.
Defined.

(** C10: when the width or the height that reaches the guard of
    [parseDimensions] is missing ([null]), is not a number ([NaN]) or is
    zero, [parseDimensions] leaves with [process.exit(1)] after the usage
    message, and so does [main]: no compliance is evaluated, and a zero
    dimension is handled as a missing one. *)
Theorem C10_unusable_dimension_exits
    JSON_parse argv width height spacing element :
  read_dimensions JSON_parse (parseArgs argv)
    = Done (width, height, spacing, element) →
  unusable width ∨ unusable height →
  parseDimensions JSON_parse (parseArgs argv) = Exit 1 Usage
  ∧ main JSON_parse argv = Exit 1 Usage.
Proof.
  intros Hread Hbad. apply guard_unusable in Hbad.
  assert (Hp : parseDimensions JSON_parse (parseArgs argv) = Exit 1 Usage).
  { unfold parseDimensions. now rewrite Hread, Hbad. }
  split; [exact Hp | ].
  now rewrite main_parseDimensions, Hp.
Qed.

Lemma C10_witness :
  main (λ _, None) ["--width"; "0"; "--height"; "48"]%string = Exit 1 Usage.
Proof.
  refine (proj2 (C10_unusable_dimension_exits (λ _, None)
            ["--width"; "0"; "--height"; "48"]%string
            (Some (of_Z 0)) (Some (of_Z 48)) None None _ _)).
  - vm_compute. reflexivity.
  - left. right. right. reflexivity.
Defined.

(** Without [--spacing] and without [--json], the spacing is [null]. *)
Lemma absent_spacing_is_null JSON_parse options d :
  options !! "spacing"%string = None →
  options !! "json"%string = None →
  parseDimensions JSON_parse options = Done d →
  spacing d = None.
Proof.
  intros Hspacing Hjson. unfold parseDimensions, read_dimensions, opt.
  rewrite Hspacing, Hjson. cbn [fmap option_fmap option_map].
  intros H. repeat case_match; simplify_eq; reflexivity.
Qed.

(** The converse: the usage exit is taken for no other reason. *)
Lemma usable_dimensions_proceed
    JSON_parse argv width height spacing element :
  read_dimensions JSON_parse (parseArgs argv)
    = Done (width, height, spacing, element) →
  ¬ (unusable width ∨ unusable height) →
  ∃ out, main JSON_parse argv = Done out.
Proof.
  intros Hread Hok. rewrite <- guard_unusable in Hok.
  apply not_true_is_false in Hok.
  rewrite main_parseDimensions. unfold parseDimensions.
  rewrite Hread, Hok. cbn. eauto.
Qed.

(** The example of the specification: 40 by 40 fails the size check with
    one remediation message for the width and one for the height (the
    third message is about the spacing, which is not given). *)
Example main_40_by_40 :
  main (λ _, None) ["--width"; "40"; "--height"; "40"]%string
  = Done
      (Report
         (checkSize (of_Z 40) (of_Z 40))
         (checkSpacing None)
         [[Text "Increase width to at least "; Value (of_Z 44);
           Text "px (currently "; Value (of_Z 40); Text "px)"];
          [Text "Increase height to at least "; Value (of_Z 44);
           Text "px (currently "; Value (of_Z 40); Text "px)"];
          [Text "Consider providing at least "; Value (of_Z 8);
           Text "px spacing between adjacent interactive elements"]]
         "interactive element")
  ∧ size_compliant (checkSize (of_Z 40) (of_Z 40)) = false.
Proof. split; vm_compute; reflexivity. Qed.
End TouchTargetProperties.

(** ** JavaScript sets *)

Section SetOf.
Context {A : Type} `{EqDecision A}.
Implicit Types l : list A.

Lemma elem_of_Set_of l x : x ∈ Set_of l ↔ x ∈ l.
Proof.
  induction l as [|y l IH]; cbn; [reflexivity | ].
  rewrite !elem_of_cons, list_elem_of_filter, IH.
  destruct (decide (x = y)); intuition.
Qed.

Lemma length_Set_of l : (length (Set_of l) ≤ length l)%nat.
Proof.
  induction l as [|y l IH]; cbn; [lia | ].
  pose proof (length_filter (λ z, z ≠ y) (Set_of l)). lia.
Qed.

Lemma NoDup_Set_of l : NoDup (Set_of l).
Proof.
  induction l as [|y l IH]; cbn; constructor.
  - rewrite list_elem_of_filter. tauto.
  - now apply NoDup_filter.
Qed.

Lemma filter_all (P : A → Prop) `{∀ x, Decision (P x)} l :
  (∀ x, x ∈ l → P x) → filter P l = l.
Proof.
  induction l as [|y l IH]; intros Hall; [reflexivity | ].
  rewrite filter_cons_True by (apply Hall; left).
  f_equal. apply IH. intros x Hx. apply Hall. now right.
Qed.

Lemma Set_of_NoDup l : NoDup l → Set_of l = l.
Proof.
  induction 1 as [|y l Hy Hl IH]; cbn; [reflexivity | ].
  rewrite IH. f_equal. apply filter_all. now intros z Hz ->.
Qed.

(** The size of [new Set(l)] is the length of [l] exactly when no value
    occurs twice in [l]. *)
Lemma size_Set_of l : length (Set_of l) = length l ↔ NoDup l.
Proof.
  split; [ | intros H; now rewrite Set_of_NoDup].
  induction l as [|y l IH]; cbn; [constructor | ].
  intros Hlen.
  pose proof (length_filter (λ z, z ≠ y) (Set_of l)) as Hf.
  pose proof (length_Set_of l) as Hs.
  assert (Hl : length (Set_of l) = length l) by lia.
  constructor; [ | auto].
  intros Hy. apply elem_of_Set_of in Hy.
  assert (Hlt : (length (filter (λ z, z ≠ y) (Set_of l)) < length (Set_of l))%nat).
  { apply length_filter_lt with y; auto. }
  lia.
Qed.
End SetOf.

(** ** Focus order validator *)

Section FocusOrderProperties.
Import Str FocusOrder.

(** The issues of [validateLogicalOrder] are three optional issues about
    the expected order, the header and the footer, followed by the
    duplicate issue when the set of indices is smaller than the list. *)
Lemma validateLogicalOrder_issues elements tabOrder expectedOrder :
  let v := validateLogicalOrder elements tabOrder expectedOrder in
  issues v
  = filter (λ issue, issue ≠ duplicate_issue) (issues v)
    ++ (if negb (length (Set_of tabOrder) =? length tabOrder)%nat
        then [duplicate_issue] else [])
  ∧ logical v = (length (issues v) =? 0)%nat.
Proof.
  unfold validateLogicalOrder.
  set (elementTypes := map _ elements).
  destruct expectedOrder as [expected|];
    [destruct (negb (bool_decide _)) | ];
    (destruct (indexOf elementTypes "header") as [h|];
     destruct (indexOf elementTypes "main") as [m|];
     destruct (indexOf elementTypes "footer") as [f|];
     try destruct (at_number tabOrder h >? at_number tabOrder m)%js;
     try destruct (at_number tabOrder f <? at_number tabOrder m)%js;
     destruct (negb (length (Set_of tabOrder) =? length tabOrder)%nat);
     split; reflexivity).
Qed.

Lemma validateLogicalOrder_duplicates elements tabOrder expectedOrder :
  let v := validateLogicalOrder elements tabOrder expectedOrder in
  (¬ NoDup tabOrder → duplicate_issue ∈ issues v ∧ logical v = false)
  ∧ (NoDup tabOrder → duplicate_issue ∉ issues v).
Proof.
  destruct (validateLogicalOrder_issues elements tabOrder expectedOrder)
    as [Hissues Hlogical].
  cbn zeta in *. rewrite Hlogical, Hissues. clear Hissues Hlogical.
  set (earlier := filter _ _).
  assert (Hnot : duplicate_issue ∉ earlier).
  { unfold earlier. rewrite list_elem_of_filter. tauto. }
  pose proof (size_Set_of tabOrder) as Hsize.
  destruct (Nat.eqb_spec (length (Set_of tabOrder)) (length tabOrder)) as [Heq|Hne];
    cbn [negb].
  - split; [intros Hdup; tauto | intros _].
    now rewrite app_nil_r.
  - split; [intros _ | intros Hnd; tauto].
    split; [apply elem_of_app; right; now left | ].
    rewrite length_app. cbn. apply Nat.eqb_neq. lia.
Qed.

Lemma checkCompleteness_no_duplicate_issue elements tabOrder :
  duplicate_issue ∉ fst (checkCompleteness elements tabOrder).
Proof.
  unfold checkCompleteness.
  destruct (negb _), (has_gaps _); cbn;
    rewrite ?elem_of_cons, elem_of_nil; unfold duplicate_issue;
    intuition discriminate.
Qed.

(** C9: when a tab index occurs twice in the tab order,
    [validateLogicalOrder] reports the duplicate-index issue (a possible
    focus trap) and its [logical] field is [false]; when the indices are
    pairwise distinct the issue is not reported.  The validation [main]
    prints says the same, for every input [parseInput] accepts. *)
Theorem C9_duplicate_tab_indices :
  (∀ elements tabOrder expectedOrder,
      let v := validateLogicalOrder elements tabOrder expectedOrder in
      (¬ NoDup tabOrder → duplicate_issue ∈ issues v ∧ logical v = false)
      ∧ (NoDup tabOrder → duplicate_issue ∉ issues v))
  ∧ (∀ JSON_parse argv i,
        parseInput JSON_parse (parseArgs argv) = Done i →
        ∃ v, main JSON_parse argv = Done v
          ∧ (¬ NoDup (tabOrder i) →
             duplicate_issue ∈ issues v ∧ logical v = false)
          ∧ (NoDup (tabOrder i) → duplicate_issue ∉ issues v)).
Proof.
  split; [exact validateLogicalOrder_duplicates | ].
  intros JSON_parse argv i Hi. unfold main. rewrite Hi.
  eexists. split; [reflexivity | ]. cbn [issues logical].
  destruct (validateLogicalOrder_duplicates (elements i) (tabOrder i)
              (expectedOrder i)) as [Hdup Hnodup].
  cbn zeta in *.
  pose proof (checkCompleteness_no_duplicate_issue (elements i) (tabOrder i)).
  split.
  - intros Hd. destruct (Hdup Hd) as [Hin ->].
    split; [apply elem_of_app; now left | reflexivity].
  - intros Hnd. rewrite elem_of_app. specialize (Hnodup Hnd). tauto.
Qed.

Lemma C9_witness :
  duplicate_issue
    ∈ issues (validateLogicalOrder ["header"; "main"; "footer"]%string
                [of_Z 1; of_Z 2; of_Z 2] None)
  ∧ logical (validateLogicalOrder ["header"; "main"; "footer"]%string
               [of_Z 1; of_Z 2; of_Z 2] None) = false.
Proof.
  refine (proj1 (proj1 C9_duplicate_tab_indices
                   ["header"; "main"; "footer"]%string
                   [of_Z 1; of_Z 2; of_Z 2] None) _).
  intros Hnd. apply NoDup_cons in Hnd as [_ Hnd].
  apply NoDup_cons in Hnd as [Hin _]. apply Hin. now left.
Defined.

(** The example of the specification: header, main, footer in the order
    1, 2, 3 is logical and complete, with no issue. *)
Example main_header_main_footer :
  main (λ _, None) ["--elements"; "header,main,footer"; "--tab-order"; "1,2,3"]%string
  = Done {| logical := true; complete := true; issues := [];
            recommendations := [] |}.
Proof. vm_compute. reflexivity. Qed.
End FocusOrderProperties.

(** ** Motion tester *)

Section MotionProperties.
Import Str Motion.

Lemma testFlashing_compliant flashes :
  flashes ≠ NaN →
  compliant (testFlashing flashes) = false ↔ exceeds flashes 3.
Proof.
  intros Hnum. unfold testFlashing, MAX_FLASHES_PER_SECOND.
  destruct flashes as [| | |q]; [congruence | cbn; tauto | cbn; intuition discriminate | ].
  destruct (Fin q <=? of_Z 3)%js eqn:Hle; cbn [compliant exceeds].
  - apply le_of_Z in Hle.
    split; [discriminate | intros Hlt]. now apply Qlt_not_le in Hlt.
  - split; [intros _ | reflexivity]. apply Qnot_le_lt. intros Hq.
    apply le_of_Z in Hq. congruence.
Qed.

(** C7: for every flash rate that is a number, the flashing check of
    [assessAnimation] is non-compliant exactly when the rate is more than
    3 flashes per second, whatever the duration, the category label and
    the reduced-motion preference are; [testFlashing] alone says the
    same. *)
Theorem C7_flashing_threshold duration type flashes reducedMotion :
  flashes ≠ NaN →
  (c_flashing (a_compliance (assessAnimation duration type flashes reducedMotion))
     = false ↔ exceeds flashes 3)
  ∧ (compliant (testFlashing flashes) = false ↔ exceeds flashes 3).
Proof.
  intros Hnum. split; [ | now apply testFlashing_compliant].
  unfold assessAnimation. cbn [a_compliance c_flashing].
  now apply testFlashing_compliant.
Qed.

Lemma C7_witness :
  c_flashing (a_compliance (assessAnimation (of_Z 2) "fade" (of_Z 4) false))
    = false ↔ exceeds (of_Z 4) 3.
Proof.
  refine (proj1 (C7_flashing_threshold (of_Z 2) "fade" (of_Z 4) false _)).
  discriminate.
Defined.

(** A flash rate that is not a number (as [--flashes abc] gives) is
    reported non-compliant as well: [NaN <= 3] is false. *)
Lemma testFlashing_NaN : compliant (testFlashing NaN) = false.
Proof. reflexivity. Qed.

(** The example of the specification: a carousel of 6 seconds without
    flashes fails the duration check, with the pause-control
    recommendation; flashing and reduced motion pass. *)
Example assess_carousel :
  let a := assessAnimation (of_Z 6) "carousel" (of_Z 0) false in
  a_compliance a
  = {| c_reducedMotion := true; c_flashing := true; c_duration := false |}
  ∧ [Text "Provide pause/stop controls or reduce duration to under 5 seconds"]
    ∈ a_recommendations a.
Proof. split; [vm_compute; reflexivity | vm_compute; set_solver]. Qed.
End MotionProperties.

(** ** Skill metadata build *)

Section BuildProperties.
Import Str Build.
Open Scope string_scope.

Lemma reducer_categorized acc skill :
  categorized acc → categorized (reducer acc skill).
Proof.
  intros Hacc name' e. unfold reducer.
  destruct (String.eqb (name skill) "__proto__"); [apply Hacc | ].
  rewrite lookup_insert. case_decide as Hname.
  - intros [= <-]. now rewrite <- Hname.
  - apply Hacc.
Qed.

Lemma foldl_reducer_categorized skills acc :
  categorized acc → categorized (foldl reducer acc skills).
Proof.
  revert acc. induction skills as [|skill skills IH]; intros acc Hacc; cbn.
  - exact Hacc.
  - apply IH. now apply reducer_categorized.
Qed.

Lemma generateSkillsConfig_categorized now skills :
  categorized (Build.skills (generateSkillsConfig now skills)).
Proof. apply foldl_reducer_categorized. intros name e. now rewrite lookup_empty. Qed.

(** C2 (amended): every entry of the generated configuration has a
    category that depends on its name alone: "tools" when the name ends
    in a tool suffix, otherwise "deep" when it contains "-deep",
    otherwise "router" when it starts with "wcag-", and "other" for
    every remaining name. *)
Theorem C2_category_from_name now skills name e :
  Build.skills (generateSkillsConfig now skills) !! name = Some e →
  category e =
    if is_tool name then "tools"
    else if includes "-deep" name then "deep"
    else if startsWith "wcag-" name then "router"
    else "other".
Proof. intros H. now apply generateSkillsConfig_categorized in H. Qed.

Lemma C2_witness :
  ∃ e, Build.skills (generateSkillsConfig "2026-01-01" [aria_basics]) !! "aria-basics" = Some e
       ∧ category e = "other".
Proof.
  eexists. split; [vm_compute; reflexivity | ].
  refine (C2_category_from_name "2026-01-01" [aria_basics] "aria-basics" _ _).
  vm_compute. reflexivity.
Defined.

(** C2 as stated fails: the skill named aria-basics is written with the
    category "other", not "router". *)
Lemma C2_counterexample :
  ¬ (∀ now skills name e,
        Build.skills (generateSkillsConfig now skills) !! name = Some e →
        category e =
          if is_tool name then "tools"
          else if includes "-deep" name then "deep"
          else "router").
Proof.
  intros H.
  specialize (H "2026-01-01" [aria_basics] "aria-basics"
                {| e_description := "ARIA roles and states";
                   e_directory := "aria-basics"; category := "other" |}).
  discriminate H. vm_compute. reflexivity.
Qed.
End BuildProperties.

(** ** Font size converter *)

Section FontSizeProperties.
Import Str FontSize.
Implicit Types (b f : Qc) (u t : string).

(** The ratio 1.333 as a binary64 value. *)
Lemma ratio_finite : ∃ f, PT_TO_PX_RATIO = Fin f ∧ magnitude 300 f.
Proof.
  unfold PT_TO_PX_RATIO, lit. cbn [s_number of_Q Qc_scalar].
  eexists. split.
  - apply binary64_finite. vm_compute. discriminate.
  - split; vm_compute; discriminate.
Qed.

Lemma factor_finite u b :
  magnitude 300 b → ∃ f, factor u (Fin b) = Fin f ∧ magnitude 300 f.
Proof.
  intros Hb. unfold factor.
  destruct (String.eqb u "pt"); [apply ratio_finite | ].
  destruct (String.eqb u "em" || String.eqb u "rem"); [eauto | ].
  eexists. split; [reflexivity | split; vm_compute; discriminate].
Qed.

(** [toPixels] multiplies by the factor of the unit and [fromPixels]
    divides by it. *)
Lemma toPixels_factor (value base : number Qc) u :
  toPixels value u base = value ∧ factor u base = of_Z 1
  ∨ toPixels value u base = (value * factor u base)%js.
Proof.
  unfold toPixels, factor.
  destruct (String.eqb u "px") eqn:Hpx.
  - apply String.eqb_eq in Hpx as ->. left. split; reflexivity.
  - destruct (String.eqb u "pt"); [now right | ].
    destruct (String.eqb u "em" || String.eqb u "rem"); [now right | now left].
Qed.

Lemma fromPixels_factor (pxValue base : number Qc) t :
  fromPixels pxValue t base = pxValue ∧ factor t base = of_Z 1
  ∨ fromPixels pxValue t base = (pxValue / factor t base)%js.
Proof.
  unfold fromPixels, factor.
  destruct (String.eqb t "px") eqn:Hpx.
  - apply String.eqb_eq in Hpx as ->. left. split; reflexivity.
  - destruct (String.eqb t "pt"); [now right | ].
    destruct (String.eqb t "em" || String.eqb t "rem"); [now right | now left].
Qed.

Lemma one_factor f : Fin f = of_Z 1 → (f == 1)%Q.
Proof. intros [= ->]. reflexivity. Qed.

Lemma toPixels_near (e x : Q) (a : Qc) u b f :
  (0 <= e)%Q → (e <= 1 # 4)%Q → near e x a →
  factor u (Fin b) = Fin f → magnitude 1021 (x * f) →
  ∃ a' : Qc, toPixels (Fin a) u (Fin b) = Fin a'
             ∧ near (e + 2 ^ (-52)) (x * f) a'.
Proof.
  intros He0 He Ha Hf Hm.
  destruct (toPixels_factor (Fin a) (Fin b) u) as [[-> H1]| ->]; rewrite Hf in *.
  - exists a. split; [reflexivity | ].
    apply one_factor in H1.
    apply (near_eq _ x); [rewrite H1; ring | ].
    apply (near_weaken e); [ | exact Ha].
    pose proof (two_pos (-52)). Lqa.lra.
  - now apply mul_near.
Qed.

Lemma fromPixels_near (e x : Q) (a : Qc) t b f :
  (0 <= e)%Q → (e <= 1 # 4)%Q → near e x a →
  factor t (Fin b) = Fin f → ¬ (f == 0)%Q → magnitude 1021 (x / f) →
  ∃ a' : Qc, fromPixels (Fin a) t (Fin b) = Fin a'
             ∧ near (e + 2 ^ (-52)) (x / f) a'.
Proof.
  intros He0 He Ha Hf Hne Hm.
  destruct (fromPixels_factor (Fin a) (Fin b) t) as [[-> H1]| ->]; rewrite Hf in *.
  - exists a. split; [reflexivity | ].
    apply one_factor in H1.
    apply (near_eq _ x); [rewrite H1; unfold Qdiv; change (/ 1)%Q with 1%Q; ring | ].
    apply (near_weaken e); [ | exact Ha].
    pose proof (two_pos (-52)). Lqa.lra.
  - now apply div_near.
Qed.

(** Zero is converted to zero. *)
Lemma toPixels_zero u b f :
  factor u (Fin b) = Fin f → toPixels (Fin (Q2Qc 0)) u (Fin b) = Fin (Q2Qc 0).
Proof.
  intros Hf.
  destruct (toPixels_factor (Fin (Q2Qc 0)) (Fin b) u) as [[-> _]| ->];
    [reflexivity | ].
  rewrite Hf. apply mul_zero.
Qed.

Lemma fromPixels_zero t b f :
  factor t (Fin b) = Fin f → ¬ (f == 0)%Q →
  fromPixels (Fin (Q2Qc 0)) t (Fin b) = Fin (Q2Qc 0).
Proof.
  intros Hf Hne.
  destruct (fromPixels_factor (Fin (Q2Qc 0)) (Fin b) t) as [[-> _]| ->];
    [reflexivity | ].
  rewrite Hf. now apply div_zero.
Qed.

(** C4 (amended): for every value [v] that is zero or of a size between
    2^-300 and 2^300, every base font size of a size between 2^-300 and
    2^300, and every pair of units [u], [t] (px, pt, em, rem; for any other
    name the conversions return their argument), converting [v] from [u] to
    [t] (through [toPixels] and [fromPixels]) and the result back from [t]
    to [u] returns a finite value within the relative error 2^-50 of [v]:
    each of the four binary64 operations on the way rounds once. *)
Theorem C4_round_trip (v : Qc) u t b :
  magnitude 300 b → v = Q2Qc 0 ∨ magnitude 300 v →
  ∃ v' : Qc, round_trip (Fin v) u t (Fin b) = Fin v' ∧ near (2 ^ (-50)) v v'.
Proof.
  intros Hb Hv.
  destruct (factor_finite u b Hb) as (fu & Hfu & Mu).
  destruct (factor_finite t b Hb) as (ft & Hft & Mt).
  pose proof (magnitude_nonzero _ _ Mu) as Nu.
  pose proof (magnitude_nonzero _ _ Mt) as Nt.
  unfold round_trip, performConversion. cbn [value unit outputValue].
  destruct Hv as [-> | Mv].
  - rewrite (toPixels_zero u b fu Hfu), (fromPixels_zero t b ft Hft Nt).
    rewrite (toPixels_zero t b ft Hft), (fromPixels_zero u b fu Hfu Nu).
    exists (Q2Qc 0). split; [reflexivity | apply near_weaken with 0%Q].
    + constants.
    + apply near_exact.
  - assert (M1 : magnitude 600 (v * fu)) by now apply (magnitude_mul 300 300).
    assert (M2 : magnitude 900 (v * fu / ft)) by now apply (magnitude_div 600 300).
    assert (E3 : (v * fu == v * fu / ft * ft)%Q) by now field.
    assert (E4 : (v == v * fu / ft * ft / fu)%Q) by (field; tauto).
    destruct (toPixels_near 0 v v u b fu) as (p1 & -> & H1);
      [constants | constants | apply near_exact | exact Hfu | | ].
    { now apply (magnitude_weaken 600). }
    destruct (fromPixels_near (0 + 2 ^ (-52)) (v * fu) p1 t b ft) as (p2 & -> & H2);
      [constants | constants | exact H1 | exact Hft | exact Nt | | ].
    { now apply (magnitude_weaken 900). }
    destruct (toPixels_near (0 + 2 ^ (-52) + 2 ^ (-52)) (v * fu / ft) p2 t b ft)
      as (p3 & -> & H3); [constants | constants | exact H2 | exact Hft | | ].
    { apply (magnitude_weaken 600); [lia | ]. now apply (magnitude_eq _ _ _ E3). }
    destruct (fromPixels_near (0 + 2 ^ (-52) + 2 ^ (-52) + 2 ^ (-52))
                (v * fu / ft * ft) p3 u b fu)
      as (p4 & -> & H4); [constants | constants | exact H3 | exact Hfu | exact Nu | | ].
    { apply (magnitude_weaken 300); [lia | ]. now apply (magnitude_eq _ _ _ E4). }
    exists p4. split; [reflexivity | ].
    apply (near_eq _ _ _ _ (Qeq_sym _ _ E4)).
    eapply near_weaken; [ | exact H4]. constants.
Qed.

Lemma C4_witness :
  ∃ v' : Qc, round_trip (of_Z 12) "pt" "rem" (of_Z 16) = Fin v'
             ∧ near (2 ^ (-50)) (Q2Qc (inject_Z 12)) v'.
Proof.
  apply (C4_round_trip (Q2Qc (inject_Z 12)) "pt" "rem" (Q2Qc (inject_Z 16))).
  - split; vm_compute; discriminate.
  - right. split; vm_compute; discriminate.
Defined.

(** C4 as stated fails for the base font size 0: 16px becomes
    [Infinity] in em, and converting that back gives [NaN]. *)
Lemma C4_counterexample :
  round_trip (of_Z 16) "px" "em" (of_Z 0) = NaN
  ∧ ¬ (∀ v u t base, u ∈ units → t ∈ units → round_trip v u t base = v).
Proof.
  assert (Hnan : round_trip (of_Z 16) "px" "em" (of_Z 0) = NaN)
    by (vm_compute; reflexivity).
  split; [exact Hnan | ].
  intros H. specialize (H (of_Z 16) "px" "em" (of_Z 0)).
  rewrite Hnan in H. discriminate H; vm_compute; set_solver.
Qed.

(** The command line reaches that conversion: [--base-font 0] is accepted. *)
Lemma zero_base_font_reaches_conversion :
  main (λ _, None) ["--from"; "16px"; "--to"; "em"; "--base-font"; "0"]%string
  = Done (performConversion {| value := of_Z 16; unit := "px" |} "em" (of_Z 0), None)
  ∧ outputValue (performConversion {| value := of_Z 16; unit := "px" |} "em" (of_Z 0)) = PInf.
Proof. split; vm_compute; reflexivity. Qed.

(** Neither is the round trip exact, nor does it stay finite for every
    finite value: 3px to pt and back is 3.0000000000000004, and the largest
    binary64 values in pt have no finite size in px. *)
Example round_trip_rounds :
  round_trip (of_Z 3) "px" "pt" (of_Z 16)
  = Fin (Q2Qc (6755399441055745 # 2251799813685248)).
Proof. vm_compute. reflexivity. Qed.

Example round_trip_overflows :
  round_trip (of_Z (7 * 2 ^ 1021)) "pt" "px" (of_Z 16) = PInf.
Proof. vm_compute. reflexivity. Qed.
End FontSizeProperties.

(** ** Colour-blindness simulator *)

Section ColorBlindnessProperties.
Import Str ColorBlindness.
Local Open Scope Q_scope.



(** What is clamped to an end of [0,1] is 0 or 255 exactly. *)
Lemma channel_ends (x : Qc) (z : Z) :
  channel x z → (x <= 0 → z = 0%Z) ∧ (1 <= x → z = 255%Z).
Proof.
  unfold channel, clamp. intros [_ H]. split; intros Hx.
  - apply Qle_bool_iff in Hx. rewrite Hx in H.
    assert (H44 : 2 ^ (-44) <= 1 # 4) by constants.
    assert (inject_Z (-1) < inject_Z z ∧ inject_Z z < inject_Z 1) as [H0 H1].
    { change (inject_Z (-1)) with (-1). change (inject_Z 1) with 1.
      generalize dependent (2 ^ (-44)). generalize dependent (inject_Z z). intros.
      split; absolute; Lqa.lra. }
    rewrite <- Zlt_Qlt in H0, H1. lia.
  - assert (Hx1 : Qle_bool 1 x = true) by now apply Qle_bool_iff.
    assert (Hx0 : Qle_bool x 0 = false).
    { apply not_true_iff_false. rewrite Qle_bool_iff. Lqa.lra. }
    rewrite Hx0, Hx1 in H.
    assert (H44 : 2 ^ (-44) <= 1 # 4) by constants.
    assert (inject_Z 254 < inject_Z z ∧ inject_Z z < inject_Z 256) as [H0 H1].
    { change (inject_Z 254) with 254. change (inject_Z 256) with 256.
      generalize dependent (2 ^ (-44)). generalize dependent (inject_Z z). intros.
      split; absolute; Lqa.lra. }
    rewrite <- Zlt_Qlt in H0, H1. lia.
Qed.







(** Pure red seen with protanopia. *)
Example simulate_red_protanopia :
  simulateColorBlindness {| r := of_Z 255; g := of_Z 0; b := of_Z 0 |} "protanopia"
  = inr {| r := of_Z 0; g := of_Z 103; b := of_Z 139 |}.
Proof. vm_compute. reflexivity. Qed.
End ColorBlindnessProperties.

(** ** Arithmetic on real numbers *)

Section RealNumbers.
Implicit Types a b x y : R.
Open Scope R_scope.

Lemma Q2R_inject_Z (z : Z) : Q2R (inject_Z z) = IZR z.
Proof. unfold Q2R. cbn. lra. Qed.

Lemma of_Z_real (z : Z) : (of_Z z : number R) = Fin (IZR z).
Proof. unfold of_Z. cbn. now rewrite Q2R_inject_Z. Qed.

Lemma zero_real : (zero : R) = 0.
Proof. unfold zero. cbn. unfold Q2R. cbn. lra. Qed.

Lemma le_real a b : (Fin a <=? Fin b)%js = true ↔ a <= b.
Proof. cbn. destruct (Rle_dec a b); intuition discriminate. Qed.

Lemma ge_real a b : (Fin a >=? Fin b)%js = true ↔ b <= a.
Proof. apply le_real. Qed.

Lemma sign_real a : a ≠ 0 → sign a = Some (s_leb zero a).
Proof.
  intros Ha. unfold sign. cbn -[zero]. rewrite zero_real.
  now destruct (Req_dec_T a 0).
Qed.

Lemma div_real a b : b ≠ 0 → (Fin a / Fin b)%js = Fin (a / b).
Proof. intros Hb. cbn [div]. now rewrite sign_real. Qed.

Lemma max_real a b : Math_max (Fin a) (Fin b) = Fin (Rmax a b).
Proof.
  unfold Math_max, Rmax. cbn.
  destruct (Rle_dec a b); reflexivity.
Qed.

Lemma min_real a b : Math_min (Fin a) (Fin b) = Fin (Rmin a b).
Proof.
  unfold Math_min, Rmin. cbn.
  destruct (Rle_dec a b); reflexivity.
Qed.

Lemma round_real a : Math_round (Fin a) = Fin (IZR (Zfloor (a + 0.5))).
Proof.
  unfold Math_round. rewrite of_Z_real. cbn.
  replace (Q2R 0.5) with 0.5; [reflexivity | ]. unfold Q2R; cbn; lra.
Qed.

(** An integer is below the floor of [y] exactly when it is below [y]. *)
Lemma le_Zfloor (k : Z) y : (k <= Zfloor y)%Z ↔ IZR k <= y.
Proof.
  split.
  - intros Hk. apply IZR_le in Hk. pose proof (Zfloor_bound y). lra.
  - apply Zfloor_lub.
Qed.

(** Bounds on [x] to the power 12/5 from bounds on fifth and twelfth
    powers. *)
Lemma Rpower_12_5 x : 0 < x → Rpower x 2.4 ^ 5 = x ^ 12.
Proof.
  intros Hx.
  rewrite <- (Rpower_pow 5) by apply exp_pos.
  rewrite Rpower_mult.
  replace (2.4 * INR 5) with (INR 12) by (cbn; lra).
  now apply Rpower_pow.
Qed.

Lemma Rpower_lower x l : 0 < x → 0 < l → l ^ 5 <= x ^ 12 → l <= Rpower x 2.4.
Proof.
  intros Hx Hl Hle. rewrite <- Rpower_12_5 in Hle by assumption.
  apply Rnot_lt_le. intros Hlt.
  assert (H : Rpower (Rpower x 2.4) (INR 5) < Rpower l (INR 5)).
  { apply Rlt_Rpower_l; [cbn; lra | ]. split; [apply exp_pos | exact Hlt]. }
  rewrite !Rpower_pow in H by (assumption || apply exp_pos). lra.
Qed.

Lemma Rpower_upper x u : 0 < x → 0 < u → x ^ 12 <= u ^ 5 → Rpower x 2.4 <= u.
Proof.
  intros Hx Hu Hle. rewrite <- Rpower_12_5 in Hle by assumption.
  apply Rnot_lt_le. intros Hlt.
  assert (H : Rpower u (INR 5) < Rpower (Rpower x 2.4) (INR 5)).
  { apply Rlt_Rpower_l; [cbn; lra | ]. split; [exact Hu | exact Hlt]. }
  rewrite !Rpower_pow in H by (assumption || apply exp_pos). lra.
Qed.

Lemma Rpower_one y : Rpower 1 y = 1.
Proof. unfold Rpower. now rewrite ln_1, Rmult_0_r, exp_0. Qed.
End RealNumbers.

(** ** Contrast ratio calculator *)

Section ContrastProperties.
Import Str Contrast.
Open Scope R_scope.

(** Decimal literals of the source as real numbers. *)
Ltac literals :=
  unfold lit; cbn [s_number of_Q R_scalar]; unfold Q2R; cbn [Qnum Qden].
Ltac positive := apply Rgt_not_eq; lra.

Lemma linear_nonneg v : 0 <= v → 0 <= linear v.
Proof.
  intros Hv. unfold linear. destruct (Rle_dec v 0.03928).
  - lra.
  - left. apply exp_pos.
Qed.

Lemma toLinear_real (z : Z) : toLinear (of_Z z) = Fin (linear (IZR z / 255)).
Proof.
  unfold toLinear. rewrite !of_Z_real, div_real by positive.
  set (v := IZR z / 255). unfold linear.
  destruct (Fin v <=? lit 0.03928)%js eqn:Hle.
  - apply le_real in Hle. revert Hle. literals. intros Hle.
    rewrite div_real by positive.
    destruct (Rle_dec _ _); [f_equal; lra | lra].
  - apply not_true_iff_false in Hle. unfold lit in Hle. cbn [s_number R_scalar] in Hle. rewrite le_real in Hle. revert Hle.
    literals. intros Hle. rewrite add_Fin, div_real by positive.
    destruct (Rle_dec _ _); [lra | ].
    unfold Math_pow. cbn [s_add R_scalar].
    destruct (Rlt_dec _ _) as [Hpos|Hneg].
    + do 2 f_equal; lra.
    + exfalso. apply Hneg. apply Rdiv_lt_0_compat; lra.
Qed.

Lemma getRelativeLuminance_real (r g b : Z) :
  getRelativeLuminance (color r g b) = Fin (luminance r g b).
Proof.
  unfold getRelativeLuminance, color. cbn [Contrast.r Contrast.g Contrast.b].
  rewrite !toLinear_real. unfold lit. cbn [s_number R_scalar]. rewrite !mul_Fin, !add_Fin.
  reflexivity.
Qed.

Lemma luminance_nonneg (r g b : Z) :
  (0 <= r)%Z → (0 <= g)%Z → (0 <= b)%Z → 0 <= luminance r g b.
Proof.
  intros Hr Hg Hb. apply IZR_le in Hr, Hg, Hb. unfold luminance.
  pose proof (linear_nonneg (IZR r / 255)).
  pose proof (linear_nonneg (IZR g / 255)).
  pose proof (linear_nonneg (IZR b / 255)).
  assert (0 <= IZR r / 255) by (apply Rle_mult_inv_pos; lra).
  assert (0 <= IZR g / 255) by (apply Rle_mult_inv_pos; lra).
  assert (0 <= IZR b / 255) by (apply Rle_mult_inv_pos; lra).
  lra.
Qed.

(** The ratio of two colours whose darker one has a luminance above
    -0.05, as it is for all channels that are not negative. *)
Lemma getContrastRatio_real (r1 g1 b1 r2 g2 b2 : Z) :
  Rmin (luminance r1 g1 b1) (luminance r2 g2 b2) + 0.05 ≠ 0 →
  getContrastRatio (color r1 g1 b1) (color r2 g2 b2)
  = Fin ((Rmax (luminance r1 g1 b1) (luminance r2 g2 b2) + 0.05)
         / (Rmin (luminance r1 g1 b1) (luminance r2 g2 b2) + 0.05)).
Proof.
  intros Hden. unfold getContrastRatio.
  rewrite !getRelativeLuminance_real, max_real, min_real.
  unfold lit. cbn [s_number R_scalar]. rewrite !add_Fin. cbn [s_add R_scalar of_Q].
  replace (Q2R 0.05) with 0.05 by (unfold Q2R; cbn; lra).
  now rewrite div_real.
Qed.

Lemma ratio_at_least_one a b : 0 <= b <= a → 1 <= (a + 0.05) / (b + 0.05).
Proof.
  intros H. apply Rmult_le_reg_r with (b + 0.05); [lra | ].
  unfold Rdiv. rewrite Rmult_assoc, Rinv_l by positive. lra.
Qed.

Lemma valid_ratio c1 c2 :
  valid c1 → valid c2 → ∃ x, getContrastRatio c1 c2 = Fin x ∧ 1 <= x.
Proof.
  intros (r1 & g1 & b1 & -> & Hr1 & Hg1 & Hb1) (r2 & g2 & b2 & -> & Hr2 & Hg2 & Hb2).
  pose proof (luminance_nonneg r1 g1 b1 ltac:(lia) ltac:(lia) ltac:(lia)) as H1.
  pose proof (luminance_nonneg r2 g2 b2 ltac:(lia) ltac:(lia) ltac:(lia)) as H2.
  eexists. split.
  - apply getContrastRatio_real. unfold Rmin. destruct (Rle_dec _ _); positive.
  - unfold Rmax, Rmin. destruct (Rle_dec _ _);
      apply ratio_at_least_one; lra.
Qed.

Lemma luminance_black : luminance 0 0 0 = 0.
Proof.
  unfold luminance, linear. replace (0 / 255) with 0 by lra.
  destruct (Rle_dec _ _); lra.
Qed.

Lemma luminance_white : luminance 255 255 255 = 1.
Proof.
  unfold luminance, linear. replace (255 / 255) with 1 by lra.
  destruct (Rle_dec _ _); [lra | ].
  replace ((1 + 0.055) / 1.055) with 1 by lra.
  rewrite Rpower_one. lra.
Qed.

Lemma identical_colours_ratio c : valid c → getContrastRatio c c = Fin 1.
Proof.
  intros (r & g & b & -> & Hr & Hg & Hb).
  pose proof (luminance_nonneg r g b ltac:(lia) ltac:(lia) ltac:(lia)) as HL.
  rewrite getContrastRatio_real;
    unfold Rmax, Rmin; destruct (Rle_dec _ _); try positive;
    f_equal; field; positive.
Qed.

Lemma black_on_white_ratio : getContrastRatio black white = Fin 21.
Proof.
  unfold black, white. rewrite getContrastRatio_real;
    rewrite luminance_black, luminance_white; unfold Rmax, Rmin;
    destruct (Rle_dec _ _); try positive; try lra.
  f_equal. lra.
Qed.

Lemma white_on_black_ratio : getContrastRatio white black = Fin 21.
Proof.
  unfold black, white. rewrite getContrastRatio_real;
    rewrite luminance_black, luminance_white; unfold Rmax, Rmin;
    destruct (Rle_dec _ _); try positive; try lra.
  f_equal. lra.
Qed.

(** C5: the contrast ratio of a colour of the data model (integer
    channels from 0 to 255) with itself is exactly 1, and the ratio of
    pure black and pure white, in either order, is 21 (exactly so in real
    arithmetic, hence 21 up to rounding in floating point). *)
Theorem C5_identical_colours_and_black_on_white :
  (∀ c, valid c → getContrastRatio c c = Fin 1)
  ∧ getContrastRatio black white = Fin 21
  ∧ getContrastRatio white black = Fin 21.
Proof.
  split; [exact identical_colours_ratio | ].
  split; [exact black_on_white_ratio | exact white_on_black_ratio].
Qed.

Lemma C5_witness : getContrastRatio (color 118 118 118) (color 118 118 118) = Fin 1.
Proof.
  apply (proj1 C5_identical_colours_and_black_on_white).
  exists 118%Z, 118%Z, 118%Z. repeat split; lia.
Defined.

(** The ratio rounded to two decimals, as [checkCompliance] and [main]
    compute it. *)
Lemma rounded_ratio x :
  (Math_round (Fin x * of_Z 100) / of_Z 100)%js
  = Fin (IZR (Zfloor (x * 100 + 0.5)) / 100).
Proof.
  rewrite !of_Z_real, mul_Fin, round_real, div_real by positive. reflexivity.
Qed.

(** The rounded ratio reaches [k]/100 exactly when the ratio reaches
    [k]/100 - 0.005. *)
Lemma rounded_ratio_ge x (k : Z) (q : Q) :
  Q2R q = IZR k / 100 →
  (Fin (IZR (Zfloor (x * 100 + 0.5)) / 100)%R >=? lit q)%js = true
  ↔ IZR k / 100 - 0.005 <= x.
Proof.
  intros Hq. unfold lit. cbn [s_number of_Q R_scalar]. rewrite Hq, ge_real. split.
  - intros H. assert (Hk : (k <= Zfloor (x * 100 + 0.5))%Z).
    { apply le_IZR. lra. }
    apply le_Zfloor in Hk. lra.
  - intros H. assert (Hk : (k <= Zfloor (x * 100 + 0.5))%Z).
    { apply le_Zfloor. lra. }
    apply IZR_le in Hk. lra.
Qed.

Lemma checkCompliance_text x :
  ∃ AA AAA, checkCompliance (Fin x) "text" = ForText AA AAA
    ∧ (normal AA = true ↔ 4.495 <= x) ∧ (large AA = true ↔ 2.995 <= x)
    ∧ (normal AAA = true ↔ 6.995 <= x) ∧ (large AAA = true ↔ 4.495 <= x).
Proof.
  unfold checkCompliance. rewrite rounded_ratio. cbn [String.eqb Ascii.eqb Bool.eqb].
  do 2 eexists. split; [reflexivity | ]. cbn [normal large].
  rewrite (rounded_ratio_ge x 450 4.5), (rounded_ratio_ge x 300 3.0),
    (rounded_ratio_ge x 700 7.0) by (unfold Q2R; cbn; lra).
  repeat split; lra.
Qed.

Lemma checkCompliance_non_text x :
  ∃ AA AAA, checkCompliance (Fin x) "non-text" = NonText AA AAA
    ∧ (AA = true ↔ 2.995 <= x) ∧ (AAA = true ↔ 2.995 <= x).
Proof.
  unfold checkCompliance. rewrite rounded_ratio. cbn [String.eqb Ascii.eqb Bool.eqb].
  do 2 eexists. split; [reflexivity | ].
  rewrite (rounded_ratio_ge x 300 3.0) by (unfold Q2R; cbn; lra).
  repeat split; lra.
Qed.

(** C1 (amended): for every pair of colours of the data model the
    contrast ratio is a finite number [x], and [checkCompliance] compares
    [x] rounded to two decimals with the thresholds: for text, AA normal
    passes iff [x >= 4.495], AA large iff [x >= 2.995], AAA normal iff
    [x >= 6.995] and AAA large iff [x >= 4.495]; for non-text, AA and AAA
    are the same and pass iff [x >= 2.995]. *)
Theorem C1_thresholds_on_rounded_ratio c1 c2 :
  valid c1 → valid c2 →
  ∃ x, getContrastRatio c1 c2 = Fin x
    ∧ (∃ AA AAA, checkCompliance (Fin x) "text" = ForText AA AAA
         ∧ (normal AA = true ↔ 4.495 <= x) ∧ (large AA = true ↔ 2.995 <= x)
         ∧ (normal AAA = true ↔ 6.995 <= x) ∧ (large AAA = true ↔ 4.495 <= x))
    ∧ (∃ AA AAA, checkCompliance (Fin x) "non-text" = NonText AA AAA
         ∧ (AA = true ↔ 2.995 <= x) ∧ (AAA = true ↔ 2.995 <= x)).
Proof.
  intros H1 H2. destruct (valid_ratio c1 c2 H1 H2) as (x & Hx & _).
  exists x. split; [exact Hx | ].
  split; [apply checkCompliance_text | apply checkCompliance_non_text].
Qed.

Lemma valid_color (r g b : Z) :
  (0 <= r <= 255)%Z → (0 <= g <= 255)%Z → (0 <= b <= 255)%Z → valid (color r g b).
Proof. intros. exists r, g, b. auto. Qed.

Lemma C1_witness :
  ∃ x, getContrastRatio black white = Fin x
    ∧ (∃ AA AAA, checkCompliance (Fin x) "text" = ForText AA AAA
         ∧ (normal AA = true ↔ 4.495 <= x) ∧ (large AA = true ↔ 2.995 <= x)
         ∧ (normal AAA = true ↔ 6.995 <= x) ∧ (large AAA = true ↔ 4.495 <= x))
    ∧ (∃ AA AAA, checkCompliance (Fin x) "non-text" = NonText AA AAA
         ∧ (AA = true ↔ 2.995 <= x) ∧ (AAA = true ↔ 2.995 <= x)).
Proof.
  apply (C1_thresholds_on_rounded_ratio black white);
    apply valid_color; lia.
Defined.

(** The red #EF0000 on white: a ratio between 4.496 and 4.498. *)
Lemma red_on_white :
  ∃ x, getContrastRatio (color 239 0 0) white = Fin x ∧ 4.496 <= x <= 4.498.
Proof.
  pose proof luminance_white as Hwhite.
  set (X := (239 / 255 + 0.055) / 1.055).
  assert (HX : 0 < X) by (unfold X; apply Rdiv_lt_0_compat; lra).
  assert (Hlo : 0.863 <= Rpower X 2.4).
  { apply Rpower_lower; [exact HX | lra | unfold X; lra]. }
  assert (Hhi : Rpower X 2.4 <= 0.8633).
  { apply Rpower_upper; [exact HX | lra | unfold X; lra]. }
  assert (Hred : luminance 239 0 0 = 0.2126 * Rpower X 2.4).
  { unfold luminance, linear. replace (0 / 255) with 0 by lra.
    destruct (Rle_dec (239 / 255) _); [lra | ].
    destruct (Rle_dec 0 _); [ | lra]. fold X. lra. }
  eexists. split.
  - apply getContrastRatio_real. rewrite Hred, Hwhite.
    unfold Rmin. destruct (Rle_dec _ _); positive.
  - rewrite Hred, Hwhite. unfold Rmax, Rmin.
    destruct (Rle_dec _ _); [ | lra].
    set (D := 0.2126 * Rpower X 2.4 + 0.05).
    assert (HD : 0.2334738 <= D <= 0.23353758) by (unfold D; lra).
    assert (Hx : (1 + 0.05) / D * D = 1.05).
    { unfold Rdiv. rewrite Rmult_assoc, Rinv_l by positive. lra. }
    set (x := (1 + 0.05) / D) in *.
    split; nra.
Qed.

(** C1 as stated fails: #EF0000 on white has a ratio below 4.5 and
    passes AA for normal text, because the ratio is rounded to 4.5 before
    it is compared. *)
Lemma C1_counterexample :
  ¬ (∀ c1 c2, valid c1 → valid c2 →
      ∀ x, getContrastRatio c1 c2 = Fin x →
      ∀ AA AAA, checkCompliance (Fin x) "text" = ForText AA AAA →
      (normal AA = true ↔ 4.5 <= x)).
Proof.
  intros H. destruct red_on_white as (x & Hx & Hlo & Hhi).
  destruct (checkCompliance_text x) as (AA & AAA & Hc & Hnormal & _).
  specialize (H (color 239 0 0) white
                (valid_color 239 0 0 ltac:(lia) ltac:(lia) ltac:(lia))
                (valid_color 255 255 255 ltac:(lia) ltac:(lia) ltac:(lia))
                x Hx AA AAA Hc).
  assert (Hpass : normal AA = true) by (apply Hnormal; lra).
  apply H in Hpass. lra.
Qed.

(** The command line on that pair: the ratio is printed as 4.5 and normal
    text passes AA. *)
Lemma main_red_on_white :
  main (λ _, None) ["--foreground"; "#EF0000"; "--background"; "#FFFFFF"]%string
  = Done
      {| contrastRatio := Fin 4.5;
         r_compliance :=
           ForText {| normal := true; large := true |}
                   {| normal := false; large := true |};
         foreground := color 239 0 0;
         background := white |}.
Proof.
  transitivity
    (Done
       {| contrastRatio :=
            (Math_round (getContrastRatio (color 239 0 0) white * of_Z 100)
             / of_Z 100)%js;
          r_compliance :=
            checkCompliance (getContrastRatio (color 239 0 0) white) "text";
          foreground := color 239 0 0;
          background := white |}); [reflexivity | ].
  destruct red_on_white as (x & -> & Hlo & Hhi).
  destruct (checkCompliance_text x)
    as ([n1 l1] & [n2 l2] & -> & Hn1 & Hl1 & Hn2 & Hl2).
  cbn [normal large] in *.
  rewrite rounded_ratio.
  replace (Zfloor (x * 100 + 0.5)) with 450%Z
    by (symmetry; apply Zfloor_eq; lra).
  assert (n1 = true) as -> by (apply Hn1; lra).
  assert (l1 = true) as -> by (apply Hl1; lra).
  assert (l2 = true) as -> by (apply Hl2; lra).
  assert (n2 = false) as ->.
  { destruct n2; [ | reflexivity]. assert (6.995 <= x) by now apply Hn2. lra. }
  do 3 f_equal. lra.
Qed.

(** The example of the specification: black on white has ratio 21 and
    passes every level. *)
Example main_black_on_white :
  main (λ _, None) ["--foreground"; "#000000"; "--background"; "#FFFFFF"]%string
  = Done
      {| contrastRatio := Fin 21;
         r_compliance :=
           ForText {| normal := true; large := true |}
                   {| normal := true; large := true |};
         foreground := black;
         background := white |}.
Proof.
  transitivity
    (Done
       {| contrastRatio :=
            (Math_round (getContrastRatio black white * of_Z 100)
             / of_Z 100)%js;
          r_compliance := checkCompliance (getContrastRatio black white) "text";
          foreground := black;
          background := white |}); [reflexivity | ].
  rewrite black_on_white_ratio.
  destruct (checkCompliance_text 21)
    as ([n1 l1] & [n2 l2] & -> & Hn1 & Hl1 & Hn2 & Hl2).
  cbn [normal large] in *.
  rewrite rounded_ratio.
  replace (Zfloor (21 * 100 + 0.5)) with 2100%Z
    by (symmetry; apply Zfloor_eq; lra).
  assert (n1 = true) as -> by (apply Hn1; lra).
  assert (l1 = true) as -> by (apply Hl1; lra).
  assert (n2 = true) as -> by (apply Hn2; lra).
  assert (l2 = true) as -> by (apply Hl2; lra).
  do 3 f_equal. lra.
Qed.
End ContrastProperties.

(** ** Unparseable colours and unknown deficiency types *)

Section ColourParsing.
Import Str.
Open Scope string_scope.

Lemma simulate_known_type color type simulated :
  ColorBlindness.simulateColorBlindness color type = inr simulated →
  type ∈ ColorBlindness.known_types.
Proof.
  unfold ColorBlindness.simulateColorBlindness,
    ColorBlindness.TRANSFORMATION_MATRICES, ColorBlindness.known_types.
  destruct (String.eqb_spec type "protanopia") as [->|_]; [intros _; set_solver | ].
  destruct (String.eqb_spec type "deuteranopia") as [->|_]; [intros _; set_solver | ].
  destruct (String.eqb_spec type "tritanopia") as [->|_]; [intros _; set_solver | ].
  destruct (existsb _ _); discriminate.
Qed.

(** A result is printed by the simulator only for one of the three known
    types: every other type ends in [process.exit(1)]. *)
Lemma simulator_rejects_unknown_type JSON_parse argv out :
  ColorBlindness.main JSON_parse argv = Done out →
  ColorBlindness.r_type out ∈ ColorBlindness.known_types.
Proof.
  unfold ColorBlindness.main. intros H.
  repeat case_match; try discriminate; simplify_eq; cbn;
    eapply simulate_known_type; eassumption.
Qed.

(** A colour that [parseColor] gives up on ends both tools with
    [process.exit(1)]. *)
Lemma simulator_rejects_null_colour :
  ColorBlindness.main (λ _, None) ["--color"; "red"; "--type"; "protanopia"]
  = Exit 1 Usage.
Proof. vm_compute. reflexivity. Qed.

Lemma contrast_rejects_null_colour :
  Contrast.main (λ _, None) ["--foreground"; "red"; "--background"; "#fff"]
  = Exit 1 Usage
  ∧ Contrast.main (λ _, None) ["--foreground"; "hsl(0, 100%, 50%)"; "--background"; "#fff"]
    = Exit 1 HslUnsupported.
Proof. split; reflexivity. Qed.

(** C3 (code defect): a colour string whose hex digits are not hex
    digits, such as #ggg, is not rejected.  [parseColor] returns a colour
    with [NaN] channels, which is truthy, so both tools go on, print a
    result ([NaN] ratio, every level failing; [NaN] simulated colour) and
    end normally instead of leaving with a non-zero exit code. *)
Theorem C3_non_hex_digits_are_accepted :
  Contrast.main (λ _, None) ["--foreground"; "#ggg"; "--background"; "#fff"]
  = Done
      {| Contrast.contrastRatio := NaN;
         Contrast.r_compliance :=
           Contrast.ForText
             {| Contrast.normal := false; Contrast.large := false |}
             {| Contrast.normal := false; Contrast.large := false |};
         Contrast.foreground :=
           {| Contrast.r := NaN; Contrast.g := NaN; Contrast.b := NaN |};
         Contrast.background := Contrast.white |}
  ∧ ColorBlindness.main (λ _, None) ["--color"; "#ggg"; "--type"; "protanopia"]
    = Done
        {| ColorBlindness.original :=
             {| ColorBlindness.r := NaN; ColorBlindness.g := NaN;
                ColorBlindness.b := NaN |};
           ColorBlindness.simulated :=
             {| ColorBlindness.r := NaN; ColorBlindness.g := NaN;
                ColorBlindness.b := NaN |};
           ColorBlindness.r_type := "protanopia";
           ColorBlindness.description :=
             "Red-blind (missing red cones) - affects ~2% of males" |}.
Proof. split; [reflexivity | vm_compute; reflexivity]. Qed.
End ColourParsing.

(** ** The command line *)

Section CommandLine.
Import Str.
Open Scope string_scope.

(** What [parseArgs] may store under [key] for the arguments [argv]. *)
Lemma parseArgs_loop_stores (P : string → flag → Prop) argv :
  (∀ arg, arg ∈ argv → startsWith "--" arg = true → P (slice arg 2 None) FlagTrue) →
  (∀ arg value, arg ∈ argv → value ∈ argv → startsWith "--" arg = true →
     nonempty value = true → startsWith "--" value = false →
     P (slice arg 2 None) (FlagValue value)) →
  ∀ n args options,
    (length args ≤ n)%nat → args ⊆ argv →
    (∀ key f, options !! key = Some f → P key f) →
    ∀ key f, parseArgs_loop args options !! key = Some f → P key f.
Proof.
  intros Htrue Hvalue. induction n as [|n IH]; intros args options Hlen Hsub Hopt.
  - destruct args; [exact Hopt | cbn in Hlen; lia].
  - destruct args as [|arg rest]; [exact Hopt | ]. cbn in Hlen.
    assert (Harg : arg ∈ argv) by (apply Hsub; left).
    assert (Hrest : rest ⊆ argv) by (intros x Hx; apply Hsub; now right).
    cbn [parseArgs_loop].
    destruct (startsWith "--" arg) eqn:Hdash; [ | apply IH; [lia | assumption..]].
    assert (Hins : ∀ v, P (slice arg 2 None) v →
              ∀ key f, <[slice arg 2 None := v]> options !! key = Some f → P key f).
    { intros v Hv key f. rewrite lookup_insert. case_decide as Hk.
      - intros [= <-]. now rewrite <- Hk.
      - apply Hopt. }
    destruct rest as [|value rest']; [apply Hins; auto | ].
    destruct (nonempty value && negb (startsWith "--" value)) eqn:Hv.
    + apply andb_true_iff in Hv as [Hne Hnd]. apply negb_true_iff in Hnd.
      apply IH; [cbn in Hlen; lia | | ].
      * intros x Hx. apply Hrest. now right.
      * apply Hins. apply Hvalue; auto. apply Hrest. now left.
    + apply IH; [lia | assumption | ]. apply Hins; auto.
Qed.

(** X1: Every option [parseArgs] stores is truthy: it is [true], or an
    argument of the command line that is not empty and does not start
    with two dashes; its key is what follows the dashes of an argument.
    So the tests [if (options.key)] of the scripts ask whether the key
    is present.  (The key [__proto__] is left aside: assigning to it
    creates no property in JavaScript.) *)
Theorem parseArgs_stores argv key f :
  key ≠ "__proto__" →
  parseArgs argv !! key = Some f →
  (∃ arg, arg ∈ argv ∧ startsWith "--" arg = true ∧ key = slice arg 2 None)
  ∧ match f with
    | FlagTrue => True
    | FlagValue value =>
        value ∈ argv ∧ nonempty value = true ∧ startsWith "--" value = false
    end
  ∧ opt (parseArgs argv) key = Some f.
Proof.
  intros _ Hf.
  assert (H : (∃ arg, arg ∈ argv ∧ startsWith "--" arg = true ∧ key = slice arg 2 None)
              ∧ match f with
                | FlagTrue => True
                | FlagValue value =>
                    value ∈ argv ∧ nonempty value = true
                    ∧ startsWith "--" value = false
                end).
  { revert key f Hf. unfold parseArgs.
    apply (parseArgs_loop_stores
             (λ key f,
                (∃ arg, arg ∈ argv ∧ startsWith "--" arg = true
                        ∧ key = slice arg 2 None)
                ∧ match f with
                  | FlagTrue => True
                  | FlagValue value =>
                      value ∈ argv ∧ nonempty value = true
                      ∧ startsWith "--" value = false
                  end) argv) with (n := length argv).
    - intros arg Harg Hdash. split; [ | exact I]. eauto.
    - intros arg value Harg Hvalue Hdash Hne Hnd. split; eauto.
    - lia.
    - reflexivity.
    - intros key f. rewrite lookup_empty. discriminate. }
  destruct H as [Hkey Hvalue]. split; [exact Hkey | split; [exact Hvalue | ]].
  unfold opt. rewrite Hf. destruct f as [|value]; [reflexivity | ].
  cbn. now destruct Hvalue as (_ & -> & _).
Qed.

Lemma parseArgs_stores_witness :
  (∃ arg, arg ∈ ["--width"; "48"; "--json"]
          ∧ startsWith "--" arg = true ∧ "width" = slice arg 2 None)
  ∧ ("48" ∈ ["--width"; "48"; "--json"] ∧ nonempty "48" = true
     ∧ startsWith "--" "48" = false)
  ∧ opt (parseArgs ["--width"; "48"; "--json"]) "width" = Some (FlagValue "48").
Proof.
  apply (parseArgs_stores ["--width"; "48"; "--json"] "width" (FlagValue "48")).
  - discriminate.
  - vm_compute. reflexivity.
Defined.
End CommandLine.

(** ** Touch target size checker: the recommendations *)

Section TouchTargetRecommendations.
Import Str TouchTarget.

(** On numbers, [x >= y] is the negation of [x < y]. *)
Lemma ge_negb_lt (x y : number Qc) :
  x ≠ NaN → y ≠ NaN → (x >=? y)%js = negb (x <? y)%js.
Proof.
  intros Hx Hy. destruct x as [| | |a], y as [| | |b]; try congruence; try reflexivity.
  destruct (Fin a <? Fin b)%js eqn:Hlt; cbn [negb].
  - apply not_true_is_false. rewrite ge_Fin. apply lt_Fin in Hlt.
    now apply Qlt_not_le.
  - apply ge_Fin. apply Qnot_lt_le. rewrite <- lt_Fin. congruence.
Qed.

(** What [parseDimensions] returns has a width and a height that are
    numbers other than zero. *)
Lemma parseDimensions_usable JSON_parse options d :
  parseDimensions JSON_parse options = Done d →
  (width d ≠ NaN ∧ truthy (width d) = true)
  ∧ (height d ≠ NaN ∧ truthy (height d) = true).
Proof.
  unfold parseDimensions.
  destruct (read_dimensions _ _) as [[[[w h] s] e]| |]; [ | discriminate..].
  destruct (guard w h) eqn:Hg; [discriminate | ].
  intros [= <-]. cbn [width height].
  unfold guard in Hg. rewrite !orb_false_iff in Hg.
  destruct Hg as [[[Hw Hh] Hwn] Hhn].
  destruct w as [w|], h as [h|]; try discriminate. cbn in *.
  rewrite negb_false_iff in Hw, Hh.
  repeat split; try assumption; intros ->; discriminate.
Qed.

(** X2: For a width and a height that are numbers, there is one message for
    each of them that is below 44 and one about the spacing unless it
    is known to be enough: the test of [sizeCheck.compliant] adds
    nothing. *)
Theorem recommendations_count w h sp :
  w ≠ NaN → h ≠ NaN →
  length (generateRecommendations (checkSize w h) (checkSpacing sp))
  = ((if (w <? WCAG_MINIMUM_SIZE)%js then 1 else 0)
     + (if (h <? WCAG_MINIMUM_SIZE)%js then 1 else 0)
     + (if bool_decide (spacing_compliant (checkSpacing sp) = Some true)
        then 0 else 1))%nat.
Proof.
  intros Hw Hh.
  assert (H44 : WCAG_MINIMUM_SIZE ≠ NaN) by discriminate.
  unfold generateRecommendations, checkSize.
  cbn [size_compliant actualWidth actualHeight].
  rewrite (ge_negb_lt w _ Hw H44), (ge_negb_lt h _ Hh H44).
  destruct (w <? WCAG_MINIMUM_SIZE)%js, (h <? WCAG_MINIMUM_SIZE)%js;
    cbn [negb andb app];
    destruct (spacing_compliant (checkSpacing sp)) as [[|]|];
    reflexivity.
Qed.

Lemma recommendations_count_witness :
  length (generateRecommendations (checkSize (of_Z 48) (of_Z 40)) (checkSpacing None))
  = ((if (of_Z 48 <? WCAG_MINIMUM_SIZE)%js then 1 else 0)
     + (if (of_Z 40 <? WCAG_MINIMUM_SIZE)%js then 1 else 0)
     + (if bool_decide (spacing_compliant (checkSpacing None) = Some true)
        then 0 else 1))%nat.
Proof.
  apply (recommendations_count (of_Z 48) (of_Z 40) None); discriminate.
Defined.

(** X3: The script finds no issue exactly when the size passes and the
    spacing is known to pass. *)
Theorem no_recommendation_iff_pass JSON_parse options d :
  parseDimensions JSON_parse options = Done d →
  generateRecommendations (checkSize (width d) (height d)) (checkSpacing (spacing d)) = []
  ↔ size_compliant (checkSize (width d) (height d)) = true
    ∧ spacing_compliant (checkSpacing (spacing d)) = Some true.
Proof.
  intros Hd. apply parseDimensions_usable in Hd as [[Hw _] [Hh _]].
  assert (H44 : WCAG_MINIMUM_SIZE ≠ NaN) by discriminate.
  unfold generateRecommendations, checkSize.
  cbn [size_compliant actualWidth actualHeight].
  rewrite (ge_negb_lt _ _ Hw H44), (ge_negb_lt _ _ Hh H44).
  destruct (width d <? _)%js, (height d <? _)%js; cbn [negb andb app];
    destruct (spacing_compliant (checkSpacing (spacing d))) as [[|]|];
    cbn [app]; intuition (try discriminate; auto).
Qed.

Lemma no_recommendation_iff_pass_witness :
  generateRecommendations (checkSize (of_Z 48) (of_Z 44)) (checkSpacing (Some (of_Z 8))) = []
  ↔ size_compliant (checkSize (of_Z 48) (of_Z 44)) = true
    ∧ spacing_compliant (checkSpacing (Some (of_Z 8))) = Some true.
Proof.
  apply (no_recommendation_iff_pass (λ _, None)
           (parseArgs ["--width"; "48"; "--height"; "44"; "--spacing"; "8"]%string)
           {| width := of_Z 48; height := of_Z 44; spacing := Some (of_Z 8);
              element := "interactive element" |}).
  vm_compute. reflexivity.
Defined.

(** X4: [--dimensions] without a value stores [true], which has no
    [includes] method: the script ends on a TypeError whatever else is
    on the command line. *)
Theorem dimensions_without_value_throws JSON_parse argv :
  parseArgs argv !! "dimensions"%string = Some FlagTrue →
  main JSON_parse argv = Uncaught "TypeError".
Proof.
  intros Hd. rewrite main_parseDimensions.
  unfold parseDimensions, read_dimensions, opt at 3. rewrite Hd.
  reflexivity.
Qed.

Lemma dimensions_without_value_witness :
  main (λ _, None) ["--width"; "48"; "--height"; "48"; "--dimensions"]%string
  = Uncaught "TypeError".
Proof.
  apply (dimensions_without_value_throws (λ _, None)
           ["--width"; "48"; "--height"; "48"; "--dimensions"]%string).
  vm_compute. reflexivity.
Defined.
End TouchTargetRecommendations.

(** ** Contrast ratio calculator: symmetry, range and levels *)

Section ContrastRange.
Import Str Contrast.
Open Scope R_scope.

Ltac positive := apply Rgt_not_eq; lra.

Lemma Math_max_comm (x y : number R) : Math_max x y = Math_max y x.
Proof.
  destruct x as [| | |a], y as [| | |b]; try reflexivity.
  unfold Math_max. cbn. destruct (Rle_dec a b), (Rle_dec b a);
    try reflexivity; f_equal; lra.
Qed.

Lemma Math_min_comm (x y : number R) : Math_min x y = Math_min y x.
Proof.
  destruct x as [| | |a], y as [| | |b]; try reflexivity.
  unfold Math_min. cbn. destruct (Rle_dec a b), (Rle_dec b a);
    try reflexivity; f_equal; lra.
Qed.

(** X5: The contrast ratio does not depend on which colour is the
    foreground, whatever the channels are. *)
Theorem getContrastRatio_symmetric color1 color2 :
  getContrastRatio color1 color2 = getContrastRatio color2 color1.
Proof.
  unfold getContrastRatio.
  now rewrite Math_max_comm, Math_min_comm.
Qed.

Lemma ge_weaken (x : number R) (p q : Q) :
  Q2R q <= Q2R p → (x >=? lit p)%js = true → (x >=? lit q)%js = true.
Proof.
  intros Hqp. destruct x as [| | |a]; try (cbn; congruence).
  unfold lit. cbn [s_number R_scalar]. rewrite !ge_real. cbn [of_Q R_scalar]. lra.
Qed.

(** X6: The levels are nested for every ratio: AAA for normal text implies
    AA for normal text, which implies AA for large text; AAA for large
    text is AA for normal text; for non-text contrast the two levels are
    the same. *)
Theorem compliance_levels_nested ratio type :
  match checkCompliance ratio type with
  | NonText AA AAA => AA = AAA
  | ForText AA AAA =>
      (normal AAA = true → normal AA = true)
      ∧ (normal AA = true → large AA = true)
      ∧ large AAA = normal AA
  end.
Proof.
  unfold checkCompliance. destruct (String.eqb type "non-text"); [reflexivity | ].
  cbn [normal large]. repeat split; apply ge_weaken; unfold Q2R; cbn; lra.
Qed.

Lemma channel_linear (z : Z) :
  linear (IZR z / 255)
  = if (z <=? 10)%Z then IZR z / 255 / 12.92
    else Rpower ((IZR z / 255 + 0.055) / 1.055) 2.4.
Proof.
  unfold linear. destruct (Z.leb_spec z 10) as [Hz|Hz].
  - apply IZR_le in Hz. destruct (Rle_dec _ _); [reflexivity | lra].
  - assert (H11 : (11 <= z)%Z) by lia. apply IZR_le in H11.
    destruct (Rle_dec _ _); [lra | reflexivity].
Qed.

(** On the integer channels the linear value never decreases, although
    the two branches of [toLinear] do not meet at 0.03928. *)
Lemma linear_monotone (z1 z2 : Z) :
  (0 <= z1 <= z2)%Z → linear (IZR z1 / 255) <= linear (IZR z2 / 255).
Proof.
  intros [H0 H12]. rewrite !channel_linear.
  pose proof (IZR_le _ _ H0) as H0'. pose proof (IZR_le _ _ H12) as H12'.
  destruct (Z.leb_spec z1 10) as [Hz1|Hz1], (Z.leb_spec z2 10) as [Hz2|Hz2].
  - lra.
  - assert (H11 : (11 <= z2)%Z) by lia. apply IZR_le in H11, Hz1.
    set (X := (11 / 255 + 0.055) / 1.055).
    assert (HX : 0 < X) by (unfold X; apply Rdiv_lt_0_compat; lra).
    assert (Hlo : 0.0031 <= Rpower X 2.4).
    { apply Rpower_lower; [exact HX | lra | unfold X; lra]. }
    assert (Hmono : Rpower X 2.4 <= Rpower ((IZR z2 / 255 + 0.055) / 1.055) 2.4).
    { apply Rle_Rpower_l; [lra | ]. split; [exact HX | unfold X; lra]. }
    lra.
  - lia.
  - assert (H11 : (11 <= z1)%Z) by lia. apply IZR_le in H11.
    apply Rle_Rpower_l; [lra | ].
    split; [apply Rdiv_lt_0_compat; lra | lra].
Qed.

Lemma luminance_range (r g b : Z) :
  (0 <= r <= 255)%Z → (0 <= g <= 255)%Z → (0 <= b <= 255)%Z →
  0 <= luminance r g b <= 1.
Proof.
  intros Hr Hg Hb. split; [apply luminance_nonneg; lia | ].
  rewrite <- luminance_white. unfold luminance.
  pose proof (linear_monotone r 255 Hr).
  pose proof (linear_monotone g 255 Hg).
  pose proof (linear_monotone b 255 Hb).
  lra.
Qed.

(** X7: Of two colours with channels from 0 to 255, the one that is at
    least as bright in every channel has at least the relative luminance,
    and both luminances lie between 0 and 1. *)
Theorem luminance_monotone (r1 g1 b1 r2 g2 b2 : Z) :
  (0 <= r1 <= r2)%Z → (0 <= g1 <= g2)%Z → (0 <= b1 <= b2)%Z →
  (r2 <= 255)%Z → (g2 <= 255)%Z → (b2 <= 255)%Z →
  ∃ L1 L2,
    getRelativeLuminance (color r1 g1 b1) = Fin L1
    ∧ getRelativeLuminance (color r2 g2 b2) = Fin L2
    ∧ 0 <= L1 <= L2 ∧ L2 <= 1.
Proof.
  intros Hr Hg Hb Hr2 Hg2 Hb2. exists (luminance r1 g1 b1), (luminance r2 g2 b2).
  rewrite !getRelativeLuminance_real. split; [reflexivity | split; [reflexivity | ]].
  split; [ | apply luminance_range; lia].
  split; [apply luminance_nonneg; lia | ].
  unfold luminance.
  pose proof (linear_monotone r1 r2 Hr).
  pose proof (linear_monotone g1 g2 Hg).
  pose proof (linear_monotone b1 b2 Hb).
  lra.
Qed.

Lemma luminance_monotone_witness :
  ∃ L1 L2,
    getRelativeLuminance (color 10 128 0) = Fin L1
    ∧ getRelativeLuminance (color 11 128 255) = Fin L2
    ∧ 0 <= L1 <= L2 ∧ L2 <= 1.
Proof.
  apply (luminance_monotone 10 128 0 11 128 255); lia.
Defined.

Lemma ratio_at_most_21 a b : 0 <= b <= a → a <= 1 → (a + 0.05) / (b + 0.05) <= 21.
Proof.
  intros H Ha. apply Rmult_le_reg_r with (b + 0.05); [lra | ].
  unfold Rdiv. rewrite Rmult_assoc, Rinv_l by positive. lra.
Qed.

(** X8: The contrast ratio of two colours of the data model is a number
    from 1 to 21. *)
Theorem contrast_ratio_range c1 c2 :
  valid c1 → valid c2 →
  ∃ x, getContrastRatio c1 c2 = Fin x ∧ 1 <= x <= 21.
Proof.
  intros (r1 & g1 & b1 & -> & Hr1 & Hg1 & Hb1) (r2 & g2 & b2 & -> & Hr2 & Hg2 & Hb2).
  pose proof (luminance_range r1 g1 b1 Hr1 Hg1 Hb1) as H1.
  pose proof (luminance_range r2 g2 b2 Hr2 Hg2 Hb2) as H2.
  eexists. split.
  - apply getContrastRatio_real. unfold Rmin. destruct (Rle_dec _ _); positive.
  - unfold Rmax, Rmin. destruct (Rle_dec _ _);
      (split; [apply ratio_at_least_one | apply ratio_at_most_21]); lra.
Qed.

Lemma contrast_ratio_range_witness :
  ∃ x, getContrastRatio (color 118 118 118) white = Fin x ∧ 1 <= x <= 21.
Proof.
  apply (contrast_ratio_range (color 118 118 118) white);
    apply valid_color; lia.
Defined.
End ContrastRange.

Section ColourStrings.
Import Str.
Open Scope string_scope.

Lemma hsl_prefix_excludes c :
  startsWith "hsl(" c = true →
  startsWith "#" c = false ∧ startsWith "rgb(" c = false.
Proof.
  destruct c as [|a c]; [discriminate | ]. cbn [startsWith].
  destruct (ascii_dec "h" a) as [<-|]; [ | intros H; discriminate H].
  intros _. split; reflexivity.
Qed.

(** X9: The contrast calculator's [parseColor] never throws on a string; it
    leaves the process only for a string shaped like [hsl(...)], and
    does so for every such string.  On every other string it returns a
    colour exactly when the simulator's [parseColor] does. *)
Theorem hsl_is_the_only_exit s :
  let c := toLowerCase (trim s) in
  (Contrast.parseColor_string s = Exit 1 HslUnsupported
   ↔ startsWith "hsl(" c && endsWith ")" c = true)
  ∧ (∀ code d, Contrast.parseColor_string s = Exit code d →
               code = 1%Z ∧ d = HslUnsupported)
  ∧ (∀ e, Contrast.parseColor_string s ≠ Uncaught e)
  ∧ (is_Some (ColorBlindness.parseColor_string s)
     ↔ ∃ c', Contrast.parseColor_string s = Done (Some c')).
Proof.
  cbn zeta. unfold Contrast.parseColor_string, ColorBlindness.parseColor_string.
  set (c := toLowerCase (trim s)).
  destruct (startsWith "hsl(" c) eqn:Hhsl.
  - destruct (hsl_prefix_excludes c Hhsl) as [-> ->].
    cbn [andb]. destruct (endsWith ")" c); cbn [andb].
    + repeat split; try congruence; intros [? ?]; discriminate.
    + repeat split; try congruence; intros [? ?]; discriminate.
  - cbn [andb].
    destruct (startsWith "#" c);
      [destruct (String.length (slice c 1 None) =? 3)%nat;
       [ | destruct (String.length (slice c 1 None) =? 6)%nat] | ];
      try (repeat split; try congruence; eauto; fail).
    + destruct (startsWith "rgb(" c && endsWith ")" c);
        [ | repeat split; try congruence; intros [? ?]; discriminate ].
      destruct (split "," (slice c 4 (Some (-1)%Z))) as [|v0 [|v1 [|v2 [|v3 l]]]];
        cbn [map];
        repeat split; try congruence; eauto;
        try (intros [? ?]; discriminate).
    + destruct (startsWith "rgb(" c && endsWith ")" c);
        [ | repeat split; try congruence; intros [? ?]; discriminate ].
      destruct (split "," (slice c 4 (Some (-1)%Z))) as [|v0 [|v1 [|v2 [|v3 l]]]];
        cbn [map];
        repeat split; try congruence; eauto;
        try (intros [? ?]; discriminate).
Qed.
End ColourStrings.

(** ** Strings: concatenation, reversal and splitting *)

Section StringLemmas.
Import Str.
Open Scope string_scope.
Implicit Types (s t u : string) (c : ascii).

Lemma append_cons c s t : String c s ++ t = String c (s ++ t).
Proof. reflexivity. Qed.

Lemma append_nil_r s : s ++ "" = s.
Proof. induction s as [|c s IH]; [reflexivity | ]. now rewrite append_cons, IH. Qed.

Lemma append_assoc s t u : (s ++ t) ++ u = s ++ (t ++ u).
Proof. induction s as [|c s IH]; [reflexivity | ]. now rewrite !append_cons, IH. Qed.

Lemma length_append s t : String.length (s ++ t) = (String.length s + String.length t)%nat.
Proof. induction s as [|c s IH]; [reflexivity | ]. rewrite append_cons. cbn. now rewrite IH. Qed.

Lemma rev_append s t : rev (s ++ t) = rev t ++ rev s.
Proof.
  induction s as [|c s IH]; cbn [rev].
  - change ("" ++ t) with t. now rewrite append_nil_r.
  - rewrite append_cons. cbn [rev]. now rewrite IH, append_assoc.
Qed.

Lemma rev_involutive s : rev (rev s) = s.
Proof.
  induction s as [|c s IH]; [reflexivity | ]. cbn [rev].
  rewrite rev_append, IH. reflexivity.
Qed.

Lemma substring_0_append s t : substring 0 (String.length s) (s ++ t) = s.
Proof.
  induction s as [|c s IH].
  - cbn. now destruct t.
  - rewrite append_cons. cbn. now rewrite IH.
Qed.

Lemma toLowerCase_append s t : toLowerCase (s ++ t) = toLowerCase s ++ toLowerCase t.
Proof.
  induction s as [|c s IH]; [reflexivity | ].
  rewrite append_cons. cbn [toLowerCase]. now rewrite IH.
Qed.

(** A string that ends in a character that is not white space is left
    as it is by [trimEnd]. *)
Lemma trimEnd_last s c : is_white c = false → trimEnd (s ++ String c "") = s ++ String c "".
Proof.
  intros Hc. unfold trimEnd. rewrite rev_append.
  change (rev (String c "")) with (String c "").
  rewrite append_cons. change ("" ++ rev s) with (rev s).
  cbn [trimStart]. rewrite Hc. cbn [rev]. now rewrite rev_involutive.
Qed.

Lemma split_no_separator c s :
  includes (String c "") s = false → split c s = [s].
Proof.
  induction s as [|a s IH]; [reflexivity | ].
  cbn [includes startsWith split]. destruct (ascii_dec c a) as [->|Hne].
  - discriminate.
  - cbn [orb]. intros H. destruct (ascii_dec a c) as [->|_]; [now destruct Hne | ].
    now rewrite IH.
Qed.

Lemma split_append c s t :
  includes (String c "") s = false →
  split c (s ++ String c t) = s :: split c t.
Proof.
  induction s as [|a s IH].
  - intros _. change ("" ++ String c t) with (String c t). cbn [split].
    destruct (ascii_dec c c) as [_|Hne]; [reflexivity | now destruct Hne].
  - cbn [includes startsWith]. destruct (ascii_dec c a) as [->|Hne]; [discriminate | ].
    cbn [orb]. intros H. rewrite append_cons. cbn [split].
    destruct (ascii_dec a c) as [->|_]; [now destruct Hne | ].
    now rewrite IH.
Qed.
End StringLemmas.

(** ** Colour-blindness simulator: printing and parsing a colour *)

Section ColorOutputProperties.
Import Str ColorBlindness ColorOutput.
Open Scope string_scope.

Lemma Number_toString_16 (z : Z) :
  Number_toString 16 (of_Z z)
  = Some (HexadecimalString.NilZero.string_of_int (Z.to_hex_int z)).
Proof.
  unfold Number_toString, of_Z. cbn [of_Q Qc_scalar Q2Qc this].
  now rewrite Qred_inject_Z.
Qed.

Lemma toUpperCase_app (s t : string) :
  toUpperCase (s ++ t) = toUpperCase s ++ toUpperCase t.
Proof.
  induction s as [|c s IH]; [reflexivity | ].
  change (String c s ++ t) with (String c (s ++ t)). cbn [toUpperCase]. rewrite IH. reflexivity.
Qed.

(** The two digits of every channel from 0 to 255, read back. *)
Lemma hex_channel_table :
  forallb
    (λ z,
       match toUpperCase (padStart2 (HexadecimalString.NilZero.string_of_int
                                       (Z.to_hex_int z))) with
       | String a (String b EmptyString) =>
           negb (is_white b)
           && bool_decide (parseInt_Z (String (lower a) (String (lower b) EmptyString)) 16
                           = Some z)
       | _ => false
       end)
    (seqZ 0 256) = true.
Proof. vm_compute. reflexivity. Qed.

Lemma hex_channel (z : Z) :
  (0 <= z <= 255)%Z →
  ∃ a b,
    toUpperCase (padStart2 (HexadecimalString.NilZero.string_of_int (Z.to_hex_int z)))
    = String a (String b EmptyString)
    ∧ is_white b = false
    ∧ parseInt (String (lower a) (String (lower b) EmptyString)) 16
      = (of_Z z : number Qc).
Proof.
  intros Hz. pose proof hex_channel_table as Htable.
  rewrite forallb_forall in Htable. specialize (Htable z).
  destruct (toUpperCase _) as [|a [|b [|c s]]];
    try (exfalso; apply Bool.diff_false_true, Htable, list_elem_of_In, elem_of_seqZ; lia).
  exists a, b. split; [reflexivity | ].
  assert (H : negb (is_white b)
              && bool_decide (parseInt_Z (String (lower a) (String (lower b) EmptyString)) 16
                              = Some z) = true).
  { apply Htable, list_elem_of_In, elem_of_seqZ. lia. }
  apply andb_true_iff in H as [Hw Hp]. apply negb_true_iff in Hw.
  apply bool_decide_eq_true in Hp.
  split; [exact Hw | ]. unfold parseInt. now rewrite Hp.
Qed.

(** X10: A colour with channels from 0 to 255 is printed by [colorToHex] as a
    string that [parseColor] reads back as the same colour. *)
Theorem colorToHex_parseColor (r g b : Z) :
  (0 <= r <= 255)%Z → (0 <= g <= 255)%Z → (0 <= b <= 255)%Z →
  ∃ s, colorToHex (color r g b) = Some s
       ∧ String.length s = 7%nat
       ∧ parseColor_string s = Some (color r g b).
Proof.
  intros Hr Hg Hb.
  destruct (hex_channel r Hr) as (r1 & r2 & Hrs & _ & Hrp).
  destruct (hex_channel g Hg) as (g1 & g2 & Hgs & _ & Hgp).
  destruct (hex_channel b Hb) as (b1 & b2 & Hbs & Hbw & Hbp).
  exists (String "#" (String r1 (String r2 (String g1 (String g2
            (String b1 (String b2 EmptyString))))))).
  split; [ | split; [reflexivity | ]].
  - unfold colorToHex, color. cbn [ColorBlindness.r ColorBlindness.g ColorBlindness.b].
    rewrite !Number_toString_16. cbn [fmap option_fmap option_map mbind option_bind].
    change (toUpperCase ("#" ++ ?x)) with (String "#" (toUpperCase x)).
    rewrite !toUpperCase_app, Hrs, Hgs, Hbs. reflexivity.
  - unfold parseColor_string.
    assert (Htrim : trim (String "#" (String r1 (String r2 (String g1 (String g2
                      (String b1 (String b2 EmptyString)))))))
                    = String "#" (String r1 (String r2 (String g1 (String g2
                        (String b1 (String b2 EmptyString))))))).
    { unfold trim, trimEnd.
      change (trimStart (String "#" ?x)) with (String "#" x).
      cbv beta iota fix delta [rev append]. cbn [trimStart].
      rewrite Hbw. reflexivity. }
    rewrite Htrim. cbn [toLowerCase startsWith].
    change (lower "#") with "#"%char.
    destruct (ascii_dec "#" "#") as [_|Hne]; [ | now destruct Hne].
    change (slice (String "#" ?x) 1 None) with x.
    cbn [String.length Nat.eqb].
    change (slice ?x 0 (Some 2%Z)) with (String (lower r1) (String (lower r2) EmptyString)).
    change (slice ?x 2 (Some 4%Z)) with (String (lower g1) (String (lower g2) EmptyString)).
    change (slice ?x 4 (Some 6%Z)) with (String (lower b1) (String (lower b2) EmptyString)).
    rewrite Hrp, Hgp, Hbp. reflexivity.
Qed.

Lemma colorToHex_parseColor_witness :
  ∃ s, colorToHex (color 255 10 0) = Some s
       ∧ String.length s = 7%nat
       ∧ parseColor_string s = Some (color 255 10 0).
Proof. apply (colorToHex_parseColor 255 10 0); lia. Defined.
End ColorOutputProperties.

Section RgbString.
Import Str ColorBlindness ColorOutput.
Open Scope string_scope.

Lemma Number_toString_10 (z : Z) :
  (Z.abs z < 10 ^ 21)%Z →
  Number_toString 10 (of_Z z)
  = Some (DecimalString.NilZero.string_of_int (Z.to_int z)).
Proof.
  intros Hz. unfold Number_toString, of_Z. cbn [of_Q Qc_scalar Q2Qc this].
  rewrite Qred_inject_Z. cbn [Qden Qnum inject_Z Pos.eqb Z.eqb].
  destruct (Z.ltb_spec (Z.abs z) (10 ^ 21)); [reflexivity | lia].
Qed.

(** The decimal form of every channel from 0 to 255: digits only, read
    back by [parseInt], with or without a space before it. *)
Lemma decimal_channel_table :
  forallb
    (λ z,
       let d := DecimalString.NilZero.string_of_int (Z.to_int z) in
       String.eqb (toLowerCase d) d
       && negb (includes "," d)
       && bool_decide (parseInt_Z (trim d) 0 = Some z)
       && bool_decide (parseInt_Z (trim (String " " d)) 0 = Some z))
    (seqZ 0 256) = true.
Proof. vm_compute. reflexivity. Qed.

Lemma decimal_channel (z : Z) :
  (0 <= z <= 255)%Z →
  let d := DecimalString.NilZero.string_of_int (Z.to_int z) in
  toLowerCase d = d
  ∧ includes "," d = false
  ∧ parseInt (trim d) 0 = (of_Z z : number Qc)
  ∧ parseInt (trim (String " " d)) 0 = (of_Z z : number Qc).
Proof.
  intros Hz d. pose proof decimal_channel_table as Htable.
  rewrite forallb_forall in Htable. specialize (Htable z).
  cbn zeta in Htable. fold d in Htable.
  assert (Hin : In z (seqZ 0 256)) by (apply list_elem_of_In, elem_of_seqZ; lia).
  apply Htable in Hin. rewrite !andb_true_iff in Hin.
  destruct Hin as [[[Hl Hc] Hp] Hp'].
  apply String.eqb_eq in Hl. apply negb_true_iff in Hc.
  apply bool_decide_eq_true in Hp, Hp'.
  unfold parseInt. rewrite Hp, Hp'. auto.
Qed.

(** X11: A colour with channels from 0 to 255 is printed by
    [colorToRgbString] as a string that [parseColor] reads back as the
    same colour. *)
Theorem colorToRgbString_parseColor (r g b : Z) :
  (0 <= r <= 255)%Z → (0 <= g <= 255)%Z → (0 <= b <= 255)%Z →
  ∃ s, colorToRgbString (color r g b) = Some s
       ∧ parseColor_string s = Some (color r g b).
Proof.
  intros Hr Hg Hb.
  destruct (decimal_channel r Hr) as (Hrl & Hrc & Hrp & _).
  destruct (decimal_channel g Hg) as (Hgl & Hgc & _ & Hgp).
  destruct (decimal_channel b Hb) as (Hbl & Hbc & _ & Hbp).
  cbn zeta in *.
  set (dr := DecimalString.NilZero.string_of_int (Z.to_int r)) in *.
  set (dg := DecimalString.NilZero.string_of_int (Z.to_int g)) in *.
  set (db := DecimalString.NilZero.string_of_int (Z.to_int b)) in *.
  set (X := dr ++ ", " ++ dg ++ ", " ++ db).
  exists ("rgb(" ++ X ++ ")"). split.
  - unfold colorToRgbString, color.
    cbn [ColorBlindness.r ColorBlindness.g ColorBlindness.b].
    rewrite !Number_toString_10 by lia.
    cbn [mbind option_bind]. fold dr dg db. unfold X.
    now rewrite !append_assoc.
  - unfold parseColor_string.
    assert (Htrim : trim ("rgb(" ++ X ++ ")") = "rgb(" ++ X ++ ")").
    { unfold trim.
      change (trimStart ("rgb(" ++ X ++ ")")) with ("rgb(" ++ X ++ ")").
      rewrite <- append_assoc. now apply trimEnd_last. }
    assert (Hlower : toLowerCase ("rgb(" ++ X ++ ")") = "rgb(" ++ X ++ ")").
    { unfold X. rewrite !toLowerCase_append, Hrl, Hgl, Hbl. reflexivity. }
    rewrite Htrim, Hlower.
    change (startsWith "#" ("rgb(" ++ X ++ ")")) with false.
    change (startsWith "rgb(" ("rgb(" ++ X ++ ")")) with true.
    assert (Hends : endsWith ")" ("rgb(" ++ X ++ ")") = true).
    { unfold endsWith. rewrite <- append_assoc, rev_append. reflexivity. }
    rewrite Hends. cbn [andb].
    assert (Hslice : slice ("rgb(" ++ X ++ ")") 4 (Some (-1)%Z) = X).
    { unfold slice, slice_index.
      rewrite !length_append. cbn [String.length].
      set (n := String.length X).
      replace (Z.of_nat (4 + (n + 1))) with (Z.of_nat n + 5)%Z by lia.
      destruct (Z.ltb_spec 4 0); [lia | ].
      destruct (Z.ltb_spec (-1) 0); [ | lia].
      rewrite Z.min_l, Z.max_l by lia.
      replace (Z.to_nat (Z.of_nat n + 5 + -1 - 4)) with n by lia.
      change (Z.to_nat 4) with 4%nat.
      change (substring 4 n ("rgb(" ++ X ++ ")")) with (substring 0 n (X ++ ")")).
      apply substring_0_append. }
    rewrite Hslice. unfold X.
    change (", " ++ dg ++ ", " ++ db)
      with (String "," (String " " (dg ++ String "," (String " " db)))).
    rewrite split_append by exact Hrc.
    change (String " " (dg ++ ?y)) with (String " " dg ++ y).
    rewrite split_append
      by (cbn [includes startsWith]; destruct (ascii_dec "," " "); [discriminate | exact Hgc]).
    rewrite split_no_separator
      by (cbn [includes startsWith]; destruct (ascii_dec "," " "); [discriminate | exact Hbc]).
    cbn [map]. rewrite Hrp, Hgp, Hbp. reflexivity.
Qed.

Lemma colorToRgbString_parseColor_witness :
  ∃ s, colorToRgbString (color 255 10 0) = Some s
       ∧ parseColor_string s = Some (color 255 10 0).
Proof. apply (colorToRgbString_parseColor 255 10 0); lia. Defined.
End RgbString.

(** ** Colour-blindness simulator: the branches [main] never reaches *)

Section SimulatorOutcomes.
Import Str ColorBlindness.
Open Scope string_scope.

Lemma simulate_not_unknown color type message :
  TRANSFORMATION_MATRICES type ≠ Undefined →
  simulateColorBlindness color type = inl message → message = "TypeError".
Proof.
  unfold simulateColorBlindness. destruct (TRANSFORMATION_MATRICES type);
    intros Hm H; [discriminate | congruence | now destruct Hm].
Qed.

(** X12: [main] checks the type before it calls [simulateColorBlindness]: the
    error thrown there for an unknown type is never raised, and the
    description printed is never the fallback of [getDescription].  The
    [catch] is reached only for a type that names a member inherited
    from [Object.prototype]. *)
Theorem simulator_fallbacks_unreachable JSON_parse argv :
  (∀ out, main JSON_parse argv = Done out →
          r_type out ∈ known_types
          ∧ description out ≠ "Unknown color blindness type")
  ∧ (∀ code message, main JSON_parse argv = Exit code (ErrorMessage message) →
                     code = 1%Z ∧ message = "TypeError").
Proof.
  split.
  - intros out Hout.
    assert (Hknown : r_type out ∈ known_types).
    { revert Hout. unfold main. intros H.
      repeat case_match; try discriminate; simplify_eq; cbn;
        eapply simulate_known_type; eassumption. }
    split; [exact Hknown | ].
    assert (Hd : description out = getDescription (r_type out)).
    { revert Hout. unfold main. intros H.
      repeat case_match; try discriminate; simplify_eq; reflexivity. }
    rewrite Hd. unfold known_types in Hknown.
    rewrite !elem_of_cons, elem_of_nil in Hknown.
    destruct Hknown as [->|[->|[->|[]]]]; discriminate.
  - assert (Hparse : ∀ o c d, parseColor o ≠ Exit c d).
    { intros [[|s]|] c d; cbn; try discriminate. now destruct (nonempty s). }
    intros code message. unfold main. intros H.
    repeat case_match; try discriminate; simplify_eq;
      try (exfalso; eapply Hparse; eassumption);
      (split; [reflexivity | ]);
      eapply simulate_not_unknown; try eassumption; congruence.
Qed.
End SimulatorOutcomes.

(** ** Focus order validator: issues, flags and gaps *)

Section FocusOrderReport.
Import Str FocusOrder.

Lemma lower_idempotent c : lower (lower c) = lower c.
Proof. destruct c as [[] [] [] [] [] [] [] []]; vm_compute; reflexivity. Qed.

Lemma toLowerCase_idempotent s : toLowerCase (toLowerCase s) = toLowerCase s.
Proof. induction s as [|c s IH]; cbn; [reflexivity | ]. now rewrite lower_idempotent, IH. Qed.

(** X13: The type of an element does not depend on the case of its letters
    (so lowering the name before the call, as [validateLogicalOrder]
    does, changes nothing), and it is one of eight types. *)
Theorem getElementType_case_insensitive element :
  getElementType (toLowerCase element) = getElementType element
  ∧ getElementType element
    ∈ ["header"; "nav"; "main"; "button"; "input"; "footer"; "link"; "other"]%string.
Proof.
  split.
  - unfold getElementType. now rewrite toLowerCase_idempotent.
  - unfold getElementType. repeat case_match; set_solver.
Qed.

Lemma validateLogicalOrder_flags elements tabOrder expectedOrder :
  let v := validateLogicalOrder elements tabOrder expectedOrder in
  logical v = (length (issues v) =? 0)%nat
  ∧ complete v = (length elements =? length tabOrder)%nat
  ∧ (length (issues v) ≤ length (recommendations v))%nat.
Proof.
  unfold validateLogicalOrder.
  set (elementTypes := map _ elements).
  destruct expectedOrder as [expected|];
    [destruct (negb (bool_decide _)) | ];
    (destruct (indexOf elementTypes "header") as [h|];
     destruct (indexOf elementTypes "main") as [m|];
     destruct (indexOf elementTypes "footer") as [f|];
     try destruct (at_number tabOrder h >? at_number tabOrder m)%js;
     try destruct (at_number tabOrder f <? at_number tabOrder m)%js;
     destruct (negb (length (Set_of tabOrder) =? length tabOrder)%nat);
     destruct (1 <? _)%nat;
     (split; [reflexivity | split; [reflexivity | cbn; lia]])).
Qed.

Lemma checkCompleteness_issues elements tabOrder :
  (fst (checkCompleteness elements tabOrder) = []
   ↔ length elements = length tabOrder)
  ∧ (length (fst (checkCompleteness elements tabOrder))
     ≤ length (snd (checkCompleteness elements tabOrder)))%nat.
Proof.
  unfold checkCompleteness.
  destruct (Nat.eqb_spec (length elements) (length tabOrder)) as [Heq|Hne];
    destruct (has_gaps _); cbn; (split; [ | lia]); split; congruence.
Qed.

(** X14: The validation [main] prints has no issue exactly when both of its
    flags hold, and every issue comes with a recommendation: the closing
    line of the report, printed when there is neither issue nor
    recommendation, is printed exactly when there is no
    recommendation. *)
Theorem validation_flags_and_issues JSON_parse argv v :
  main JSON_parse argv = Done v →
  (issues v = [] ↔ logical v = true ∧ complete v = true)
  ∧ (length (issues v) ≤ length (recommendations v))%nat.
Proof.
  unfold main. destruct (parseInput _ _) as [i| |]; [ | discriminate..].
  intros [= <-]. cbn [issues logical complete recommendations].
  destruct (validateLogicalOrder_flags (elements i) (tabOrder i) (expectedOrder i))
    as (-> & -> & Hle). cbn zeta in Hle.
  destruct (checkCompleteness_issues (elements i) (tabOrder i)) as [Hc Hle'].
  split.
  - rewrite andb_true_iff, !Nat.eqb_eq, !length_zero_iff_nil.
    rewrite <- Hc. split.
    + intros [-> ->]%app_eq_nil. tauto.
    + intros (-> & _ & ->). reflexivity.
  - rewrite !length_app. lia.
Qed.

Lemma validation_flags_and_issues_witness :
  ∃ v, main (λ _, None) ["--elements"; "main,header"; "--tab-order"; "1,2,3"]%string = Done v
    ∧ (issues v = [] ↔ logical v = true ∧ complete v = true)
    ∧ (length (issues v) ≤ length (recommendations v))%nat.
Proof.
  eexists. split; [vm_compute; reflexivity | ].
  apply (validation_flags_and_issues (λ _, None)
           ["--elements"; "main,header"; "--tab-order"; "1,2,3"]%string).
  vm_compute. reflexivity.
Defined.
End FocusOrderReport.

Section FocusOrderGaps.
Import Str FocusOrder.
Implicit Types (z : Z) (zs : list Z).

Lemma le_of_Z_of_Z (a b : Z) :
  ((of_Z a : number Qc) <=? of_Z b)%js = true ↔ (a <= b)%Z.
Proof.
  unfold of_Z. rewrite le_Fin. cbn [of_Q Qc_scalar].
  rewrite !this_of_Z, <- Zle_Qle. reflexivity.
Qed.

(** The successor of a safe integer is computed exactly. *)
Lemma successor_of_Z (a b : Z) :
  (Z.abs a < 2 ^ 53)%Z →
  ((of_Z b : number Qc) === of_Z a + of_Z 1)%js = true ↔ b = (a + 1)%Z.
Proof.
  intros Ha. rewrite add_of_Z by lia.
  unfold of_Z. cbn [strict_eq]. cbn [s_eqb Qc_scalar of_Q].
  rewrite Qeq_bool_iff, !this_of_Z. apply inject_Z_injective.
Qed.

(** Inserting an integer into a sorted list of integers. *)
Lemma insert_sorted_integers z zs :
  StronglySorted Z.le zs →
  ∃ zs', insert_sorted (of_Z z) (map of_Z zs) = map of_Z zs'
         ∧ zs' ≡ₚ z :: zs ∧ StronglySorted Z.le zs'.
Proof.
  induction 1 as [|y zs Hs IH Hall]; cbn [map insert_sorted].
  - exists [z]. repeat split; [reflexivity | ]. repeat constructor.
  - destruct (of_Z z <=? of_Z y)%js eqn:Hle.
    + apply le_of_Z_of_Z in Hle. exists (z :: y :: zs).
      split; [reflexivity | split; [reflexivity | ]].
      constructor; [now constructor | ].
      constructor; [exact Hle | ].
      eapply Forall_impl; [exact Hall | ]. cbn. lia.
    + destruct IH as (zs' & -> & Hperm & Hsorted).
      exists (y :: zs'). split; [reflexivity | split].
      * rewrite Hperm. apply perm_swap.
      * constructor; [exact Hsorted | ].
        rewrite Hperm. constructor; [ | exact Hall].
        destruct (Z.le_gt_cases z y) as [Hzy|Hzy]; [ | lia].
        apply le_of_Z_of_Z in Hzy. congruence.
Qed.

(** The comparator sort of a list of integers is its ascending
    rearrangement. *)
Lemma sort_integers zs :
  ∃ zs', sort (map of_Z zs) = map of_Z zs'
         ∧ zs' ≡ₚ zs ∧ StronglySorted Z.le zs'.
Proof.
  induction zs as [|z zs (zs' & IH & Hperm & Hsorted)]; cbn.
  - exists []. repeat split; constructor.
  - unfold sort in IH. rewrite IH.
    destruct (insert_sorted_integers z zs' Hsorted) as (zs'' & -> & Hperm' & Hs').
    exists zs''. split; [reflexivity | split; [ | exact Hs']].
    now rewrite Hperm', Hperm.
Qed.

Lemma has_gaps_integers zs :
  Forall (λ z, (Z.abs z < 2 ^ 53)%Z) zs →
  has_gaps (map of_Z zs) = false
  ↔ ∃ m, zs = seqZ m (Z.of_nat (length zs)).
Proof.
  induction zs as [|a [|b r] IH]; intros Hsafe.
  - cbn. split; [intros _; exists 0%Z; reflexivity | reflexivity].
  - cbn. split; [intros _; exists a; reflexivity | reflexivity].
  - change (has_gaps (map of_Z (a :: b :: r)))
      with (negb ((of_Z b : number Qc) === of_Z a + of_Z 1)%js
            || has_gaps (map of_Z (b :: r))).
    apply Forall_cons in Hsafe as [Ha Hsafe].
    rewrite orb_false_iff, negb_false_iff, (successor_of_Z a b Ha), (IH Hsafe).
    cbn [length]. split.
    + intros [Hb [m Hm]]. exists a.
      rewrite seqZ_cons by lia. f_equal.
      replace (Z.pred (Z.of_nat (S (S (length r))))) with (Z.of_nat (S (length r))) by lia.
      rewrite Hm at 1.
      rewrite seqZ_cons in Hm by lia. injection Hm as Hm _.
      f_equal. lia.
    + intros [m Hm]. rewrite seqZ_cons in Hm by lia.
      injection Hm as -> Hm.
      replace (Z.pred (Z.of_nat (S (S (length r))))) with (Z.of_nat (S (length r))) in Hm by lia.
      rewrite seqZ_cons in Hm by lia. injection Hm as Hb Hm.
      split; [lia | ]. exists b. rewrite seqZ_cons by lia.
      f_equal. rewrite Hb at 1. exact Hm.
Qed.

Lemma seqZ_sorted m n : StronglySorted Z.le (seqZ m n).
Proof.
  destruct (Z.le_gt_cases n 0) as [Hn|Hn]; [rewrite seqZ_nil by lia; constructor | ].
  rewrite <- (Z2Nat.id n) by lia. generalize (Z.to_nat n) as k. clear.
  intros k. revert m. induction k as [|k IH]; intros m; [constructor | ].
  rewrite seqZ_cons by lia.
  replace (Z.pred (Z.of_nat (S k))) with (Z.of_nat k) by lia.
  constructor; [apply IH | ].
  apply Forall_seqZ. lia.
Qed.

(** X15: For tab indices that are safe integers (below 2^53 in size, where
    [val + 1] is exact), [checkCompleteness] recommends sequential indices
    unless the indices are, in some order, consecutive integers without
    repetition. *)
Theorem sequential_indices_recommended elements zs :
  Forall (λ z, (Z.abs z < 2 ^ 53)%Z) zs →
  [Text "Consider using sequential tab indices for better predictability"]
    ∈ snd (checkCompleteness elements (map of_Z zs))
  ↔ ¬ ∃ m, zs ≡ₚ seqZ m (Z.of_nat (length zs)).
Proof.
  intros Hsafe.
  assert (Hgaps : has_gaps (sort (map of_Z zs)) = false
                  ↔ ∃ m, zs ≡ₚ seqZ m (Z.of_nat (length zs))).
  { destruct (sort_integers zs) as (zs' & -> & Hperm & Hsorted).
    rewrite has_gaps_integers by now rewrite Hperm.
    pose proof (Permutation_length Hperm) as Hlen. rewrite Hlen.
    split.
    - intros [m Hm]. exists m. rewrite <- Hm. symmetry. exact Hperm.
    - intros [m Hm]. exists m.
      apply (StronglySorted_unique Z.le); [exact Hsorted | apply seqZ_sorted | ].
      etransitivity; [exact Hperm | exact Hm]. }
  rewrite <- Hgaps. unfold checkCompleteness.
  destruct (has_gaps _); destruct (negb _); cbn;
    rewrite ?elem_of_cons, ?elem_of_nil;
    intuition (try discriminate; try congruence; auto).
Qed.

Lemma sequential_indices_recommended_witness :
  [Text "Consider using sequential tab indices for better predictability"]
    ∈ snd (checkCompleteness ["a"; "b"; "c"]%string (map of_Z [3; 1; 2]%Z))
  ↔ ¬ ∃ m, [3; 1; 2]%Z ≡ₚ seqZ m (Z.of_nat (length [3; 1; 2]%Z)).
Proof.
  apply (sequential_indices_recommended ["a"; "b"; "c"]%string [3; 1; 2]%Z).
  repeat constructor.
Defined.

(** Beyond the safe integers the sum is rounded: after 2^53 comes 2^53 + 2,
    and [2^53 + 1] is not reached by adding 1. *)
Example unsafe_successor :
  ((of_Z (2 ^ 53) : number Qc) + of_Z 1)%js = of_Z (2 ^ 53)
  ∧ has_gaps [of_Z (2 ^ 53); of_Z (2 ^ 53)] = false.
Proof. split; vm_compute; reflexivity. Qed.

End FocusOrderGaps.

(** ** Font size converter: conversions, parsing and the check *)

Section FontSizeConversions.
Import Str FontSize.
Implicit Types (b : Qc) (u t w : string).

Lemma unit_cases (u : string) :
  u ∈ units → u = "px"%string ∨ u = "pt"%string ∨ u = "em"%string ∨ u = "rem"%string.
Proof. unfold units. rewrite !elem_of_cons, elem_of_nil. tauto. Qed.

(** Two values near the same one are near each other. *)
Lemma near_both (e1 e2 x a c : Q) :
  (0 <= e1)%Q → (0 <= e2)%Q → (e1 <= 1 # 2)%Q →
  near e1 x a → near e2 x c → near (2 * (e1 + e2)) a c.
Proof.
  unfold near. intros H1 H2 Hhalf Ha Hc.
  assert (Hx : (e1 * Qabs x <= (1 # 2) * Qabs x)%Q).
  { apply Qmult_le_compat_r; [exact Hhalf | apply Qabs_nonneg]. }
  assert (Hxa : (Qabs x <= 2 * Qabs a)%Q).
  { revert Ha Hx. generalize (e1 * Qabs x)%Q. intros. absolute; Lqa.lra. }
  assert (He : ((e1 + e2) * Qabs x <= (e1 + e2) * (2 * Qabs a))%Q).
  { apply mul_le_mul; [Lqa.lra | apply Qabs_nonneg | Lqa.lra | exact Hxa]. }
  rewrite Qmult_plus_distr_l in He.
  setoid_replace (2 * (e1 + e2) * Qabs a)%Q with ((e1 + e2) * (2 * Qabs a))%Q
    using relation Qeq by ring.
  revert Ha Hc He Hx.
  generalize (e1 * Qabs x)%Q, (e2 * Qabs x)%Q, ((e1 + e2) * (2 * Qabs a))%Q.
  intros. absolute; Lqa.lra.
Qed.

(** X16: For a value and a base font size of a size between 2^-300 and
    2^300, converting from [u] to [t] and then from [t] to [w] gives a
    finite value within the relative error 2^-48 of the one that converting
    from [u] to [w] gives; the two need not be equal, as the way through
    [t] rounds twice more. *)
Theorem conversions_compose (v b : Qc) u t w :
  magnitude 300 v → magnitude 300 b →
  ∃ direct through : Qc,
    outputValue (performConversion {| value := Fin v; unit := u |} w (Fin b))
    = Fin direct
    ∧ outputValue
        (performConversion
           {| value := outputValue
                         (performConversion {| value := Fin v; unit := u |} t (Fin b));
              unit := t |} w (Fin b))
      = Fin through
    ∧ near (2 ^ (-48)) direct through.
Proof.
  intros Mv Hb.
  destruct (factor_finite u b Hb) as (fu & Hfu & Mu).
  destruct (factor_finite t b Hb) as (ft & Hft & Mt).
  destruct (factor_finite w b Hb) as (fw & Hfw & Mw).
  pose proof (magnitude_nonzero _ _ Mt) as Nt.
  pose proof (magnitude_nonzero _ _ Mw) as Nw.
  unfold performConversion. cbn [value unit outputValue].
  assert (M1 : magnitude 600 (v * fu)) by now apply (magnitude_mul 300 300).
  assert (M2 : magnitude 900 (v * fu / ft)) by now apply (magnitude_div 600 300).
  assert (Mx : magnitude 900 (v * fu / fw)) by now apply (magnitude_div 600 300).
  assert (E3 : (v * fu == v * fu / ft * ft)%Q) by now field.
  assert (E4 : (v * fu / fw == v * fu / ft * ft / fw)%Q) by (field; tauto).
  destruct (toPixels_near 0 v v u b fu) as (p1 & -> & H1);
    [constants | constants | apply near_exact | exact Hfu | | ].
  { now apply (magnitude_weaken 600). }
  destruct (fromPixels_near (0 + 2 ^ (-52)) (v * fu) p1 w b fw) as (d & -> & Hd);
    [constants | constants | exact H1 | exact Hfw | exact Nw | | ].
  { now apply (magnitude_weaken 900). }
  destruct (fromPixels_near (0 + 2 ^ (-52)) (v * fu) p1 t b ft) as (p2 & -> & H2);
    [constants | constants | exact H1 | exact Hft | exact Nt | | ].
  { now apply (magnitude_weaken 900). }
  destruct (toPixels_near (0 + 2 ^ (-52) + 2 ^ (-52)) (v * fu / ft) p2 t b ft)
    as (p3 & -> & H3); [constants | constants | exact H2 | exact Hft | | ].
  { apply (magnitude_weaken 600); [lia | ]. now apply (magnitude_eq _ _ _ E3). }
  destruct (fromPixels_near (0 + 2 ^ (-52) + 2 ^ (-52) + 2 ^ (-52))
              (v * fu / ft * ft) p3 w b fw)
    as (p4 & -> & H4); [constants | constants | exact H3 | exact Hfw | exact Nw | | ].
  { apply (magnitude_weaken 900); [lia | ]. now apply (magnitude_eq _ _ _ E4). }
  exists d, p4. split; [reflexivity | split; [reflexivity | ]].
  apply (near_eq _ _ _ _ (Qeq_sym _ _ E4)) in H4.
  apply (near_weaken
           (2 * ((0 + 2 ^ (-52) + 2 ^ (-52))
                 + (0 + 2 ^ (-52) + 2 ^ (-52) + 2 ^ (-52) + 2 ^ (-52)))));
    [constants | ].
  apply (near_both _ _ (v * fu / fw)); [constants | constants | constants | exact Hd | exact H4].
Qed.

Lemma conversions_compose_witness :
  ∃ direct through : Qc,
    outputValue (performConversion {| value := of_Z 12; unit := "pt" |} "px" (of_Z 16))
    = Fin direct
    ∧ outputValue
        (performConversion
           {| value := outputValue
                         (performConversion {| value := of_Z 12; unit := "pt" |} "em" (of_Z 16));
              unit := "em" |} "px" (of_Z 16))
      = Fin through
    ∧ near (2 ^ (-48)) direct through.
Proof.
  apply (conversions_compose (Q2Qc (inject_Z 12)) (Q2Qc (inject_Z 16)) "pt" "em" "px").
  - split; vm_compute; discriminate.
  - split; vm_compute; discriminate.
Defined.

(** The two ways differ: 3px is 3px, and through pt it is
    3.0000000000000004px. *)
Example conversion_through_pt :
  outputValue (performConversion {| value := of_Z 3; unit := "px" |} "px" (of_Z 16))
  = of_Z 3
  ∧ outputValue
      (performConversion
         {| value := outputValue
                       (performConversion {| value := of_Z 3; unit := "px" |} "pt" (of_Z 16));
            unit := "pt" |} "px" (of_Z 16))
    = Fin (Q2Qc (6755399441055745 # 2251799813685248)).
Proof. split; vm_compute; reflexivity. Qed.

(** X17: A target unit that is none of the four leaves the pixel value as it
    is: the number printed with that unit is a number of pixels. *)
Theorem unknown_target_unit_is_pixels input targetUnit base :
  targetUnit ∉ units →
  outputValue (performConversion input targetUnit base)
  = toPixels (value input) (unit input) base
  ∧ outputUnit (performConversion input targetUnit base) = targetUnit.
Proof.
  intros Ht. split; [ | reflexivity].
  unfold performConversion. cbn [outputValue]. unfold fromPixels.
  assert (Hne : ∀ k, k ∈ units → String.eqb targetUnit k = false).
  { intros k Hk. apply String.eqb_neq. intros ->. tauto. }
  rewrite !Hne by (unfold units; set_solver). reflexivity.
Qed.

Lemma unknown_target_unit_witness :
  outputValue (performConversion {| value := of_Z 12; unit := "pt" |} "cm" (of_Z 16))
  = toPixels (of_Z 12) "pt" (of_Z 16)
  ∧ outputUnit (performConversion {| value := of_Z 12; unit := "pt" |} "cm" (of_Z 16)) = "cm"%string.
Proof.
  apply (unknown_target_unit_is_pixels {| value := of_Z 12; unit := "pt" |} "cm" (of_Z 16)).
  unfold units. rewrite !elem_of_cons, elem_of_nil. intuition discriminate.
Defined.
End FontSizeConversions.

Section FontSizeParsing.
Import Str FontSize.






(** A one followed by 309 zeros is read as [Infinity]; 0.1 is read as the
    binary64 value next to it. *)
Example parsed_font_size_overflows :
  parseFontSize_string ("1" ++ string_of_list_ascii (repeat "0"%char 309) ++ "px")
  = Some {| value := PInf; unit := "px" |}.
Proof. vm_compute. reflexivity. Qed.

Example parsed_font_size_rounds :
  parseFontSize_string "0.1em"
  = Some {| value := Fin (Q2Qc (3602879701896397 # 36028797018963968));
            unit := "em" |}.
Proof. vm_compute. reflexivity. Qed.

(** X19: The minimum for headings is the stricter one: a size that passes as
    a heading passes in every other context; and a recommendation is made
    exactly when the minimum is not met. *)
Theorem heading_minimum_is_stricter pxValue context :
  (meetsMinimum (checkAccessibility pxValue "heading") = true →
   meetsMinimum (checkAccessibility pxValue context) = true)
  ∧ (a_recommendations (checkAccessibility pxValue context) = []
     ↔ meetsMinimum (checkAccessibility pxValue context) = true).
Proof.
  split.
  - unfold checkAccessibility. cbn [meetsMinimum String.eqb Ascii.eqb Bool.eqb].
    destruct (String.eqb context "heading"); [tauto | ].
    unfold WCAG_MINIMUM_HEADINGS, WCAG_MINIMUM_BODY_TEXT.
    destruct pxValue as [| | |q]; try (cbn; congruence).
    rewrite !ge_of_Z. intros H. eapply Qle_trans; [ | exact H].
    rewrite <- Zle_Qle. lia.
  - unfold checkAccessibility. cbn [meetsMinimum a_recommendations].
    destruct (pxValue >=? _)%js; cbn [negb]; split; congruence.
Qed.

(** X20: [formatValue] prints pixels to the nearest integer and, for a
    value of a size up to 2^1000, every other unit to the nearest
    thousandth, up to the rounding of the product by 1000 and of the
    quotient by 1000 (a relative error of 2^-50 at most). *)
Theorem formatValue_precision (q : Qc) (unit : string) :
  (Qabs q <= 2 ^ 1000)%Q →
  ∃ r : Qc,
    formatValue (Fin q) unit = [Value (Fin r); Text unit]
    ∧ if String.eqb unit "px"
      then (q - (1 # 2) < r)%Q ∧ (r <= q + (1 # 2))%Q
      else (Qabs (r - q) <= (1 # 2000) + 2 ^ (-50) * (Qabs q + 1))%Q.
Proof.
  intros Hq. unfold formatValue. destruct (String.eqb unit "px").
  - rewrite Math_round_Fin. eexists. split; [reflexivity | ].
    pose proof (Qfloor_half q) as [Hlo Hhi]. cbn zeta in Hlo, Hhi.
    rewrite this_of_Z. split; Lqa.lra.
  - assert (H1000 : this (Q2Qc (inject_Z 1000)) = 1000%Q) by reflexivity.
    assert (Hne : ¬ (Q2Qc (inject_Z 1000) == 0)%Q) by (rewrite H1000; discriminate).
    assert (Hbig : (2000 * 2 ^ 1000 + 1 <= 2 ^ 1023)%Q) by constants.
    assert (Hu : (2 ^ (-53) <= 1 # 4)%Q) by constants.
    assert (Hs : (2 ^ (-1075) <= 2 ^ (-53))%Q) by constants.
    assert (H50 : (2 ^ (-50) == 8 * 2 ^ (-53))%Q) by reflexivity.
    pose proof (two_pos (-53)) as Hu0. pose proof (two_pos (-1075)) as Hs0.
    pose proof (Qabs_nonneg q) as Hq0.
    assert (HuQ : (2 ^ (-53) * Qabs q <= (1 # 4) * Qabs q)%Q).
    { apply Qmult_le_compat_r; assumption. }
    unfold of_Z at 1. cbn [of_Q Qc_scalar].
    (* the product by 1000 *)
    destruct (mul_close q (Q2Qc (inject_Z 1000))) as (c1 & -> & Hc1).
    { rewrite H1000, Qabs_Qmult. change (Qabs 1000) with 1000%Q.
      generalize dependent (Qabs q). intros.
      generalize dependent (2 ^ 1000)%Q. generalize dependent (2 ^ 1023)%Q.
      intros. Lqa.lra. }
    rewrite H1000, Qabs_Qmult in Hc1. change (Qabs 1000) with 1000%Q in Hc1.
    setoid_replace (2 ^ (-53) * (Qabs q * 1000))%Q with (1000 * (2 ^ (-53) * Qabs q))%Q
      using relation Qeq in Hc1 by ring.
    (* the nearest integer *)
    rewrite Math_round_Fin.
    pose proof (Qfloor_half c1) as [Hlo Hhi]. cbn zeta in Hlo, Hhi.
    set (n := Qfloor (c1 + Q2Qc 0.5)%Qc) in *. clearbody n.
    assert (Hthis : this (Q2Qc (inject_Z n)) = inject_Z n) by apply Qred_inject_Z.
    assert (Hn : (Qabs (inject_Z n) <= 2000 * Qabs q + 1)%Q).
    { revert Hc1 HuQ. generalize (2 ^ (-53) * Qabs q)%Q. intros t Hc1 HuQ.
      generalize dependent (2 ^ (-53))%Q. generalize dependent (2 ^ (-1075))%Q.
      generalize dependent (inject_Z n). intros.
      values. absolute; Lqa.lra. }
    assert (Hdiv : (Qabs (inject_Z n / 1000) == Qabs (inject_Z n) * (1 # 1000))%Q).
    { unfold Qdiv. rewrite Qabs_Qmult. reflexivity. }
    (* the quotient by 1000 *)
    unfold of_Z. cbn [of_Q Qc_scalar].
    destruct (div_close (Q2Qc (inject_Z n)) (Q2Qc (inject_Z 1000)) Hne) as (c2 & -> & Hc2).
    { rewrite Hthis, H1000, Hdiv.
      generalize dependent (Qabs (inject_Z n)). generalize dependent (Qabs q).
      generalize dependent (2 ^ 1000)%Q. generalize dependent (2 ^ 1023)%Q.
      intros. Lqa.lra. }
    rewrite Hthis, H1000, Hdiv in Hc2.
    assert (HuN : (2 ^ (-53) * (Qabs (inject_Z n) * (1 # 1000))
                   <= 2 * (2 ^ (-53) * Qabs q) + 2 ^ (-53) * (1 # 1000))%Q).
    { apply Qle_trans with (2 ^ (-53) * ((2000 * Qabs q + 1) * (1 # 1000)))%Q.
      - apply Qmult_le_l; [exact Hu0 | ].
        apply Qmult_le_compat_r; [exact Hn | discriminate].
      - apply Qle_lteq. right. ring. }
    exists c2. split; [reflexivity | ].
    rewrite H50.
    setoid_replace (8 * 2 ^ (-53) * (Qabs q + 1))%Q
      with (8 * (2 ^ (-53) * Qabs q) + 8 * 2 ^ (-53))%Q using relation Qeq by ring.
    revert Hc1 Hc2 HuQ HuN.
    generalize (2 ^ (-53) * Qabs q)%Q, (2 ^ (-53) * (Qabs (inject_Z n) * (1 # 1000)))%Q.
    intros t w Hc1 Hc2 HuQ HuN. clear Hn Hdiv Hbig H50.
    unfold Qdiv in Hc2. change (/ 1000)%Q with (1 # 1000)%Q in Hc2.
    generalize dependent (2 ^ (-53))%Q. generalize dependent (2 ^ (-1075))%Q.
    generalize dependent (inject_Z n). intros.
    values. absolute; Lqa.lra.
Qed.

Lemma formatValue_precision_witness :
  ∃ r : Qc,
    formatValue (of_Z 12) "pt" = [Value (Fin r); Text "pt"]
    ∧ if String.eqb "pt" "px"
      then (Q2Qc (inject_Z 12) - (1 # 2) < r)%Q ∧ (r <= Q2Qc (inject_Z 12) + (1 # 2))%Q
      else (Qabs (r - Q2Qc (inject_Z 12))
            <= (1 # 2000) + 2 ^ (-50) * (Qabs (Q2Qc (inject_Z 12)) + 1))%Q.
Proof.
  apply (formatValue_precision (Q2Qc (inject_Z 12)) "pt").
  vm_compute. discriminate.
Defined.

(** The product is rounded before [Math.round]: 0.5005em is printed as
    0.5em, since 0.5005 * 1000 is 500.49999999999994. *)
Example formatValue_rounds_the_product :
  formatValue (lit 0.5005) "em" = [Value (lit 0.5); Text "em"]
  ∧ (lit 0.5005 * of_Z 1000)%js
    = Fin (Q2Qc (8804889115230207 # 17592186044416)).
Proof. split; vm_compute; reflexivity. Qed.

(** Beyond the largest binary64 value over 1000 the product is infinite,
    and so is what is printed. *)
Example formatValue_overflows :
  formatValue (of_Z (2 ^ 1020)) "em" = [Value PInf; Text "em"].
Proof. vm_compute. reflexivity. Qed.
End FontSizeParsing.

(** ** Motion tester: the assessment as a whole *)

Section MotionAssessment.
Import Str Motion.

(** The reduced-motion flag of the assessment is the negation of the
    preference, whatever the animation is. *)
Lemma reduced_motion_flag duration type flashes reducedMotion :
  c_reducedMotion (a_compliance (assessAnimation duration type flashes reducedMotion))
  = negb reducedMotion.
Proof.
  unfold assessAnimation. cbn [a_compliance c_reducedMotion].
  destruct reducedMotion; [ | reflexivity]. cbn [negb orb].
  unfold testReducedMotion.
  destruct (duration >? MAX_AUTO_DURATION)%js; [destruct (existsb _ _) | ];
    destruct (existsb _ _); reflexivity.
Qed.

Lemma testDuration_compliant duration type :
  duration ≠ NaN →
  compliant (testDuration duration type) = false ↔ exceeds duration 5.
Proof.
  intros Hnum. unfold testDuration, MAX_AUTO_DURATION.
  destruct duration as [| | |q]; [congruence | cbn; tauto | cbn; intuition discriminate | ].
  destruct (Fin q <=? of_Z 5)%js eqn:Hle; cbn [compliant exceeds].
  - apply le_of_Z in Hle.
    split; [discriminate | intros Hlt]. now apply Qlt_not_le in Hlt.
  - split; [intros _ | reflexivity]. apply Qnot_le_lt. intros Hq.
    apply le_of_Z in Hq. congruence.
Qed.

(** The duration check looks at the duration alone. *)
Theorem duration_check_ignores_type duration type flashes reducedMotion :
  duration ≠ NaN →
  c_duration (a_compliance (assessAnimation duration type flashes reducedMotion))
    = false ↔ exceeds duration 5.
Proof.
  intros Hnum. unfold assessAnimation. cbn [a_compliance c_duration].
  now apply testDuration_compliant.
Qed.

Lemma duration_check_ignores_type_witness :
  c_duration (a_compliance (assessAnimation (of_Z 6) "fade" (of_Z 0) false))
    = false ↔ exceeds (of_Z 6) 5.
Proof. apply duration_check_ignores_type. discriminate. Defined.

Lemma gt_le_false (x y : number Qc) : (x >? y)%js = true → (x <=? y)%js = false.
Proof.
  destruct x as [| | |a], y as [| | |b]; cbn; try discriminate; try reflexivity.
  intros H. apply (proj1 (gt_Fin a b)) in H.
  apply not_true_iff_false. intros Hle. apply Qle_bool_iff in Hle.
  now apply Qlt_not_le in H.
Qed.

(** X21: No issue is listed exactly when the three flags are all true. *)
Theorem no_issue_iff_compliant duration type flashes reducedMotion :
  let a := assessAnimation duration type flashes reducedMotion in
  a_issues a = []
  ↔ c_reducedMotion (a_compliance a) = true
    ∧ c_flashing (a_compliance a) = true
    ∧ c_duration (a_compliance a) = true.
Proof.
  cbn zeta. rewrite reduced_motion_flag.
  unfold assessAnimation. cbn [a_issues a_compliance c_flashing c_duration].
  unfold testReducedMotion, testFlashing, testDuration.
  destruct (duration >? MAX_AUTO_DURATION)%js eqn:Hgt.
  - apply gt_le_false in Hgt. rewrite Hgt.
    destruct reducedMotion, (existsb _ _), (existsb _ _),
      (flashes <=? MAX_FLASHES_PER_SECOND)%js; cbn; intuition discriminate.
  - destruct reducedMotion, (existsb _ _),
      (flashes <=? MAX_FLASHES_PER_SECOND)%js,
      (duration <=? MAX_AUTO_DURATION)%js; cbn; intuition discriminate.
Qed.

(** The recommendations hold every recommendation of the three tests,
    each once. *)
Theorem recommendations_deduplicated duration type flashes reducedMotion :
  let a := assessAnimation duration type flashes reducedMotion in
  NoDup (a_recommendations a)
  ∧ ∀ text, text ∈ a_recommendations a
      ↔ text ∈ recommendations (testReducedMotion duration type reducedMotion)
        ∨ text ∈ recommendations (testFlashing flashes)
        ∨ text ∈ recommendations (testDuration duration type).
Proof.
  cbn zeta. unfold assessAnimation. cbn [a_recommendations]. split.
  - apply NoDup_Set_of.
  - intros text. rewrite elem_of_Set_of, !elem_of_app. tauto.
Qed.

(** X22: On the command line the preference is set by the value [true] and by
    nothing else: [--reduced-motion] without a value, or with any other
    value, leaves it [false]. *)
Theorem reduced_motion_needs_true parseFloat JSON_parse options a :
  opt options "json" = None →
  parseInput parseFloat JSON_parse options = Done a →
  reducedMotion a = true
  ↔ options !! "reducedMotion"%string = Some (FlagValue "true")
    ∨ options !! "reduced-motion"%string = Some (FlagValue "true").
Proof.
  intros Hjson. unfold parseInput. rewrite Hjson.
  assert (Htrue : ∀ o, is_true_string o = true ↔ o = Some (FlagValue "true"%string)).
  { intros [[|s]|]; cbn; try (split; congruence).
    rewrite String.eqb_eq. split; congruence. }
  assert (Hopt : ∀ k, options !! k = Some (FlagValue "true"%string) →
                      opt options k = Some (FlagValue "true"%string)).
  { intros k Hk. unfold opt. now rewrite Hk. }
  assert (Hcore : reducedMotion a =
            (if bool_decide (is_Some (or_flag (opt options "reducedMotion")
                                              (opt options "reduced-motion")))
             then is_true_string (options !! "reducedMotion"%string)
                  || is_true_string (options !! "reduced-motion"%string)
             else false) →
          reducedMotion a = true
          ↔ options !! "reducedMotion"%string = Some (FlagValue "true")
            ∨ options !! "reduced-motion"%string = Some (FlagValue "true")).
  { intros ->. case_bool_decide as Hsome.
    - rewrite orb_true_iff, !Htrue. tauto.
    - split; [discriminate | ]. intros Hflag. destruct Hsome.
      destruct Hflag as [H|H]; apply Hopt in H; unfold or_flag.
      + rewrite H. cbn. eauto.
      + rewrite H. destruct (opt options "reducedMotion") as [f|];
          [destruct (flag_truthy f) | ]; eauto. }
  intros Ha. apply Hcore.
  destruct (opt options "type") as [[|s]|]; cbn in Ha;
    [discriminate | injection Ha as <-; reflexivity..].
Qed.

Lemma reduced_motion_needs_true_witness :
  reducedMotion
    {| duration := of_Z 3; type := "unknown"; flashes := of_Z 0;
       reducedMotion := false |} = true
  ↔ parseArgs ["--duration"; "3"; "--reduced-motion"] !! "reducedMotion"%string
      = Some (FlagValue "true")
    ∨ parseArgs ["--duration"; "3"; "--reduced-motion"] !! "reduced-motion"%string
      = Some (FlagValue "true").
Proof.
  apply (reduced_motion_needs_true (λ _, of_Z 3) (λ _, None)
           (parseArgs ["--duration"; "3"; "--reduced-motion"])).
  - vm_compute. reflexivity.
  - vm_compute. reflexivity.
Defined.
End MotionAssessment.

(** ** Skill file validator *)

Section ValidateProperties.
Import Str Validate.
Open Scope string_scope.

Lemma no_error_fields parsed :
  errors (validateSkillFile (inr parsed)) = [] →
  ∃ name description,
    data_name parsed = YString name ∧ name_pattern name = true
    ∧ data_description parsed = YString description
    ∧ (1 ≤ String.length description ≤ 1024)%nat.
Proof.
  unfold validateSkillFile. cbn [errors]. intros H.
  destruct (data_name parsed) as [|n|t] eqn:Hn;
    destruct (data_description parsed) as [|d|t'] eqn:Hd;
    cbn [yaml_truthy] in H;
    repeat match type of H with
           | context [if ?c then _ else _] => destruct c eqn:?; cbn [negb] in H
           end;
    try (apply (f_equal length) in H; rewrite ?length_app in H; cbn in H; lia).
  match goal with
  | Hp : negb (name_pattern n) = false, Hl : (_ || _) = false |- _ =>
      apply negb_false_iff in Hp;
      apply orb_false_iff in Hl as [H1 H2]; apply Nat.ltb_ge in H1, H2
  end.
  exists n, d. repeat split; auto.
Qed.

(** X23: A file has no error exactly when it could be parsed, its name is a
    string of 1 to 64 lower-case letters, digits and hyphens, and its
    description is a string of 1 to 1024 characters. *)
Theorem valid_skill_file file :
  errors (validateSkillFile file) = []
  ↔ ∃ parsed name description,
      file = inr parsed
      ∧ data_name parsed = YString name ∧ name_pattern name = true
      ∧ data_description parsed = YString description
      ∧ (1 ≤ String.length description ≤ 1024)%nat.
Proof.
  destruct file as [message|parsed].
  - cbn. split; [discriminate | ]. intros (? & ? & ? & ? & _). discriminate.
  - split.
    + intros H. destruct (no_error_fields parsed H) as (n & d & Hfields).
      exists parsed, n, d. auto.
    + intros (parsed' & n & d & Heq & Hn & Hp & Hd & Hlen).
      injection Heq as <-. unfold validateSkillFile. cbn [errors].
      rewrite Hn, Hd.
      assert (Hne : ∀ s, (1 ≤ String.length s)%nat → nonempty s = true).
      { intros [|? ?]; cbn; [lia | reflexivity]. }
      pose proof Hp as Hp'. unfold name_pattern in Hp'.
      rewrite !andb_true_iff, Nat.leb_le in Hp'.
      cbn [yaml_truthy].
      rewrite (Hne n), Hp, (Hne d) by tauto.
      destruct (Nat.ltb_spec (String.length d) 1); [lia | ].
      destruct (Nat.ltb_spec 1024 (String.length d)); [lia | ]. reflexivity.
Qed.

Lemma includes_shorter c sub s :
  includes (String c sub) s = true → includes sub s = true.
Proof.
  induction s as [|b s IH]; cbn [includes startsWith].
  - rewrite orb_false_r. discriminate.
  - rewrite !orb_true_iff. intros [H|H].
    + right. destruct (ascii_dec c b); [ | discriminate].
      destruct s; cbn [includes]; rewrite H; reflexivity.
    + right. auto.
Qed.

(** X24: The warning about the missing section depends on the heading
    [## When to Use] alone: a body with [### When to Use] holds it too. *)
Theorem when_to_use_warning parsed :
  NoWhenToUse ∈ warnings (validateSkillFile (inr parsed))
  ↔ includes "## When to Use" (content parsed) = false.
Proof.
  unfold validateSkillFile. cbn [warnings].
  destruct (includes "## When to Use" (content parsed)) eqn:H2; cbn [negb andb].
  - split; [ | discriminate].
    destruct (negb _); cbn; rewrite ?elem_of_cons, ?elem_of_nil;
      intuition discriminate.
  - destruct (includes "### When to Use" (content parsed)) eqn:H3.
    { apply includes_shorter in H3. congruence. }
    cbn [negb]. split; [reflexivity | intros _].
    apply elem_of_app. right. now left.
Qed.

Lemma totals_foldl skillFiles e w :
  foldl (λ '(totalErrors, totalWarnings) skillFile,
           let r := validateSkillFile skillFile in
           ((totalErrors + length (errors r))%nat,
            (totalWarnings + length (warnings r))%nat))
        (e, w) skillFiles
  = ((e + sum_list (map (λ f, length (errors (validateSkillFile f))) skillFiles))%nat,
     (w + sum_list (map (λ f, length (warnings (validateSkillFile f))) skillFiles))%nat).
Proof.
  revert e w. induction skillFiles as [|f l IH]; intros e w; cbn.
  - f_equal; lia.
  - rewrite IH. f_equal; lia.
Qed.

(** X25: [validateAllSkills] exits with code 0 exactly when there is at least
    one file and no file has an error; warnings never change the code. *)
Theorem validation_exit_code skillFiles :
  exit_code (outcome_of (validateAllSkills skillFiles)) = 0%Z
  ↔ skillFiles ≠ []
    ∧ ∀ file, file ∈ skillFiles → errors (validateSkillFile file) = [].
Proof.
  unfold validateAllSkills.
  destruct skillFiles as [|f l]; [cbn; split; [discriminate | intros [H _]; now destruct H] | ].
  cbn [length Nat.eqb]. rewrite totals_foldl. cbn [outcome_of].
  set (n := (0 + sum_list _)%nat).
  assert (Hn : n = 0%nat ↔ ∀ file, file ∈ f :: l → errors (validateSkillFile file) = []).
  { unfold n. generalize (f :: l) as files. clear. intros files.
    induction files as [|f l IH]; cbn.
    - split; [intros _ file Hin; now apply elem_of_nil in Hin | reflexivity].
    - cbn in IH. split.
      + intros H file Hin. apply elem_of_cons in Hin as [->|Hin].
        * apply length_zero_iff_nil. lia.
        * apply IH; [lia | exact Hin].
      + intros H. rewrite (H f) by now left. cbn. apply IH.
        intros file Hin. apply H. now right. }
  destruct (Nat.ltb_spec 0 n) as [Hpos|Hzero].
  - cbn. split; [discriminate | ]. intros [_ H]. apply Hn in H. lia.
  - assert (Hz : n = 0%nat) by lia.
    split; [intros _ | intros _; destruct (0 <? _)%nat; reflexivity].
    split; [discriminate | now apply Hn].
Qed.
End ValidateProperties.

(** ** Skill metadata build: the entries of skills.json *)

Section BuildConfig.
Import Str Build.
Open Scope string_scope.
Open Scope list_scope.

Lemma lookup_foldl_reducer skills acc key :
  foldl reducer acc skills !! key
  = match last (filter (λ s, name s = key ∧ key ≠ "__proto__") skills) with
    | Some skill =>
        Some {| e_description := description skill;
                e_directory := directory skill;
                category := category_of key |}
    | None => acc !! key
    end.
Proof.
  revert acc. induction skills as [|s l IH] using rev_ind; intros acc.
  - reflexivity.
  - rewrite foldl_app, filter_app. cbn [foldl]. unfold reducer at 1.
    destruct (String.eqb_spec (name s) "__proto__") as [Hp|Hp].
    + rewrite IH. rewrite filter_cons_False, filter_nil, app_nil_r; [reflexivity | ].
      intros [<- Hkey]. auto.
    + destruct (decide (name s = key)) as [<-|Hne].
      * rewrite lookup_insert_eq.
        rewrite filter_cons_True, filter_nil by auto.
        now rewrite last_snoc.
      * rewrite lookup_insert_ne by exact Hne. rewrite IH.
        rewrite filter_cons_False, filter_nil, app_nil_r; [reflexivity | ].
        intros [Heq _]. auto.
Qed.

Lemma dom_foldl_reducer skills acc :
  dom (foldl reducer acc skills)
  = dom acc ∪ list_to_set (filter (λ n, n ≠ "__proto__") (map name skills)).
Proof.
  revert acc. induction skills as [|s l IH]; intros acc; cbn [foldl map].
  - rewrite filter_nil. cbn. now rewrite union_empty_r_L.
  - rewrite IH. unfold reducer.
    destruct (String.eqb_spec (name s) "__proto__") as [Hp|Hp].
    + rewrite filter_cons_False by auto. reflexivity.
    + rewrite filter_cons_True by auto. rewrite dom_insert_L.
      cbn [list_to_set]. rewrite (union_comm_L _ (dom acc)), <- union_assoc_L.
      reflexivity.
Qed.

Lemma size_list_to_set_le (l : list string) :
  (size (list_to_set l : gset string) ≤ length l)%nat.
Proof.
  induction l as [|x l IH]; cbn [list_to_set length].
  - now rewrite size_empty.
  - rewrite size_union_alt, size_singleton.
    assert (size (list_to_set l ∖ {[x]} : gset string) ≤ size (list_to_set l : gset string))%nat
      by (apply subseteq_size, subseteq_difference_l; reflexivity).
    lia.
Qed.

(** X26: The entry written under a name is that of the last skill of the list
    with this name, and the name [__proto__] gets no entry.  So
    [totalSkills], which counts the skills of the list, is never less
    than the number of entries, and is that number when the names are
    pairwise distinct and none is [__proto__]. *)
Theorem config_entries now skills :
  let config := generateSkillsConfig now skills in
  (∀ key,
      Build.skills config !! key
      = (λ skill, {| e_description := description skill;
                     e_directory := directory skill;
                     category := category_of key |})
        <$> last (filter (λ s, name s = key ∧ key ≠ "__proto__") skills))
  ∧ (size (Build.skills config) ≤ totalSkills config)%nat
  ∧ (NoDup (map name skills) → "__proto__" ∉ map name skills →
     size (Build.skills config) = totalSkills config).
Proof.
  cbn zeta. unfold generateSkillsConfig. cbn [Build.skills totalSkills].
  split.
  - intros key. rewrite lookup_foldl_reducer, lookup_empty.
    now destruct (last _).
  - rewrite <- size_dom, dom_foldl_reducer, dom_empty_L, union_empty_l_L.
    split.
    + etransitivity; [apply size_list_to_set_le | ].
      etransitivity; [apply length_filter | ]. now rewrite length_map.
    + intros Hnd Hp. rewrite filter_all by (intros x Hx ->; auto).
      rewrite size_list_to_set by exact Hnd. apply length_map.
Qed.
End BuildConfig.

(** ** Skill metadata build: validated files and the lists of AGENTS.md *)

Section MetadataProperties.
Import Str Validate Metadata.
Open Scope string_scope.
Open Scope list_scope.

Lemma elem_of_collected_from m skillFiles acc :
  m ∈ foldl (λ skills skillFile,
               match file_parsed skillFile with
               | inr parsed =>
                   if yaml_truthy (data_name parsed)
                      && yaml_truthy (data_description parsed)
                   then skills ++ [{| m_name := data_name parsed;
                                      m_description := data_description parsed;
                                      m_directory := file_directory skillFile;
                                      m_path := file_path skillFile |}]
                   else skills
               | inl _ => skills
               end)
            acc skillFiles
  ↔ m ∈ acc
    ∨ ∃ skillFile parsed,
        skillFile ∈ skillFiles ∧ file_parsed skillFile = inr parsed
        ∧ yaml_truthy (data_name parsed) && yaml_truthy (data_description parsed) = true
        ∧ m = {| m_name := data_name parsed;
                 m_description := data_description parsed;
                 m_directory := file_directory skillFile;
                 m_path := file_path skillFile |}.
Proof.
  revert acc. induction skillFiles as [|f l IH]; intros acc; cbn [foldl].
  - split; [auto | ]. intros [H|(f & p & H & _)]; [exact H | ].
    now apply elem_of_nil in H.
  - rewrite IH. clear IH. split.
    + intros [Hacc|(f' & p & Hin & Hp & Ht & ->)].
      * destruct (file_parsed f) as [msg|p] eqn:Hf; [now left | ].
        destruct (yaml_truthy _ && yaml_truthy _) eqn:Ht; [ | now left].
        apply elem_of_app in Hacc as [Hacc|Hlast]; [now left | ].
        apply list_elem_of_singleton in Hlast. right. exists f, p.
        split; [now left | auto].
      * right. exists f', p. split; [now right | auto].
    + intros [Hacc|(f' & p & Hin & Hp & Ht & ->)].
      * left. destruct (file_parsed f) as [msg|p]; [exact Hacc | ].
        destruct (_ && _); [ | exact Hacc]. apply elem_of_app. now left.
      * apply elem_of_cons in Hin as [->|Hin].
        -- left. rewrite Hp, Ht. apply elem_of_app. right. now left.
        -- right. exists f', p. auto.
Qed.

(** What the build collects: the files that parse and have a truthy name
    and a truthy description, whatever else is wrong with them. *)
Lemma elem_of_collected m skillFiles :
  m ∈ collected skillFiles
  ↔ ∃ skillFile parsed,
      skillFile ∈ skillFiles ∧ file_parsed skillFile = inr parsed
      ∧ yaml_truthy (data_name parsed) && yaml_truthy (data_description parsed) = true
      ∧ m = {| m_name := data_name parsed;
               m_description := data_description parsed;
               m_directory := file_directory skillFile;
               m_path := file_path skillFile |}.
Proof.
  unfold collected. rewrite elem_of_collected_from, elem_of_nil. tauto.
Qed.

Lemma name_pattern_nonempty name : name_pattern name = true → nonempty name = true.
Proof.
  unfold name_pattern. rewrite !andb_true_iff, Nat.leb_le.
  destruct name; cbn; [lia | reflexivity].
Qed.

(** X27: A file the validator finds no error in is collected by the build,
    with a name that is a string of the permitted form, hence not
    [__proto__], and a description that is a string. *)
Theorem validated_file_is_collected skillFiles skillFile :
  skillFile ∈ skillFiles →
  errors (validateSkillFile (file_parsed skillFile)) = [] →
  ∃ name description,
    {| m_name := YString name; m_description := YString description;
       m_directory := file_directory skillFile;
       m_path := file_path skillFile |} ∈ collected skillFiles
    ∧ name_pattern name = true
    ∧ name ≠ "__proto__".
Proof.
  intros Hin Hvalid.
  destruct (file_parsed skillFile) as [message|parsed] eqn:Hp; [discriminate | ].
  apply no_error_fields in Hvalid as (n & d & Hn & Hpat & Hd & Hlen).
  exists n, d. split; [ | split; [exact Hpat | ]].
  - apply elem_of_collected. exists skillFile, parsed.
    rewrite Hn, Hd. cbn [yaml_truthy].
    rewrite (name_pattern_nonempty n Hpat).
    repeat split; auto. destruct d; cbn in *; [lia | reflexivity].
  - intros ->. vm_compute in Hpat. discriminate.
Qed.

Lemma validated_file_is_collected_witness :
  ∃ name description,
    {| m_name := YString name; m_description := YString description;
       m_directory := "aria-basics"; m_path := "skills/aria-basics/SKILL.md" |}
      ∈ collected
          [{| file_directory := "aria-basics";
              file_path := "skills/aria-basics/SKILL.md";
              file_parsed :=
                inr {| data_name := YString "aria-basics";
                       data_description := YString "ARIA roles and states";
                       content := "## When to Use" |} |}]
    ∧ name_pattern name = true
    ∧ name ≠ "__proto__".
Proof.
  apply (validated_file_is_collected
           [{| file_directory := "aria-basics";
               file_path := "skills/aria-basics/SKILL.md";
               file_parsed :=
                 inr {| data_name := YString "aria-basics";
                        data_description := YString "ARIA roles and states";
                        content := "## When to Use" |} |}]
           {| file_directory := "aria-basics";
              file_path := "skills/aria-basics/SKILL.md";
              file_parsed :=
                inr {| data_name := YString "aria-basics";
                       data_description := YString "ARIA roles and states";
                       content := "## When to Use" |} |}).
  - now left.
  - vm_compute. reflexivity.
Defined.

(** X28: The lists of AGENTS.md and the categories of skills.json: the tools
    list holds the skills of category "tools"; the skills of category
    "deep" are in the deep list and those of category "router" in the
    router list, but these two lists are not limited to them. *)
Theorem sections_and_categories skills skill :
  skill ∈ skills →
  (skill ∈ tools_section skills ↔ Build.category_of (Build.name skill) = "tools")
  ∧ (Build.category_of (Build.name skill) = "deep" → skill ∈ deep_section skills)
  ∧ (Build.category_of (Build.name skill) = "router" → skill ∈ router_section skills).
Proof.
  intros Hin. unfold tools_section, deep_section, router_section.
  rewrite !list_elem_of_filter. unfold Build.category_of, Build.toolSuffixes.
  cbn zeta.
  destruct (existsb _ _); [repeat split; auto; discriminate | ].
  destruct (includes "-deep" _); [repeat split; auto; try discriminate; intros []; discriminate | ].
  destruct (startsWith "wcag-" _); repeat split; auto; try discriminate;
    intros []; discriminate.
Qed.

Lemma sections_and_categories_witness :
  ({| Build.name := "wcag-audit-perceivable-text-size";
      Build.description := "Text size"; Build.directory := "text-size";
      Build.path := "skills/text-size/SKILL.md" |}
     ∈ tools_section
         [{| Build.name := "wcag-audit-perceivable-text-size";
             Build.description := "Text size"; Build.directory := "text-size";
             Build.path := "skills/text-size/SKILL.md" |}]
   ↔ Build.category_of "wcag-audit-perceivable-text-size" = "tools")
  ∧ (Build.category_of "wcag-audit-perceivable-text-size" = "deep" →
     {| Build.name := "wcag-audit-perceivable-text-size";
        Build.description := "Text size"; Build.directory := "text-size";
        Build.path := "skills/text-size/SKILL.md" |}
       ∈ deep_section
           [{| Build.name := "wcag-audit-perceivable-text-size";
               Build.description := "Text size"; Build.directory := "text-size";
               Build.path := "skills/text-size/SKILL.md" |}])
  ∧ (Build.category_of "wcag-audit-perceivable-text-size" = "router" →
     {| Build.name := "wcag-audit-perceivable-text-size";
        Build.description := "Text size"; Build.directory := "text-size";
        Build.path := "skills/text-size/SKILL.md" |}
       ∈ router_section
           [{| Build.name := "wcag-audit-perceivable-text-size";
               Build.description := "Text size"; Build.directory := "text-size";
               Build.path := "skills/text-size/SKILL.md" |}]).
Proof.
  apply (sections_and_categories
           [{| Build.name := "wcag-audit-perceivable-text-size";
               Build.description := "Text size"; Build.directory := "text-size";
               Build.path := "skills/text-size/SKILL.md" |}]
           {| Build.name := "wcag-audit-perceivable-text-size";
              Build.description := "Text size"; Build.directory := "text-size";
              Build.path := "skills/text-size/SKILL.md" |}).
  now left.
Defined.

(** A skill can be listed under Router Skills and under Accessibility
    Tools at once, while skills.json gives it the one category
    "tools". *)
Example listed_twice :
  let skill :=
    {| Build.name := "wcag-audit-perceivable-text-size";
       Build.description := "Text size"; Build.directory := "text-size";
       Build.path := "skills/text-size/SKILL.md" |} in
  router_section [skill] = [skill] ∧ tools_section [skill] = [skill]
  ∧ Build.category_of (Build.name skill) = "tools".
Proof. cbn zeta. repeat split; vm_compute; reflexivity. Qed.
End MetadataProperties.

(** ** Skill metadata build: what a repeated build does to the README *)

Section ReadmeProperties.
Import Str Readme.
Open Scope string_scope.
Implicit Types (p s t u : string) (c : ascii).

Lemma startsWith_append p s : startsWith p (p ++ s) = true.
Proof.
  induction p as [|c p IH]; [reflexivity | ].
  rewrite append_cons. cbn [startsWith].
  destruct (ascii_dec c c) as [_|Hne]; [exact IH | now destruct Hne].
Qed.

(** [startsWith] looks at no more than the length of the pattern. *)
Lemma startsWith_append_long p s t :
  (String.length p ≤ String.length s)%nat →
  startsWith p (s ++ t) = startsWith p s.
Proof.
  revert s. induction p as [|c p IH]; intros s Hlen; [reflexivity | ].
  destruct s as [|a s]; [cbn in Hlen; lia | ].
  rewrite append_cons. cbn [startsWith].
  destruct (ascii_dec c a); [ | reflexivity].
  apply IH. cbn in Hlen. lia.
Qed.

Lemma substring_drop_append p s :
  substring (String.length p) (String.length (p ++ s) - String.length p) (p ++ s) = s.
Proof.
  induction p as [|c p IH].
  - change ("" ++ s) with s. cbn [String.length]. rewrite Nat.sub_0_r.
    induction s as [|a s IHs]; [reflexivity | ]. cbn. now rewrite IHs.
  - rewrite append_cons. cbn [String.length substring Nat.sub]. exact IH.
Qed.

Lemma startsWith_true p s : startsWith p s = true → ∃ t, s = p ++ t.
Proof.
  revert s. induction p as [|c p IH]; intros s H.
  - exists s. reflexivity.
  - destruct s as [|a s]; [discriminate | ]. cbn [startsWith] in H.
    destruct (ascii_dec c a) as [->|]; [ | discriminate].
    destruct (IH s H) as [t ->]. exists t. reflexivity.
Qed.

Lemma startsWith_rest p s :
  startsWith p s = true →
  s = p ++ substring (String.length p) (String.length s - String.length p) s.
Proof.
  intros H. destruct (startsWith_true p s H) as [t ->].
  now rewrite substring_drop_append.
Qed.

(** [find_first] splits the string at an occurrence of the pattern. *)
Lemma find_first_split p s before after :
  find_first p s = Some (before, after) → s = before ++ p ++ after.
Proof.
  revert before after. induction s as [|c s IH]; intros before after;
    cbn [find_first]; destruct (startsWith p _) eqn:Hp.
  - intros [= <- <-]. now apply startsWith_rest.
  - discriminate.
  - intros [= <- <-]. now apply startsWith_rest.
  - destruct (find_first p s) as [[b a]|]; [ | discriminate].
    intros [= <- <-]. rewrite append_cons. f_equal. now apply IH.
Qed.

Lemma includes_find_first p s :
  includes p s = true → ∃ before after, find_first p s = Some (before, after).
Proof.
  induction s as [|c s IH]; cbn [includes find_first];
    destruct (startsWith p _); cbn [orb]; eauto; try discriminate.
  intros H. destruct (IH H) as (b & a & ->). eauto.
Qed.

Lemma includes_append p s t : includes p (s ++ p ++ t) = true.
Proof.
  induction s as [|c s IH].
  - change ("" ++ p ++ t) with (p ++ t). destruct (p ++ t) eqn:Heq;
      cbn [includes]; rewrite <- Heq, startsWith_append; reflexivity.
  - rewrite append_cons. cbn [includes]. rewrite IH. apply orb_true_r.
Qed.

(** The text after the first occurrence does not change where the first
    occurrence is. *)
Lemma find_first_prefix p s before after t :
  p ≠ "" →
  find_first p s = Some (before, after) →
  find_first p (before ++ p ++ t) = Some (before, t).
Proof.
  intros Hp. revert s after. induction before as [|c b IH]; intros s after Hs.
  - change ("" ++ p ++ t) with (p ++ t).
    destruct (p ++ t) eqn:Heq; cbn [find_first]; rewrite <- Heq, startsWith_append;
      now rewrite substring_drop_append.
  - pose proof (find_first_split _ _ _ _ Hs) as Hsplit.
    destruct s as [|a s]; [destruct p; discriminate | ].
    cbn [find_first] in Hs. destruct (startsWith p (String a s)) eqn:Hstart;
      [discriminate | ].
    destruct (find_first p s) as [[b' a']|] eqn:Hfind; [ | discriminate].
    injection Hs as -> -> ->.
    rewrite append_cons. cbn [find_first].
    assert (Hno : startsWith p (String c (b ++ p ++ t)) = false).
    { rewrite Hsplit, append_cons in Hstart.
      rewrite <- append_cons, <- append_assoc in Hstart |- *.
      rewrite startsWith_append_long in Hstart |- *;
        try (rewrite length_append; lia). exact Hstart. }
    rewrite Hno. now rewrite (IH s after Hfind).
Qed.

Lemma GetSubstitution_plain matched before after replacement :
  includes "$" replacement = false →
  GetSubstitution matched before after replacement = replacement.
Proof.
  induction replacement as [|c r IH]; [reflexivity | ].
  cbn [includes startsWith]. destruct (ascii_dec "$" c) as [<-|Hne]; [discriminate | ].
  cbn [orb]. intros H. specialize (IH H).
  destruct (ascii_dec c "$") as [->|Hc]; [now destruct Hne | ].
  cbn [GetSubstitution].
  destruct c as [[] [] [] [] [] [] [] []]; try (now rewrite IH); now destruct Hc.
Qed.

Lemma includes_char_append c s t :
  includes (String c "") (s ++ t) = includes (String c "") s || includes (String c "") t.
Proof.
  induction s as [|a s IH]; [now destruct t | ].
  rewrite append_cons. cbn [includes startsWith].
  destruct (ascii_dec c a); [reflexivity | ]. cbn [orb]. exact IH.
Qed.

Lemma lazy_until_skip c p u s :
  includes (String c "") u = false →
  lazy_until (String c p) (u ++ s)
  = (u ++ fst (lazy_until (String c p) s), snd (lazy_until (String c p) s)).
Proof.
  induction u as [|a u IH].
  - intros _. change ("" ++ s) with s. now destruct (lazy_until _ s).
  - cbn [includes startsWith]. destruct (ascii_dec c a) as [->|Hne]; [discriminate | ].
    cbn [orb]. intros H. rewrite append_cons. cbn [lazy_until startsWith].
    destruct (ascii_dec c a) as [->|_]; [now destruct Hne | ].
    rewrite (IH H). reflexivity.
Qed.

Lemma uint_no_dollar (d : Decimal.uint) :
  includes "$" (DecimalString.NilEmpty.string_of_uint d) = false.
Proof. induction d; cbn; auto. Qed.

Lemma number_no_dollar (n : nat) :
  includes "$" (DecimalString.NilZero.string_of_uint (Nat.to_uint n)) = false.
Proof.
  unfold DecimalString.NilZero.string_of_uint.
  destruct (Nat.to_uint n); try apply uint_no_dollar. reflexivity.
Qed.

Lemma lines_no_dollar (skills : list Build.skill) :
  Forall (λ skill, includes "$" (Build.name skill) = false
                   ∧ includes "$" (Build.description skill) = false) skills →
  includes "$" (String.concat nl (map skill_line skills)) = false.
Proof.
  induction 1 as [|skill l [Hn Hd] Hl IH]; [reflexivity | ].
  assert (Hline : includes "$" (skill_line skill) = false).
  { unfold skill_line. rewrite !includes_char_append, Hn, Hd. reflexivity. }
  cbn [map String.concat]. destruct (map skill_line l) eqn:Hmap; [exact Hline | ].
  rewrite !includes_char_append, Hline, IH. reflexivity.
Qed.

Lemma installSection_no_dollar (skills : list Build.skill) :
  Forall (λ skill, includes "$" (Build.name skill) = false
                   ∧ includes "$" (Build.description skill) = false) skills →
  includes "$" (installSection skills) = false.
Proof.
  intros H. unfold installSection, available_part.
  rewrite !includes_char_append, number_no_dollar, (lines_no_dollar skills H).
  reflexivity.
Qed.

Lemma updateReadme_replaces skills readme before rest :
  Forall (λ skill, includes "$" (Build.name skill) = false
                   ∧ includes "$" (Build.description skill) = false) skills →
  includes "## Installation" readme = true →
  find_first "## Installation" readme = Some (before, rest) →
  updateReadme skills readme
  = before ++ installation_part ++ available_part skills
    ++ snd (lazy_until "## " rest).
Proof.
  intros Hplain Hinc Hfind.
  unfold updateReadme. rewrite Hinc. unfold replace_installation.
  rewrite Hfind. destruct (lazy_until "## " rest) as [middle after].
  rewrite GetSubstitution_plain by now apply installSection_no_dollar.
  unfold installSection. now rewrite append_assoc.
Qed.

(** X29: When the README has an Installation section, [updateReadme] puts the
    installation commands and the list of skills in its place; run once
    more on what it wrote, it replaces the commands alone by the commands
    and the list, so that the list is there twice: every further build
    adds one more copy of it. *)
Theorem updateReadme_repeats_the_list skills readme :
  Forall (λ skill, includes "$" (Build.name skill) = false
                   ∧ includes "$" (Build.description skill) = false) skills →
  includes "## Installation" readme = true →
  ∃ before after,
    updateReadme skills readme
    = before ++ installation_part ++ available_part skills ++ after
    ∧ updateReadme skills (updateReadme skills readme)
      = before ++ installation_part ++ available_part skills
        ++ available_part skills ++ after.
Proof.
  intros Hplain Hinc.
  destruct (includes_find_first _ _ Hinc) as (before & rest & Hfind).
  pose proof (updateReadme_replaces skills readme before rest Hplain Hinc Hfind) as H1.
  set (after := snd (lazy_until "## " rest)) in *.
  exists before, after. split; [exact H1 | ]. rewrite H1.
  set (A := "" ++ nl ++ nl
            ++ "```sh" ++ nl
            ++ "npx add-skill <repository-url>" ++ nl
            ++ "```" ++ nl ++ nl
            ++ "Or install specific skills:" ++ nl ++ nl
            ++ "```sh" ++ nl
            ++ "npx add-skill <repository-url> --skill wcag-audit-perceivable-color --skill wcag-audit-understandable-forms" ++ nl
            ++ "```" ++ nl ++ nl).
  assert (HA : installation_part = "## Installation" ++ A) by reflexivity.
  set (B := available_part skills) in *.
  assert (Hshape : before ++ installation_part ++ B ++ after
                   = before ++ "## Installation" ++ (A ++ B ++ after)).
  { rewrite HA. now rewrite !append_assoc. }
  unfold updateReadme. rewrite Hshape, includes_append.
  unfold replace_installation.
  assert (Hp : "## Installation" ≠ "") by discriminate.
  rewrite (find_first_prefix _ _ _ _ (A ++ B ++ after) Hp Hfind).
  rewrite lazy_until_skip by (vm_compute; reflexivity).
  assert (HB : lazy_until "## " (B ++ after) = ("", B ++ after)) by reflexivity.
  rewrite HB. cbn [fst snd]. rewrite append_nil_r.
  rewrite GetSubstitution_plain by now apply installSection_no_dollar.
  unfold installSection. fold B. rewrite HA. now rewrite !append_assoc.
Qed.

Lemma updateReadme_repeats_the_list_witness :
  ∃ before after,
    updateReadme [Build.aria_basics] ("# Skills" ++ nl ++ "## Installation" ++ nl ++ "## License")
    = before ++ installation_part ++ available_part [Build.aria_basics] ++ after
    ∧ updateReadme [Build.aria_basics]
        (updateReadme [Build.aria_basics]
           ("# Skills" ++ nl ++ "## Installation" ++ nl ++ "## License"))
      = before ++ installation_part ++ available_part [Build.aria_basics]
        ++ available_part [Build.aria_basics] ++ after.
Proof.
  apply (updateReadme_repeats_the_list [Build.aria_basics]
           ("# Skills" ++ nl ++ "## Installation" ++ nl ++ "## License")).
  - repeat constructor.
  - vm_compute. reflexivity.
Defined.
Lemma trimStart_append_stop t u c :
  is_white c = false → ∃ v, trimStart (t ++ String c u) = v ++ String c u.
Proof.
  intros Hc. induction t as [|a t [v IH]].
  - exists "". change ("" ++ String c u) with (String c u). cbn [trimStart].
    now rewrite Hc.
  - rewrite append_cons. cbn [trimStart]. destruct (is_white a).
    + exists v. exact IH.
    + exists (String a t). reflexivity.
Qed.

(** [trim] keeps a prefix that starts and ends with characters that are
    not white space. *)
Lemma trim_keeps_prefix c p d t :
  is_white c = false → is_white d = false →
  ∃ t', trim (String c p ++ String d t) = String c p ++ String d t'.
Proof.
  intros Hc Hd. unfold trim. rewrite append_cons. cbn [trimStart]. rewrite Hc.
  rewrite <- append_cons. unfold trimEnd.
  assert (Hrev : rev (String c p ++ String d t) = rev t ++ String d (rev (String c p))).
  { rewrite rev_append. cbn [rev]. rewrite append_assoc. reflexivity. }
  rewrite Hrev. destruct (trimStart_append_stop (rev t) (rev (String c p)) d Hd) as [v ->].
  exists (rev v). rewrite rev_append. cbn [rev].
  change (rev (String c p)) with (rev p ++ String c "").
  rewrite rev_append, rev_involutive. cbn [rev append].
  rewrite !append_assoc. reflexivity.
Qed.

Lemma includes_prefix p s : includes p (p ++ s) = true.
Proof. apply (includes_append p "" s). Qed.

Lemma includes_append_l p s t : includes p s = true → includes p (s ++ t) = true.
Proof.
  intros H. destruct (includes_find_first p s H) as (b & a & Hfind).
  apply find_first_split in Hfind as ->.
  rewrite !append_assoc. apply includes_append.
Qed.

Lemma includes_append_r p s t : includes p t = true → includes p (s ++ t) = true.
Proof.
  intros H. destruct (includes_find_first p t H) as (b & a & Hfind).
  apply find_first_split in Hfind as ->.
  rewrite <- append_assoc. apply includes_append.
Qed.

Lemma includes_concat p sep (l1 l2 : list string) x :
  includes p x = true → includes p (String.concat sep (l1 ++ x :: l2)%list) = true.
Proof.
  intros Hx. induction l1 as [|y l1 IH].
  - cbn [app String.concat]. destruct l2; [exact Hx | now apply includes_append_l].
  - cbn [app String.concat]. destruct (l1 ++ x :: l2)%list eqn:Heq.
    + now destruct l1.
    + apply includes_append_r, includes_append_r. exact IH.
Qed.

(** X30: Whatever the README was, what [updateReadme] writes has an
    Installation section, so that the next build replaces it. *)
Theorem updateReadme_writes_installation skills readme :
  Forall (λ skill, includes "$" (Build.name skill) = false
                   ∧ includes "$" (Build.description skill) = false) skills →
  includes "## Installation" (updateReadme skills readme) = true.
Proof.
  intros Hplain. destruct (includes "## Installation" readme) eqn:Hinc.
  - destruct (includes_find_first _ _ Hinc) as (before & rest & Hfind).
    rewrite (updateReadme_replaces skills readme before rest Hplain Hinc Hfind).
    change installation_part with ("## Installation" ++
      substring 15 (String.length installation_part) installation_part).
    rewrite !append_assoc. apply includes_append.
  - unfold updateReadme. rewrite Hinc. cbn zeta.
    apply includes_concat.
    destruct (trim_keeps_prefix "#" "# Installatio" "n"
                (substring 15 (String.length installation_part) installation_part
                 ++ available_part skills)
                ltac:(reflexivity) ltac:(reflexivity)) as [t' Ht].
    change (String "#" "# Installatio" ++ String "n" ?x)
      with ("## Installation" ++ x) in Ht.
    change (installSection skills)
      with ("## Installation"
            ++ substring 15 (String.length installation_part) installation_part
            ++ available_part skills).
    rewrite Ht. apply includes_prefix.
Qed.

Lemma updateReadme_writes_installation_witness :
  includes "## Installation"
    (updateReadme [Build.aria_basics] ("# Skills" ++ nl ++ nl ++ "Text")) = true.
Proof.
  apply (updateReadme_writes_installation [Build.aria_basics]
           ("# Skills" ++ nl ++ nl ++ "Text")).
  repeat constructor.
Defined.
End ReadmeProperties.
